(** * IfrtComputationClient: a shallow embedding of
      torch_xla/csrc/runtime/ifrt_computation_client.cc

    The client object is modelled as a record of its data members, its
    member functions as computations in a state-and-failure monad over that
    record.  The IFRT/PjRt runtime the client drives (device enumeration,
    buffer creation, assembly, compilation, execution, host copies) is not
    part of the file: it appears as a record of operations, [IfrtClient],
    held in the [client_] member exactly as the C++ object holds a pointer
    to an abstract [xla::ifrt::Client]. *)

From stdpp Require Import base option list gmap strings pretty sorting.
From Stdlib Require Import ZArith Ascii.

Local Open Scope string_scope.
Local Open Scope Z_scope.
Local Open Scope list_scope.

(** ** Results of calls *)

(** [absl::Status]: OK or an error with a message. *)
Inductive Status : Type :=
| OkStatus
| ErrorStatus (msg : string).

(** [absl::StatusOr<T>]. *)
Inductive StatusOr (A : Type) : Type :=
| OkValue (a : A)
| NotOk (msg : string).
Arguments OkValue {A} a.
Arguments NotOk {A} msg.

(** What a call of a member function can do.
    - [Returned a]: the call returns [a].
    - [Propagated s]: the call hands a non-OK status back to its caller as a
      value (the second error policy of the specification).
    - [Fatal msg]: a failed check; the call does not return.
    - [Undefined]: the C++ has no defined behaviour (a null [buffer] or
      [client_] is dereferenced, an index is out of range). *)
Inductive outcome (A : Type) : Type :=
| Returned (a : A)
| Propagated (s : Status)
| Fatal (msg : string)
| Undefined.
Arguments Returned {A} a.
Arguments Propagated {A} s.
Arguments Fatal {A} msg.
Arguments Undefined {A}.

Definition is_returned {A} (o : outcome A) : bool :=
  match o with Returned _ => true | _ => false end.

Definition is_fatal {A} (o : outcome A) : bool :=
  match o with Fatal _ => true | _ => false end.

Definition is_propagated {A} (o : outcome A) : bool :=
  match o with Propagated _ => true | _ => false end.

(** ** Data model *)

(** [xla::PrimitiveType], the element types used by the runtime. *)
Inductive PrimitiveType : Type := PRED | S8 | S32 | S64 | U8 | BF16 | F16 | F32 | F64.

Definition ByteSizeOfPrimitiveType (t : PrimitiveType) : Z :=
  match t with
  | PRED | S8 | U8 => 1
  | BF16 | F16 => 2
  | S32 | F32 => 4
  | S64 | F64 => 8
  end.

(** [xla::Shape] of an array: element type and dimensions. *)
Record Shape : Type := MakeShape {
  element_type : PrimitiveType;
  dimensions : list Z
}.

(** [xla::OpSharding]: the partition specification attached to a handle.
    The client never inspects it; only the kind and the tile assignment are
    kept. *)
Inductive OpSharding : Type :=
| REPLICATED
| OTHER (tile_assignment : list Z).

(** [xla::PjRtDevice]: the driver-assigned id, the platform name of the
    client that owns the device, and the process that hosts it. *)
Record PjRtDevice : Type := MakeDevice {
  device_id : Z;
  device_platform_name : string;
  process_index : Z
}.

(** [xla::ifrt::Array]: element type, dimensions, the devices of its
    sharding, and its contents. *)
Record Array : Type := MakeArray {
  array_dtype : PrimitiveType;
  array_shape : list Z;
  array_devices : list PjRtDevice;
  array_contents : list Z
}.

(** [xla::ifrt::ConcreteSharding::Create(devices, memory_kind, shape,
    shard_shapes)]. *)
Record ConcreteSharding : Type := ConcreteSharding_Create {
  cs_devices : list PjRtDevice;
  cs_shape : list Z;
  cs_shard_shapes : list (list Z)
}.

(** [TensorSource]: a host tensor and the device it is meant for. *)
Record TensorSource : Type := MakeTensorSource {
  ts_device : string;
  ts_shape : Shape;
  ts_data : list Z
}.

(** [xla::Literal]: a host-side value. *)
Record Literal : Type := MakeLiteral {
  literal_shape : Shape;
  literal_data : list Z
}.

(** [IfrtComputationClient::IfrtData], the data handle.  [buffer] is a
    [tsl::RCReference<xla::ifrt::Array>] and may be null; [sharding_] is a
    [std::optional<xla::OpSharding>]. *)
Record IfrtData : Type := MakeIfrtData {
  device : string;
  shape : Shape;
  buffer : option Array;
  sharding_ : option OpSharding
}.

(** Modelled from the spec: the constructors of [IfrtData] are declared in
    ifrt_computation_client.h, which is not among the sources.  A handle is
    "an unrealized placeholder (device + shape only, no buffer)", a
    single-device buffer, or a sharded array "with an attached sharding
    descriptor"; each constructor stores its arguments in the fields.
    This one is [IfrtData(device, shape)]. *)
Definition IfrtData_placeholder (dev : string) (sh : Shape) : IfrtData :=
  MakeIfrtData dev sh None None.

(** Modelled from the spec: [IfrtData(device, shape, buffer, sharding)] of
    the missing header, where the sharding may be left out. *)
Definition IfrtData_with_shape (dev : string) (sh : Shape)
    (buf : option Array) (sharding : option OpSharding) : IfrtData :=
  MakeIfrtData dev sh buf sharding.

(** Modelled from the spec: [IfrtData(device, buffer, sharding)] of the
    missing header.  It is given no shape, so "device + shape" of the
    handle come from the device string and from the buffer: a null buffer
    is dereferenced. *)
Definition IfrtData_from_buffer (dev : string) (buf : option Array)
    (sharding : option OpSharding) : outcome IfrtData :=
  match buf with
  | Some a =>
      Returned (MakeIfrtData dev (MakeShape (array_dtype a) (array_shape a))
                             buf sharding)
  | None => Undefined
  end.

(** Modelled from the spec: [HasSharding] is defined in the missing
    header; "presence [of a sharding descriptor] distinguishes sharded from
    unsharded handles". *)
Definition HasSharding (d : IfrtData) : bool :=
  match sharding_ d with Some _ => true | None => false end.

(** Modelled from the spec: [HasValue] is defined in the missing header; a
    placeholder is a handle with "no buffer". *)
Definition HasValue (d : IfrtData) : bool :=
  match buffer d with Some _ => true | None => false end.

(** ** The runtime behind the client *)

(** [xla::DeviceAssignment]: a [replica_count] x [computation_count] array
    of device ids, every entry -1 until it is assigned.  Rows are stored
    as lists. *)
Record DeviceAssignment : Type := MakeDeviceAssignment {
  replica_count : nat;
  computation_count : nat;
  da_rows : list (list Z)
}.

Definition DeviceAssignment_new (replicas computations : nat) : DeviceAssignment :=
  MakeDeviceAssignment replicas computations
    (replicate replicas (replicate computations (-1))).

(** [device_assignment(r, c) = v].  The C++ array does not check its
    indices; here an index out of range leaves the array as it is. *)
Definition DeviceAssignment_set (da : DeviceAssignment) (r c : nat) (v : Z)
    : DeviceAssignment :=
  MakeDeviceAssignment (replica_count da) (computation_count da)
    (alter (fun row => <[c := v]> row) r (da_rows da)).

Definition DeviceAssignment_get (da : DeviceAssignment) (r c : nat) : option Z :=
  da_rows da !! r ≫= fun row => row !! c.

(** [xla::CompileOptions] with the fields of [executable_build_options]
    that [Compile] sets. *)
Record CompileOptions : Type := MakeCompileOptions {
  use_spmd_partitioning : bool;
  allow_spmd_sharding_propagation_to_output : list bool;
  num_partitions : nat;
  num_replicas : nat;
  parameter_is_tupled_arguments : bool;
  device_assignment : option DeviceAssignment
}.

(** A default-constructed [xla::CompileOptions].  The class belongs to the
    XLA library; the values below only stand for the defaults it gives to
    the fields the unsharded branch of [Compile] leaves alone, and no
    property of this development depends on them. *)
Definition CompileOptions_default : CompileOptions :=
  MakeCompileOptions false [] 1%nat 1%nat false None.

(** [xla::ExecuteOptions], the fields [ExecuteReplicated] sets. *)
Record ExecuteOptions : Type := MakeExecuteOptions {
  untuple_result : bool;
  strict_shape_checking : bool;
  multi_slice_config : option unit
}.

(** [xla::XlaComputation]: the program handed to the compiler.  The client
    treats it as opaque except in [ReplicateShardedData], which builds one
    with a single parameter, an add-zero root and two sharding
    annotations. *)
Record XlaComputation : Type := MakeXlaComputation {
  computation_name : string;
  parameter_shapes : list Shape;
  parameter_sharding : option OpSharding;
  root_sharding : option OpSharding
}.

(** [xla::ifrt::LoadedExecutable::ExecuteResult]. *)
Record ExecuteResult : Type := MakeExecuteResult {
  result_status : Status;
  outputs : list (option Array)
}.

(** [xla::ifrt::LoadedExecutable]: the operations the client calls. *)
Record LoadedExecutable : Type := MakeLoadedExecutable {
  Execute : list (option Array) -> ExecuteOptions -> StatusOr ExecuteResult;
  GetOutputShardings : option (list OpSharding);
  GetHloModules : StatusOr (list XlaComputation)
}.

(** The IFRT client: the operations of [xla::ifrt::PjRtClient] and of
    the arrays it creates that the file calls.  [CopyToHostBuffer] stands
    for the awaited future: the status, and on success the bytes written
    to the host buffer. *)
Record IfrtClient : Type := MakeIfrtClient {
  devices : list PjRtDevice;
  addressable_devices : list PjRtDevice;
  client_process_index : Z;
  MakeArrayFromHostBuffer : TensorSource -> PjRtDevice -> StatusOr Array;
  AssembleArrayFromSingleDeviceArrays :
    list Z -> ConcreteSharding -> list (option Array) -> StatusOr Array;
  DisassembleIntoSingleDeviceArrays : Array -> StatusOr (list Array);
  FullyReplicatedShard : Array -> StatusOr Array;
  CopyToHostBuffer : Array -> list Z -> StatusOr (list Z);
  compiler_Compile : XlaComputation -> CompileOptions -> StatusOr LoadedExecutable
}.

Definition device_count (c : IfrtClient) : nat := length (devices c).
Definition addressable_device_count (c : IfrtClient) : nat :=
  length (addressable_devices c).

(** [XlaCoordinator], built from the rank, the world size and the
    rendezvous address. *)
Record XlaCoordinator : Type := MakeXlaCoordinator {
  global_rank : Z;
  world_size : Z;
  master_addr : string;
  port : string
}.

(** The metrics the file reports to, by name: counters and sampled
    metrics. *)
Record Metrics : Type := MakeMetrics {
  counters : gmap string Z;
  samples : gmap string (list Z)
}.

Definition AddValue (name : string) (v : Z) (m : Metrics) : Metrics :=
  MakeMetrics (<[name := default 0 (counters m !! name) + v]> (counters m))
              (samples m).

Definition AddSample (name : string) (v : Z) (m : Metrics) : Metrics :=
  MakeMetrics (counters m)
              (<[name := default [] (samples m !! name) ++ [v]]> (samples m)).

Definition counter (name : string) (m : Metrics) : Z :=
  default 0 (counters m !! name).

(** What the file inherits from [ComputationClient] and calls without
    defining: [GetCompilationDevices] (computation_client.cc) and the value
    of [explode_tuple] in a default-constructed [ExecuteReplicatedOptions]
    (computation_client.h).  Neither is among the sources, so both are
    taken as given. *)
Record ComputationClient : Type := MakeComputationClient {
  GetCompilationDevices : string -> list string -> list string;
  default_explode_tuple : bool
}.

(** ** The client object *)

(** The data members of [IfrtComputationClient] that the file reads or
    writes, and the process-wide metrics.  [client_] and [coordinator_] are
    owning pointers and may be null. *)
Record IfrtComputationClient : Type := MakeClient {
  client_ : option IfrtClient;
  coordinator_ : option XlaCoordinator;
  global_ordinals_ : gmap Z nat;
  string_to_device_ : gmap string PjRtDevice;
  replication_devices_ : option (list string);
  operation_manager_ : list string;
  metrics : Metrics;
  base : ComputationClient
}.

Definition set_client_ (v : option IfrtClient) (st : IfrtComputationClient) :=
  MakeClient v (coordinator_ st) (global_ordinals_ st) (string_to_device_ st)
             (replication_devices_ st) (operation_manager_ st) (metrics st) (base st).

Definition set_coordinator_ (v : option XlaCoordinator) (st : IfrtComputationClient) :=
  MakeClient (client_ st) v (global_ordinals_ st) (string_to_device_ st)
             (replication_devices_ st) (operation_manager_ st) (metrics st) (base st).

Definition set_global_ordinals_ (v : gmap Z nat) (st : IfrtComputationClient) :=
  MakeClient (client_ st) (coordinator_ st) v (string_to_device_ st)
             (replication_devices_ st) (operation_manager_ st) (metrics st) (base st).

Definition set_string_to_device_ (v : gmap string PjRtDevice) (st : IfrtComputationClient) :=
  MakeClient (client_ st) (coordinator_ st) (global_ordinals_ st) v
             (replication_devices_ st) (operation_manager_ st) (metrics st) (base st).

Definition set_replication_devices_ (v : option (list string)) (st : IfrtComputationClient) :=
  MakeClient (client_ st) (coordinator_ st) (global_ordinals_ st) (string_to_device_ st)
             v (operation_manager_ st) (metrics st) (base st).

Definition set_operation_manager_ (v : list string) (st : IfrtComputationClient) :=
  MakeClient (client_ st) (coordinator_ st) (global_ordinals_ st) (string_to_device_ st)
             (replication_devices_ st) v (metrics st) (base st).

Definition set_metrics (v : Metrics) (st : IfrtComputationClient) :=
  MakeClient (client_ st) (coordinator_ st) (global_ordinals_ st) (string_to_device_ st)
             (replication_devices_ st) (operation_manager_ st) v (base st).

(** ** The monad of member functions *)

Definition M (A : Type) : Type :=
  IfrtComputationClient -> outcome (A * IfrtComputationClient).

Definition ret {A} (a : A) : M A := fun st => Returned (a, st).

Definition bind {A B} (m : M A) (k : A -> M B) : M B :=
  fun st =>
    match m st with
    | Returned (a, st') => k a st'
    | Propagated s => Propagated s
    | Fatal msg => Fatal msg
    | Undefined => Undefined
    end.

Notation "'let*' x ':=' m 'in' k" := (bind m (fun x => k))
  (at level 10, x pattern, m at level 100, k at level 200).

Definition get : M IfrtComputationClient := fun st => Returned (st, st).

Definition modify (f : IfrtComputationClient -> IfrtComputationClient) : M unit :=
  fun st => Returned (tt, f st).

Definition lift {A} (o : outcome A) : M A :=
  fun st =>
    match o with
    | Returned a => Returned (a, st)
    | Propagated s => Propagated s
    | Fatal msg => Fatal msg
    | Undefined => Undefined
    end.

Definition fatal {A} (msg : string) : M A := fun _ => Fatal msg.

Definition undefined {A} : M A := fun _ => Undefined.

(** A range-based [for] whose body returns nothing. *)
Fixpoint for_each {A} (l : list A) (body : A -> M unit) : M unit :=
  match l with
  | [] => ret tt
  | x :: rest => let* _ := body x in for_each rest body
  end.

(** A loop that pushes one element per iteration onto a vector. *)
Fixpoint for_each_push {A B} (l : list A) (body : A -> M B) : M (list B) :=
  match l with
  | [] => ret []
  | x :: rest =>
      let* y := body x in
      let* ys := for_each_push rest body in
      ret (y :: ys)
  end.

(** Modelled from the spec: the check macros come from debug_macros.h,
    which is not among the sources.  The spec calls [XLA_CHECK],
    [XLA_CHECK_EQ] and [XLA_ERROR] "fatal checks (process-terminating)": it
    lists the failures they guard (an unknown device string, a second
    initialization of the coordinator, a coordinator used before it is
    initialized, mismatched shard and device counts, missing output
    shardings, the interface points that are not implemented) under that
    policy.  [XLA_CHECK(c) << msg] passes when [c] holds. *)
Definition XLA_CHECK (c : bool) (msg : string) : M unit :=
  if c then ret tt else fatal msg.

(** Modelled from the spec: [XLA_CHECK_EQ(a, b)] of the same missing
    header, the fatal check that [a] equals [b]. *)
Definition XLA_CHECK_EQ (a b : nat) (msg : string) : M unit :=
  XLA_CHECK (bool_decide (a = b)) msg.

(** Modelled from the spec: [XLA_CHECK_OK(status)] of the same missing
    header passes when the status is OK.  The one failure it guards that
    the spec speaks of is the awaited status of a copy to the host, and the
    spec files it under its second policy: "propagated failures for
    legitimate runtime errors (an async copy future resolving to an
    error)", "Fails (propagates) if the underlying copy-to-host operation
    does not complete successfully".  A status that is not OK is therefore
    handed back to the caller. *)
Definition XLA_CHECK_OK (s : Status) : M unit :=
  match s with
  | OkStatus => ret tt
  | ErrorStatus msg => fun _ => Propagated (ErrorStatus msg)
  end.

(** Modelled from the spec: [XLA_ERROR() << msg] of the same missing
    header, the unconditional "fatal error". *)
Definition XLA_ERROR {A} (msg : string) : M A := fatal msg.

(** [StatusOr::value()]: the value, or the end of the call when the status
    is not OK. *)
Definition value {A} (s : StatusOr A) : M A :=
  match s with
  | OkValue a => ret a
  | NotOk msg => fatal msg
  end.

(** Modelled from the spec: [ConsumeValue] is declared in a header that is
    not among the sources; it takes the value out of a [StatusOr], and
    "any compilation error aborts the whole Compile call". *)
Definition ConsumeValue {A} (s : StatusOr A) : M A := value s.

Definition status_of {A} (s : StatusOr A) : Status :=
  match s with
  | OkValue _ => OkStatus
  | NotOk msg => ErrorStatus msg
  end.

(** [client_->...]: a null [client_] is dereferenced. *)
Definition the_client : M IfrtClient :=
  fun st =>
    match client_ st with
    | Some c => Returned (c, st)
    | None => Undefined
    end.

(** ** Device registry *)

Definition ascii_toupper (c : ascii) : ascii :=
  let n := N_of_ascii c in
  if ((97 <=? n) && (n <=? 122))%N then ascii_of_N (n - 32) else c.

Fixpoint AsciiStrToUpper (s : string) : string :=
  match s with
  | EmptyString => EmptyString
  | String c rest => String (ascii_toupper c) (AsciiStrToUpper rest)
  end.

Definition spmd_device_str : string := "SPMD:0".

(** [PjRtDeviceToString]: [global_ordinals_.at] throws for an id that was
    not enumerated. *)
Definition PjRtDeviceToString (d : PjRtDevice) : M string :=
  let platform := AsciiStrToUpper (device_platform_name d) in
  let* st := get in
  match global_ordinals_ st !! device_id d with
  | Some ordinal => ret (platform +:+ ":" +:+ pretty ordinal)
  | None => fatal "unordered_map::at"
  end.

Definition PjRtDevicesToString (ds : list PjRtDevice) : M (list string) :=
  for_each_push ds PjRtDeviceToString.

Definition GetLocalDevices : M (list string) :=
  let* c := the_client in PjRtDevicesToString (addressable_devices c).

Definition GetAllDevices : M (list string) :=
  let* c := the_client in PjRtDevicesToString (devices c).

Definition GetNumDevices : M nat :=
  let* c := the_client in ret (addressable_device_count c).

(** [addressable_devices()[0]]: no defined behaviour without a device. *)
Definition GetDefaultDevice : M string :=
  let* c := the_client in
  match addressable_devices c with
  | d :: _ => PjRtDeviceToString d
  | [] => undefined
  end.

Definition StringToPjRtDevice (dev : string) : M PjRtDevice :=
  let* st := get in
  let* _ := XLA_CHECK (bool_decide (is_Some (string_to_device_ st !! dev)))
                      ("Unknown device " +:+ dev) in
  match string_to_device_ st !! dev with
  | Some d => ret d
  | None => undefined
  end.

(** [std::partial_sort_copy] into a vector as long as the input: the
    devices in increasing order of id. *)
Fixpoint insert_by_id (d : PjRtDevice) (l : list PjRtDevice) : list PjRtDevice :=
  match l with
  | [] => [d]
  | x :: rest =>
      if bool_decide (device_id d < device_id x) then d :: l
      else x :: insert_by_id d rest
  end.

Definition sort_by_id (l : list PjRtDevice) : list PjRtDevice :=
  foldr insert_by_id [] l.

(** [emplace] keeps an entry that is already there. *)
Definition emplace {V} (k : string) (v : V) (m : gmap string V) : gmap string V :=
  match m !! k with
  | Some _ => m
  | None => <[k := v]> m
  end.

(** The body of the constructor's loop.  The right-hand side
    [global_ordinals_.size()] is evaluated before the entry is created. *)
Definition register_device (d : PjRtDevice) : M unit :=
  let* st := get in
  let ordinal := size (global_ordinals_ st) in
  let* _ := modify (set_global_ordinals_
                      (<[device_id d := ordinal]> (global_ordinals_ st))) in
  let* device_str := PjRtDeviceToString d in
  modify (fun st => set_string_to_device_
                      (emplace device_str d (string_to_device_ st)) st).

(** The constructor, given the client [InitializePjRt] produced. *)
Definition IfrtComputationClient_new (c : IfrtClient) (m : Metrics)
    (b : ComputationClient) : outcome (unit * IfrtComputationClient) :=
  (let ordered_devices := sort_by_id (devices c) in
   let* _ := for_each ordered_devices register_device in
   let* tracked_devices := GetLocalDevices in
   modify (set_operation_manager_ (tracked_devices ++ [spmd_device_str])))
  (MakeClient (Some c) None ∅ ∅ None [] m b).

(** ** Teardown and the distributed coordinator *)

(** The two resources the client owns through [client_] and
    [coordinator_]. *)
Inductive Resource : Type := TheDeviceClient | TheCoordinator.

(** [client_ = nullptr]: the handle is dropped, if there is one. *)
Definition reset_client_ (st : IfrtComputationClient)
    : list Resource * IfrtComputationClient :=
  (match client_ st with Some _ => [TheDeviceClient] | None => [] end,
   set_client_ None st).

(** [coordinator_ = nullptr]: the coordinator is destroyed, if there is
    one. *)
Definition reset_coordinator_ (st : IfrtComputationClient)
    : list Resource * IfrtComputationClient :=
  (match coordinator_ st with Some _ => [TheCoordinator] | None => [] end,
   set_coordinator_ None st).

(** [~IfrtComputationClient]: the resources torn down, in order, and the
    object as the body leaves it. *)
Definition IfrtComputationClient_delete (st : IfrtComputationClient)
    : list Resource * IfrtComputationClient :=
  let '(released1, st1) := reset_client_ st in
  let '(released2, st2) := reset_coordinator_ st1 in
  (released1 ++ released2, st2).

(** [p == nullptr] for an owning pointer. *)
Definition is_null {A} (p : option A) : bool :=
  match p with None => true | Some _ => false end.

Definition CoordinatorInitialized : M bool :=
  let* st := get in
  ret (negb (is_null (coordinator_ st))).

(** Modelled from the spec: the constructor of [XlaCoordinator] is in
    xla_coordinator.cc, which is not among the sources; the coordinator is
    created from "rank, world size, and a rendezvous address". *)
Definition XlaCoordinator_new (rank size : Z) (addr prt : string) : XlaCoordinator :=
  MakeXlaCoordinator rank size addr prt.

Definition InitializeCoordinator (rank size : Z) (addr prt : string) : M unit :=
  let* st := get in
  let* _ := XLA_CHECK (is_null (coordinator_ st))
                      "Can only initialize the XlaCoordinator once." in
  modify (set_coordinator_ (Some (XlaCoordinator_new rank size addr prt))).

Definition GetCoordinator : M XlaCoordinator :=
  let* st := get in
  let* _ := XLA_CHECK (negb (is_null (coordinator_ st)))
                      "XlaCoordinator has not been initialized" in
  match coordinator_ st with
  | Some c => ret c
  | None => undefined
  end.

(** ** Data handles *)

(** [buffer = b] on a handle. *)
Definition set_buffer (b : option Array) (d : IfrtData) : IfrtData :=
  MakeIfrtData (device d) (shape d) b (sharding_ d).

(** [this->Assign(data)].  Handles are shared objects
    ([std::shared_ptr<Data>]) and [Assign] mutates the one it is called on,
    so the handles of the process are kept in a store, by address, and
    [this] and [data] are addresses; an address without a handle is a
    dangling reference.  The [dynamic_cast] succeeds: every handle of the
    model is an [IfrtData]. *)
Definition Assign (this data : positive) (handles : gmap positive IfrtData)
    : outcome (gmap positive IfrtData) :=
  match handles !! this, handles !! data with
  | Some self, Some pjrt_data =>
      if bool_decide (data ≠ this)
      then Returned (<[this := set_buffer (buffer pjrt_data) self]> handles)
      else Returned handles
  | _, _ => Undefined
  end.

Definition GetSharding (d : IfrtData) : M OpSharding :=
  let* _ := XLA_CHECK (HasSharding d) "Check HasSharding first" in
  match sharding_ d with
  | Some s => ret s
  | None => undefined
  end.

Definition CreateDataPlaceholder (dev : string) (sh : Shape) : M IfrtData :=
  ret (IfrtData_placeholder dev sh).

Definition GetDataSharding (handle : IfrtData) : M (option OpSharding) :=
  ret (sharding_ handle).

(** [ifrt_shard->buffer->...]: the buffer of a shard is dereferenced. *)
Definition deref {A} (p : option A) : M A :=
  match p with
  | Some a => ret a
  | None => undefined
  end.

Definition GetDataShards (data : IfrtData) : M (list IfrtData) :=
  if HasSharding data then
    let* c := the_client in
    let* buf := deref (buffer data) in
    let* arrays := value (DisassembleIntoSingleDeviceArrays c buf) in
    for_each_push arrays (fun array =>
      let* d0 := deref (head (array_devices array)) in
      let* dev := PjRtDeviceToString d0 in
      lift (IfrtData_from_buffer dev (Some array) None))
  else ret [data].

Definition GetDataShard (data : IfrtData) (index : nat) : M IfrtData :=
  let* shards := GetDataShards data in
  deref (shards !! index).

(** The loop shared by [WrapDataShards] and [TransferShardsToServer]:
    the buffers of the shards and the shapes of those buffers. *)
Definition collect_shards (shards : list IfrtData)
    : M (list (option Array) * list (list Z)) :=
  let* shard_shapes :=
    for_each_push shards (fun ifrt_shard =>
      let* buf := deref (buffer ifrt_shard) in ret (array_shape buf)) in
  ret (buffer <$> shards, shard_shapes).

Definition WrapDataShards (shards : list IfrtData) (dev : string) (sh : Shape)
    (sharding : OpSharding) : M IfrtData :=
  if bool_decide (length shards = 0%nat) then
    ret (IfrtData_with_shape dev sh None (Some sharding))
  else
    let* (arrays, shard_shapes) := collect_shards shards in
    let ifrt_shape := dimensions sh in
    let* c := the_client in
    let devices_list := addressable_devices c in
    let* _ := XLA_CHECK_EQ (length shard_shapes) (length devices_list)
                           "Check failed: shard_shapes.size() == devices_list.size()" in
    let ifrt_sharding := ConcreteSharding_Create devices_list ifrt_shape shard_shapes in
    let* sharded_array :=
      value (AssembleArrayFromSingleDeviceArrays c ifrt_shape ifrt_sharding arrays) in
    ret (IfrtData_with_shape dev sh (Some sharded_array) (Some sharding)).

(** ** Transfers to the devices *)

(** A counter or a data metric is updated.

    [TransferToServer], [TransferFromServer], [Compile] and
    [ExecuteReplicated] also open a [metrics::TimedSection] on a timing
    metric of their own ([TransferToServerMetric()] and the like), which
    samples the duration of the call into that metric when the section is
    closed.  Durations are readings of the clock and are left out of
    [Metrics]: the metrics of the model are the counters and the data
    metrics [OutboundData] and [InboundData], and the properties below
    speak of a client "up to its metrics", of counters and of these two
    data metrics only, never of the whole of the metrics after a call. *)
Definition report (f : Metrics -> Metrics) : M unit :=
  modify (fun st => set_metrics (f (metrics st)) st).

(** A loop that carries local variables from one iteration to the next. *)
Fixpoint for_each_acc {A S} (l : list A) (acc : S) (body : S -> A -> M S) : M S :=
  match l with
  | [] => ret acc
  | x :: rest => let* acc' := body acc x in for_each_acc rest acc' body
  end.

(** [int]: 32 bits, two's complement. *)
Definition INT_MIN : Z := -2147483648.
Definition INT_MAX : Z := 2147483647.

(** An [int] sum, as the machine computes it: reduced into the range of
    [int]. *)
Definition wrap_int (z : Z) : Z := (z - INT_MIN) mod 4294967296 + INT_MIN.

(** [int64_t], likewise. *)
Definition INT64_MIN : Z := -9223372036854775808.
Definition INT64_MAX : Z := 9223372036854775807.

Definition wrap_int64 (z : Z) : Z :=
  (z - INT64_MIN) mod 18446744073709551616 + INT64_MIN.

(** [xla::ShapeUtil::ByteSizeOf] of an array shape. *)
Definition ByteSizeOf (sh : Shape) : Z :=
  ByteSizeOfPrimitiveType (element_type sh) * foldr Z.mul 1 (dimensions sh).

(** The element type of a tensor source always converts to an IFRT
    [DType]: [PrimitiveType] lists convertible types only.  [total_size]
    is an [int64_t]. *)
Definition TransferToServer (tensors : list TensorSource) : M (list IfrtData) :=
  let* (datas, total_size) :=
    for_each_acc tensors ([], 0) (fun acc tensor =>
      let '(datas, total_size) := acc in
      let* pjrt_device := StringToPjRtDevice (ts_device tensor) in
      let total_size := wrap_int64 (total_size + ByteSizeOf (ts_shape tensor)) in
      let* c := the_client in
      let* buf := value (MakeArrayFromHostBuffer c tensor pjrt_device) in
      let data :=
        IfrtData_with_shape (ts_device tensor) (ts_shape tensor) (Some buf) None in
      ret (datas ++ [data], total_size)) in
  let* _ := report (AddSample "OutboundData" total_size) in
  let* _ := report (AddValue "CreateDataHandles" (Z.of_nat (length datas))) in
  ret datas.

Definition TransferShardsToServer (tensor_shards : list TensorSource)
    (dev : string) (sh : Shape) (sharding : OpSharding) : M IfrtData :=
  let* data_shards := TransferToServer tensor_shards in
  let* (arrays, shard_shapes) := collect_shards data_shards in
  let ifrt_shape := dimensions sh in
  let* c := the_client in
  let devices_list := addressable_devices c in
  let ifrt_sharding := ConcreteSharding_Create devices_list ifrt_shape shard_shapes in
  let* sharded_array :=
    value (AssembleArrayFromSingleDeviceArrays c ifrt_shape ifrt_sharding arrays) in
  ret (IfrtData_with_shape dev sh (Some sharded_array) (Some sharding)).

Definition CopyToDevice (data : IfrtData) (dst : string) : M IfrtData :=
  XLA_ERROR ("CopyToDevice" +:+ " not implemented").

(** ** Compilation *)

(** [ComputationClient::CompileInstance]. *)
Record CompileInstance : Type := MakeCompileInstance {
  instance_computation : XlaComputation;
  compilation_device : string;
  instance_devices : list string;
  output_shape : option Shape;
  instance_parameter_is_tupled_arguments : bool;
  is_sharded : bool;
  instance_allow_spmd_sharding_propagation_to_output : bool
}.

(** [IfrtComputation]: the compiled program, the devices of the instance
    and the executable. *)
Record IfrtComputation : Type := MakeIfrtComputation {
  computation : XlaComputation;
  computation_devices : list string;
  executable : LoadedExecutable
}.

(** The options [Compile] builds for one instance: the two branches of the
    [if (instance.is_sharded)].  The loops run over the entries of
    [global_ordinals_]. *)
Definition build_compile_options (instance : CompileInstance) : M CompileOptions :=
  let* c := the_client in
  let* st := get in
  if is_sharded instance then
    let device_assignment :=
      map_fold (fun device_id global_ordinal da =>
                  DeviceAssignment_set da 0 global_ordinal device_id)
               (DeviceAssignment_new 1 (device_count c))
               (global_ordinals_ st) in
    ret (MakeCompileOptions
           true
           [instance_allow_spmd_sharding_propagation_to_output instance]
           (device_count c)
           1
           (instance_parameter_is_tupled_arguments instance)
           (Some device_assignment))
  else
    let device_assignment :=
      map_fold (fun device_id global_ordinal da =>
                  DeviceAssignment_set da global_ordinal 0 device_id)
               (DeviceAssignment_new (device_count c) 1)
               (global_ordinals_ st) in
    ret (MakeCompileOptions
           (use_spmd_partitioning CompileOptions_default)
           (allow_spmd_sharding_propagation_to_output CompileOptions_default)
           1
           (device_count c)
           (instance_parameter_is_tupled_arguments instance)
           (Some device_assignment)).

(** The body of the loop of [Compile].  The conversion to StableHLO
    leaves the abstract program as it is. *)
Definition compile_instance (instance : CompileInstance) : M IfrtComputation :=
  let* compile_options := build_compile_options instance in
  let* c := the_client in
  let* exe :=
    ConsumeValue (compiler_Compile c (instance_computation instance) compile_options) in
  let* _ := report (AddValue "StableHloCompile" 1) in
  let* hlo_modules := ConsumeValue (GetHloModules exe) in
  let* hlo_module := deref (head hlo_modules) in
  let pjrt_computation :=
    MakeIfrtComputation hlo_module (instance_devices instance) exe in
  let* _ := report (AddValue "CreateCompileHandles" 1) in
  ret pjrt_computation.

Definition Compile (instances : list CompileInstance) : M (list IfrtComputation) :=
  for_each_push instances compile_instance.

(** ** Execution *)

(** [ExecuteComputationOptions] and [ExecuteReplicatedOptions]. *)
Record ExecuteReplicatedOptions : Type := MakeExecuteReplicatedOptions {
  explode_tuple : bool
}.

Definition ExecuteComputation (comp : IfrtComputation) (arguments : list IfrtData)
    (dev : string) (options : ExecuteReplicatedOptions) : M (list IfrtData) :=
  XLA_ERROR ("ExecuteComputation" +:+ " not implemented").

Definition ExecuteReplicated (ifrt_computation : IfrtComputation)
    (arguments : list IfrtData) (devs : list string)
    (options : ExecuteReplicatedOptions) : M (list IfrtData) :=
  let argument_handles := buffer <$> arguments in
  let execute_options := MakeExecuteOptions (explode_tuple options) true None in
  let* result :=
    value (Execute (executable ifrt_computation) argument_handles execute_options) in
  let results := outputs result in
  let* _ := XLA_CHECK (negb (is_null (GetOutputShardings (executable ifrt_computation))))
                      "Check failed: GetOutputShardings().has_value()" in
  let* output_shardings := deref (GetOutputShardings (executable ifrt_computation)) in
  let* _ := XLA_CHECK_EQ (length output_shardings) (length results)
                         "Check failed: output_shardings.size() == results.size()" in
  for_each_push (zip results output_shardings) (fun ro =>
    lift (IfrtData_from_buffer "SPMD:0" (fst ro) (Some (snd ro)))).

(** ** Replication and transfers to the host *)

(** [XLA_CHECK_OK] on a status that comes with a value. *)
Definition checked {A} (s : StatusOr A) : M A :=
  let* _ := XLA_CHECK_OK (status_of s) in
  match s with
  | OkValue a => ret a
  | NotOk _ => undefined
  end.

(** [*status_or]: a [StatusOr] read without a check of its status. *)
Definition unchecked {A} (s : StatusOr A) : M A :=
  match s with
  | OkValue a => ret a
  | NotOk _ => undefined
  end.

(** The identity computation [ReplicateShardedData] builds: one parameter
    of the shape of the handle under its sharding, and an add-zero root
    marked as replicated.  The builder calls themselves succeed. *)
Definition replicate_computation (sh : Shape) (sharding : OpSharding) : XlaComputation :=
  MakeXlaComputation "ReplicateShardedData" [sh] (Some sharding) (Some REPLICATED).

Definition ReplicateShardedData (handle : IfrtData) : M Array :=
  let* buf := deref (buffer handle) in
  if bool_decide (length (array_devices buf) = 1%nat) then ret buf
  else
    let* _ := report (AddValue "ReplicateShardedData" 1) in
    let sh := shape handle in
    let* sharding := GetSharding handle in
    let computation := replicate_computation sh sharding in
    let* dev := GetDefaultDevice in
    let* st := get in
    let instances :=
      [MakeCompileInstance computation dev
                           (GetCompilationDevices (base st) dev [])
                           (Some sh) false true false] in
    let* computations := Compile instances in
    let* local_devices := GetLocalDevices in
    let* _ := XLA_CHECK_EQ (length (array_devices buf)) (length local_devices)
                           "Check failed: devices().size() == GetLocalDevices().size()" in
    let execute_options :=
      MakeExecuteReplicatedOptions (default_explode_tuple (base st)) in
    let* front := deref (head computations) in
    let* local_devices := GetLocalDevices in
    let* sharded_results :=
      ExecuteReplicated front [handle] local_devices execute_options in
    let* result0 := deref (sharded_results !! 0%nat) in
    let* buf0 := deref (buffer result0) in
    let* c := the_client in
    unchecked (FullyReplicatedShard c buf0).

(** [xla::ShapeUtil::ByteStrides] for the default, major-to-minor layout
    of an array shape; its status is OK for such a shape. *)
Fixpoint byte_strides_of (elem : Z) (dims : list Z) : list Z :=
  match dims with
  | [] => []
  | _ :: rest => elem * foldr Z.mul 1 rest :: byte_strides_of elem rest
  end.

Definition ByteStrides (sh : Shape) : StatusOr (list Z) :=
  OkValue (byte_strides_of (ByteSizeOfPrimitiveType (element_type sh)) (dimensions sh)).

(** [xla::ShapeUtil::DeviceShapeToHostShape]: the shapes of the model
    carry no device-only part. *)
Definition DeviceShapeToHostShape (sh : Shape) : Shape := sh.

Definition size_bytes (l : Literal) : Z := ByteSizeOf (literal_shape l).

(** The body of the loop of [TransferFromServer]; [acc] holds [literals]
    and [total_size].  The literals are allocated and held in host memory
    together, so the sum of their byte sizes is within the [int64_t] that
    holds it. *)
Definition read_back (acc : list Literal * Z) (ifrt_data : IfrtData)
    : M (list Literal * Z) :=
  let '(literals, total_size) := acc in
  let* replicated_array := ReplicateShardedData ifrt_data in
  let host_shape := DeviceShapeToHostShape (shape ifrt_data) in
  let* byte_strides := checked (ByteStrides host_shape) in
  let* c := the_client in
  let* data := checked (CopyToHostBuffer c replicated_array byte_strides) in
  let literal := MakeLiteral host_shape data in
  ret (literals ++ [literal], total_size + size_bytes literal).

Definition TransferFromServer (handles : list IfrtData) : M (list Literal) :=
  let* (literals, total_size) := for_each_acc handles ([], 0) read_back in
  let* _ := report (AddSample "InboundData" total_size) in
  ret literals.

(** ** The remaining accessors *)

(** [max_process_index] is an [int], and so is the result. *)
Definition GetNumProcesses : M Z :=
  let* c := the_client in
  let max_process_index :=
    foldl (fun m d => Z.max m (process_index d)) (client_process_index c) (devices c) in
  ret (wrap_int (max_process_index + 1)).

Definition SetReplicationDevices (devs : option (list string)) : M unit :=
  modify (set_replication_devices_ devs).

Definition GetReplicationDevices : M (option (list string)) :=
  let* st := get in ret (replication_devices_ st).

(** [WaitDeviceOps]: the devices handed to
    [operation_manager_.WaitForDevices], the local devices when none is
    named.  The wait itself belongs to the operation manager. *)
Definition WaitDeviceOps (devs : list string) : M (list string) :=
  match devs with
  | [] => GetLocalDevices
  | _ => ret devs
  end.

(** ** The index map of a device list *)

(** [absl::StrSplit(s, delim)] into a vector: the pieces between the
    delimiters, empty pieces included. *)
Fixpoint StrSplit (s : string) (delim : ascii) : list string :=
  match s with
  | EmptyString => [EmptyString]
  | String c rest =>
      if Ascii.eqb c delim then EmptyString :: StrSplit rest delim
      else match StrSplit rest delim with
           | piece :: pieces => String c piece :: pieces
           | [] => [String c EmptyString]
           end
  end.

(** [isspace] in the C locale. *)
Definition is_space (c : ascii) : bool :=
  let n := N_of_ascii c in ((9 <=? n) && (n <=? 13) || (n =? 32))%N.

Definition digit_of (c : ascii) : option Z :=
  let n := N_of_ascii c in
  if ((48 <=? n) && (n <=? 57))%N then Some (Z.of_N n - 48) else None.

Fixpoint skip_spaces (s : string) : string :=
  match s with
  | String c rest => if is_space c then skip_spaces rest else s
  | EmptyString => s
  end.

(** The value of the digits a string starts with, after [acc]. *)
Fixpoint parse_digits (acc : Z) (s : string) : Z :=
  match s with
  | String c rest =>
      match digit_of c with
      | Some d => parse_digits (acc * 10 + d) rest
      | None => acc
      end
  | EmptyString => acc
  end.

(** [std::stoi]: white space is skipped, a sign is accepted, the digits
    that follow are read and what comes after them is ignored.  It throws
    [std::invalid_argument] without a digit and [std::out_of_range] for a
    value that does not fit an [int]. *)
Definition stoi (s : string) : M Z :=
  let s := skip_spaces s in
  let '(negative, s) :=
    match s with
    | String "-" rest => (true, rest)
    | String "+" rest => (false, rest)
    | _ => (false, s)
    end in
  match s with
  | String c _ =>
      match digit_of c with
      | Some _ =>
          let v := parse_digits 0 s in
          let v := if negative then - v else v in
          if (- 2 ^ 31 <=? v) && (v <=? 2 ^ 31 - 1) then ret v
          else fatal "stoi: out_of_range"
      | None => fatal "stoi: invalid_argument"
      end
  | EmptyString => fatal "stoi: invalid_argument"
  end.

(** The body of the loop of [build_index_map]: [i] is the index,
    [device_spec_str] is [devices[i]]. *)
Definition index_device (device_index : gmap Z nat) (entry : nat * string)
    : M (gmap Z nat) :=
  let '(i, device_spec_str) := entry in
  let device_spec := StrSplit device_spec_str ":" in
  let* _ := XLA_CHECK_EQ (length device_spec) 2
                         ("Invalid device specification: " +:+ device_spec_str) in
  let* spec1 := deref (device_spec !! 1%nat) in
  let* global_ordinal := stoi spec1 in
  ret (<[global_ordinal := i]> device_index).

(** [build_index_map]: from the global ordinal of a device to its index in
    [devices]. *)
Definition build_index_map (devs : list string) : M (gmap Z nat) :=
  for_each_acc (zip (seq 0 (length devs)) devs) ∅ index_device.

(** * The custom sharding node (torch_xla/csrc/ops/custom_sharding.cpp) *)

Module CustomShardingOp.

(** [CustomSharding::Type]. *)
Inductive Type_ : Type :=
| kCustomSharding
| kSPMDFullToShardShape
| kSPMDShardToFullShape.

Definition TypeToString (type : Type_) : string :=
  match type with
  | kCustomSharding => "Sharding"
  | kSPMDFullToShardShape => "SPMDFullToShardShape"
  | kSPMDShardToFullShape => "SPMDShardToFullShape"
  end.

(** [torch::lazy::Value]: an output of a node. *)
Record Value : Type := MakeValue {
  value_node : positive;
  value_index : nat
}.

(** The [XlaNode] part of a [CustomSharding] node and its [type]. *)
Record CustomSharding : Type := MakeCustomSharding {
  node_op : string;
  node_operands : list Value;
  node_shape : Shape;
  node_num_outputs : nat;
  node_hash_seed : Z;
  type : Type_
}.

Section Node.

(** The operation kind [xla_custom_sharding], [GetXlaShape], [MHash] on
    the integer value of a type, and [XlaNode::ToString] are defined
    outside the file. *)
Variable xla_custom_sharding : string.
Variable GetXlaShape : Value -> Shape.
Variable MHash : Type_ -> Z.
Variable XlaNode_ToString : CustomSharding -> string.

Definition CustomSharding_new (input : Value) (type : Type_) : CustomSharding :=
  MakeCustomSharding xla_custom_sharding [input] (GetXlaShape input) 1
                     (MHash type) type.

(** [Clone]: [operands.at(0)] throws for an empty list of operands. *)
Definition Clone (node : CustomSharding) (operands : list Value)
    : outcome CustomSharding :=
  match operands with
  | operand0 :: _ => Returned (CustomSharding_new operand0 (type node))
  | [] => Fatal "vector::at"
  end.

Definition ToString (node : CustomSharding) : string :=
  XlaNode_ToString node +:+ ", " +:+ TypeToString (type node).

End Node.

End CustomShardingOp.

(** * A concrete runtime

    A small runtime with two devices whose driver ids are sparse and
    enumerated out of order, used to run the definitions above. *)

Module Sample.

Definition tpu (i : Z) : PjRtDevice := MakeDevice i "tpu" 0.

Definition two_devices : list PjRtDevice := [tpu 7; tpu 3].

Definition f32 (dims : list Z) : Shape := MakeShape F32 dims.

(** An executable that returns one array spread over the two devices and
    reports one output sharding. *)
Definition run (args : list (option Array)) : list (option Array) :=
  [Some (MakeArray F32 [2] two_devices
           (concat (omap (fmap array_contents) args)))].

Definition an_executable (prog : XlaComputation) : LoadedExecutable :=
  MakeLoadedExecutable
    (fun args _ => OkValue (MakeExecuteResult OkStatus (run args)))
    (Some [REPLICATED])
    (OkValue [prog]).

(** An executable that does not report its output shardings. *)
Definition a_silent_executable (prog : XlaComputation) : LoadedExecutable :=
  MakeLoadedExecutable
    (fun args _ => OkValue (MakeExecuteResult OkStatus (run args)))
    None
    (OkValue [prog]).

(** An executable that reports two shardings for its single output. *)
Definition a_miscounting_executable (prog : XlaComputation) : LoadedExecutable :=
  MakeLoadedExecutable
    (fun args _ => OkValue (MakeExecuteResult OkStatus (run args)))
    (Some [REPLICATED; REPLICATED])
    (OkValue [prog]).

Definition make_array (t : TensorSource) (d : PjRtDevice) : StatusOr Array :=
  OkValue (MakeArray (element_type (ts_shape t)) (dimensions (ts_shape t)) [d]
                     (ts_data t)).

(** An assembler that takes the shards it is given, whatever their
    number. *)
Definition assemble (sh : list Z) (s : ConcreteSharding)
    (arrays : list (option Array)) : StatusOr Array :=
  OkValue (MakeArray F32 sh (cs_devices s)
                     (concat (omap (fmap array_contents) arrays))).

(** An assembler that, like the PjRt one, rejects a number of shards that
    differs from the number of devices of the sharding. *)
Definition strict_assemble (sh : list Z) (s : ConcreteSharding)
    (arrays : list (option Array)) : StatusOr Array :=
  if bool_decide (length (cs_devices s) = length arrays)
  then assemble sh s arrays
  else NotOk "Number of output shards must match the number of single-shard arrays".

Definition disassemble (a : Array) : StatusOr (list Array) :=
  OkValue ((fun d => MakeArray (array_dtype a) (array_shape a) [d] (array_contents a))
             <$> array_devices a).

Definition replicated_shard (a : Array) : StatusOr Array :=
  OkValue (MakeArray (array_dtype a) (array_shape a) (take 1 (array_devices a))
                     (array_contents a)).

(** A host copy that fails for arrays whose first element is negative and
    succeeds for all others. *)
Definition copy_to_host (a : Array) (strides : list Z) : StatusOr (list Z) :=
  match array_contents a with
  | x :: _ => if bool_decide (x < 0) then NotOk "copy to host failed"
              else OkValue (array_contents a)
  | [] => OkValue []
  end.

Definition a_client : IfrtClient :=
  MakeIfrtClient two_devices two_devices 0 make_array assemble disassemble
                 replicated_shard copy_to_host
                 (fun prog _ => OkValue (an_executable prog)).

Definition a_strict_client : IfrtClient :=
  MakeIfrtClient two_devices two_devices 0 make_array strict_assemble disassemble
                 replicated_shard copy_to_host
                 (fun prog _ => OkValue (an_executable prog)).

Definition no_metrics : Metrics := MakeMetrics ∅ ∅.

Definition a_base : ComputationClient :=
  MakeComputationClient (fun dev devs => if devs is [] then [dev] else devs) true.

(** The client object right after construction. *)
Definition started (c : IfrtClient) : IfrtComputationClient :=
  match IfrtComputationClient_new c no_metrics a_base with
  | Returned (_, st) => st
  | _ => MakeClient None None ∅ ∅ None [] no_metrics a_base
  end.

End Sample.

(** * Vocabulary of the properties *)

(** The ordinals the constructor's loop assigns to the devices [l], taken
    in order, starting from the map [m]. *)
Definition ordinals_from (l : list PjRtDevice) (m : gmap Z nat) : gmap Z nat :=
  foldl (fun m d => <[device_id d := size m]> m) m l.

(** In a teardown order, [a] is torn down strictly before [b]. *)
Definition torn_down_before (a b : Resource) (order : list Resource) : Prop :=
  exists i j : nat, order !! i = Some a /\ order !! j = Some b /\ (i < j)%nat.

(** The calls a process can make on the coordinator members. *)
Inductive CoordinatorCall : Type :=
| CallInitializeCoordinator (rank size : Z) (addr prt : string)
| CallGetCoordinator
| CallCoordinatorInitialized.

Definition run_call (call : CoordinatorCall) : M unit :=
  match call with
  | CallInitializeCoordinator rank size addr prt =>
      InitializeCoordinator rank size addr prt
  | CallGetCoordinator => let* _ := GetCoordinator in ret tt
  | CallCoordinatorInitialized => let* _ := CoordinatorInitialized in ret tt
  end.

Definition is_initialize (call : CoordinatorCall) : bool :=
  match call with CallInitializeCoordinator _ _ _ _ => true | _ => false end.

(** The number of [InitializeCoordinator] calls that return while a process
    makes the calls [calls] in order; a call that does not return ends the
    process. *)
Fixpoint initializations (calls : list CoordinatorCall) (st : IfrtComputationClient)
    : nat :=
  match calls with
  | [] => 0
  | call :: rest =>
      match run_call call st with
      | Returned (_, st') =>
          ((if is_initialize call then 1 else 0) + initializations rest st')%nat
      | _ => 0%nat
      end
  end.

(** The string of device [d] when its global ordinal is [ordinal]. *)
Definition device_string (d : PjRtDevice) (ordinal : nat) : string :=
  AsciiStrToUpper (device_platform_name d) +:+ ":" +:+ pretty ordinal.

(** The two lookup tables after the constructor's loop has run over the
    devices [l], starting from the tables [tables]. *)
Definition registry_from (l : list PjRtDevice)
    (tables : gmap Z nat * gmap string PjRtDevice)
    : gmap Z nat * gmap string PjRtDevice :=
  foldl (fun tables d =>
           (<[device_id d := size (fst tables)]> (fst tables),
            emplace (device_string d (size (fst tables))) d (snd tables)))
        tables l.

(** The number of ids in [ids] that are smaller than [i]. *)
Definition rank (i : Z) (ids : list Z) : nat :=
  length (filter (fun j => j < i) ids).

(** The body of the loop of [TransferToServer], by name; [acc] holds
    [datas] and [total_size]. *)
Definition transfer_one (acc : list IfrtData * Z) (tensor : TensorSource)
    : M (list IfrtData * Z) :=
  let '(datas, total_size) := acc in
  let* pjrt_device := StringToPjRtDevice (ts_device tensor) in
  let total_size := wrap_int64 (total_size + ByteSizeOf (ts_shape tensor)) in
  let* c := the_client in
  let* buf := value (MakeArrayFromHostBuffer c tensor pjrt_device) in
  let data :=
    IfrtData_with_shape (ts_device tensor) (ts_shape tensor) (Some buf) None in
  ret (datas ++ [data], total_size).

(** The handle [TransferToServer] makes for one tensor in the state [st],
    when the device of the tensor is registered and the runtime makes the
    array. *)
Definition transferred (st : IfrtComputationClient) (tensor : TensorSource)
    : option IfrtData :=
  match string_to_device_ st !! ts_device tensor, client_ st with
  | Some pjrt_device, Some c =>
      match MakeArrayFromHostBuffer c tensor pjrt_device with
      | OkValue buf =>
          Some (MakeIfrtData (ts_device tensor) (ts_shape tensor) (Some buf) None)
      | NotOk _ => None
      end
  | _, _ => None
  end.

(** The sum of the byte sizes of a list of shapes. *)
Definition total_bytes (shapes : list Shape) : Z :=
  foldr (fun sh acc => ByteSizeOf sh + acc) 0 shapes.

(** The same sum as [TransferToServer] accumulates it in its [int64_t],
    on top of [acc]. *)
Definition total_size_from (acc : Z) (shapes : list Shape) : Z :=
  foldl (fun acc sh => wrap_int64 (acc + ByteSizeOf sh)) acc shapes.

(** The number of colons in a string. *)
Fixpoint count_colons (s : string) : nat :=
  match s with
  | EmptyString => 0
  | String c rest => ((if Ascii.eqb c ":" then 1 else 0) + count_colons rest)%nat
  end.

(** Every character of the string is a decimal digit. *)
Fixpoint all_digits (s : string) : bool :=
  match s with
  | EmptyString => true
  | String c rest =>
      match digit_of c with Some _ => all_digits rest | None => false end
  end.

(** The map [build_index_map] builds from the ordinals [ks], the first of
    them at index [j], on top of [m]. *)
Definition index_from (j : nat) (ks : list nat) (m : gmap Z nat) : gmap Z nat :=
  foldl (fun m ik => <[Z.of_nat (snd ik) := fst ik]> m) m (zip (seq j (length ks)) ks).

(** The runtime's assembler rejects a number of single-device arrays that
    differs from the number of devices of the sharding they are assembled
    under, as the assembler of [xla::ifrt::PjRtClient], the client the
    constructor creates, does. *)
Definition assembler_checks_count (c : IfrtClient) : Prop :=
  forall shape sharding arrays,
    length arrays <> length (cs_devices sharding) ->
    exists msg,
      AssembleArrayFromSingleDeviceArrays c shape sharding arrays = NotOk msg.

(** [st'] is [st] up to the metrics. *)
Definition metrics_only (st st' : IfrtComputationClient) : Prop :=
  st' = set_metrics (metrics st') st.

(** A computation that never ends by handing a status to its caller. *)
Definition no_propagation {A} (m : M A) : Prop :=
  forall st, is_propagated (m st) = false.

(** * Properties *)

(** ** The monad *)

Lemma bind_Returned {A B} (m : M A) (k : A -> M B) st a st' :
  m st = Returned (a, st') -> bind m k st = k a st'.
Proof. unfold bind. by intros ->. Qed.

Lemma bind_Fatal {A B} (m : M A) (k : A -> M B) st msg :
  m st = Fatal msg -> bind m k st = Fatal msg.
Proof. unfold bind. by intros ->. Qed.

Lemma bind_inv {A B} (m : M A) (k : A -> M B) st b st' :
  bind m k st = Returned (b, st') ->
  exists a st1, m st = Returned (a, st1) /\ k a st1 = Returned (b, st').
Proof.
  unfold bind. destruct (m st) as [[a st1]| | |]; try discriminate.
  intros H. by exists a, st1.
Qed.

Lemma for_each_acc_app {A S} (l1 l2 : list A) (acc : S) (body : S -> A -> M S) st :
  for_each_acc (l1 ++ l2) acc body st =
  bind (for_each_acc l1 acc body) (fun acc' => for_each_acc l2 acc' body) st.
Proof.
  revert acc st. induction l1 as [|x l1 IH]; intros acc st; [reflexivity|].
  cbn [app for_each_acc]. unfold bind.
  destruct (body acc x st) as [[acc' st1]| | |]; [|reflexivity..].
  apply IH.
Qed.

(** ** The device registry *)

Lemma PjRtDeviceToString_state d st s st' :
  PjRtDeviceToString d st = Returned (s, st') -> st' = st.
Proof.
  unfold PjRtDeviceToString, bind, get, ret, fatal.
  destruct (global_ordinals_ st !! device_id d); [|done]. by intros [= _ ->].
Qed.

Lemma PjRtDevicesToString_state ds st l st' :
  PjRtDevicesToString ds st = Returned (l, st') -> st' = st.
Proof.
  unfold PjRtDevicesToString. revert l st'.
  induction ds as [|d ds IH]; intros l st'; cbn [for_each_push].
  - unfold ret. by intros [= _ ->].
  - intros H. apply bind_inv in H as (s & st1 & Hd & H).
    apply PjRtDeviceToString_state in Hd as ->.
    apply bind_inv in H as (ss & st2 & Hds & H).
    apply IH in Hds as ->. unfold ret in H. by injection H as _ ->.
Qed.

Lemma GetLocalDevices_state st l st' :
  GetLocalDevices st = Returned (l, st') -> st' = st.
Proof.
  unfold GetLocalDevices. intros H. apply bind_inv in H as (c & st1 & Hc & H).
  unfold the_client in Hc. destruct (client_ st); [|done].
  injection Hc as _ <-. by apply PjRtDevicesToString_state in H.
Qed.

Lemma register_device_spec d st :
  exists st',
    register_device d st = Returned (tt, st') /\
    global_ordinals_ st' =
      <[device_id d := size (global_ordinals_ st)]> (global_ordinals_ st) /\
    client_ st' = client_ st.
Proof.
  unfold register_device, bind, get, modify, PjRtDeviceToString, ret, fatal.
  cbn. rewrite lookup_insert_eq. eexists. split; [reflexivity|]. done.
Qed.

Lemma register_all_spec l st :
  exists st',
    for_each l register_device st = Returned (tt, st') /\
    global_ordinals_ st' = ordinals_from l (global_ordinals_ st) /\
    client_ st' = client_ st.
Proof.
  revert st. induction l as [|d l IH]; intros st; cbn [for_each].
  - exists st. done.
  - destruct (register_device_spec d st) as (st1 & Hd & Hord & Hc).
    destruct (IH st1) as (st2 & Hl & Hord2 & Hc2).
    exists st2. rewrite (bind_Returned _ _ _ _ _ Hd). split; [done|].
    split; [|congruence]. rewrite Hord2, Hord. done.
Qed.

(** What the constructor leaves in [client_] and [global_ordinals_]. *)
Lemma constructor_spec c m b st :
  IfrtComputationClient_new c m b = Returned (tt, st) ->
  client_ st = Some c /\
  global_ordinals_ st = ordinals_from (sort_by_id (devices c)) ∅.
Proof.
  unfold IfrtComputationClient_new. intros H.
  apply bind_inv in H as ([] & st1 & Hreg & H).
  destruct (register_all_spec (sort_by_id (devices c))
              (MakeClient (Some c) None ∅ ∅ None [] m b))
    as (st1' & Hreg' & Hord & Hc).
  rewrite Hreg in Hreg'. injection Hreg' as <-.
  apply bind_inv in H as (tracked & st2 & Hloc & H).
  apply GetLocalDevices_state in Hloc as ->.
  unfold modify in H. injection H as <-. cbn. done.
Qed.

Lemma insert_by_id_Permutation d l : insert_by_id d l ≡ₚ d :: l.
Proof.
  induction l as [|x l IH]; cbn [insert_by_id]; [done|].
  case_bool_decide; [done|]. rewrite IH. apply Permutation_swap.
Qed.

Lemma sort_by_id_Permutation l : sort_by_id l ≡ₚ l.
Proof.
  unfold sort_by_id. induction l as [|x l IH]; cbn [foldr]; [done|].
  rewrite insert_by_id_Permutation. by rewrite IH.
Qed.

Lemma ordinals_from_spec l (m : gmap Z nat) :
  NoDup (device_id <$> l) ->
  (forall d, d ∈ l -> m !! device_id d = None) ->
  size (ordinals_from l m) = (size m + length l)%nat /\
  forall i g,
    ordinals_from l m !! i = Some g <->
    m !! i = Some g \/
    exists k : nat, (device_id <$> l) !! k = Some i /\ g = (size m + k)%nat.
Proof.
  revert m. induction l as [|d l IH]; intros m Hnd Hfresh.
  - cbn. split; [lia|]. intros i g. split; [by left|].
    intros [H|(k & Hk & _)]; [done|]. by rewrite lookup_nil in Hk.
  - rewrite fmap_cons in Hnd. apply NoDup_cons in Hnd as [Hd Hnd].
    assert (Hmd : m !! device_id d = None) by (apply Hfresh; left).
    cbn [ordinals_from foldl].
    change (foldl _ ?m0 l) with (ordinals_from l m0).
    destruct (IH (<[device_id d := size m]> m) Hnd) as [Hsize Hlook].
    { intros d' Hd'. rewrite lookup_insert_ne.
      - apply Hfresh. by right.
      - intros Heq. apply Hd. rewrite Heq. apply list_elem_of_fmap. by exists d'. }
    rewrite map_size_insert_None in Hsize by done.
    rewrite map_size_insert_None in Hlook by done.
    split; [cbn [length]; lia|].
    intros i g. rewrite Hlook. split.
    + intros [H|(k & Hk & ->)].
      * destruct (decide (device_id d = i)) as [<-|Hne].
        -- rewrite lookup_insert_eq in H. injection H as <-.
           right. exists 0%nat. split; [done|lia].
        -- rewrite lookup_insert_ne in H by done. by left.
      * right. exists (S k). split; [done|lia].
    + intros [H|(k & Hk & ->)].
      * left. rewrite lookup_insert_ne; [done|]. congruence.
      * destruct k as [|k]; cbn in Hk.
        -- injection Hk as <-. left. rewrite lookup_insert_eq. f_equal. lia.
        -- right. exists k. split; [done|lia].
Qed.

(** With distinct driver ids, the ordinal of an id is its position among
    the ids taken in the constructor's order. *)
Lemma ordinals_from_empty l i g :
  NoDup (device_id <$> l) ->
  ordinals_from l ∅ !! i = Some g <-> (device_id <$> l) !! g = Some i.
Proof.
  intros Hnd.
  destruct (ordinals_from_spec l ∅ Hnd) as [_ H]; [by intros; apply lookup_empty|].
  rewrite H, map_size_empty. split.
  - intros [Hem|(k & Hk & ->)]; [by rewrite lookup_empty in Hem|done].
  - intros Hg. right. by exists g.
Qed.

(** The row the sharded branch of [Compile] fills. *)
Lemma sharded_assignment_spec (n : nat) (m : gmap Z nat) :
  (forall i g, m !! i = Some g -> (g < n)%nat) ->
  (forall i j g, m !! i = Some g -> m !! j = Some g -> i = j) ->
  let da := map_fold (fun device_id global_ordinal da =>
                        DeviceAssignment_set da 0 global_ordinal device_id)
                     (DeviceAssignment_new 1 n) m in
  replica_count da = 1%nat /\ computation_count da = n /\
  exists row, da_rows da = [row] /\ length row = n /\
    forall i g, m !! i = Some g -> row !! g = Some i.
Proof.
  intros Hlt Hinj da. subst da. revert Hlt Hinj.
  apply (map_fold_weak_ind (fun da m =>
    (forall i g, m !! i = Some g -> (g < n)%nat) ->
    (forall i j g, m !! i = Some g -> m !! j = Some g -> i = j) ->
    replica_count da = 1%nat /\ computation_count da = n /\
    exists row, da_rows da = [row] /\ length row = n /\
      forall i g, m !! i = Some g -> row !! g = Some i)).
  - intros _ _. cbn. split; [done|]. split; [done|].
    exists (replicate n (-1)). split; [done|]. split; [apply length_replicate|].
    intros i g H. by rewrite lookup_empty in H.
  - intros i x m' da Hi IH Hlt Hinj.
    destruct IH as (Hr & Hc & row & Hrows & Hlen & Hrow).
    { intros j g Hj. apply (Hlt j). rewrite lookup_insert_ne; [done|]. congruence. }
    { intros j1 j2 g H1 H2. apply (Hinj j1 j2 g); rewrite lookup_insert_ne; congruence. }
    cbn. split; [done|]. split; [done|].
    exists (<[x := i]> row). rewrite Hrows. split; [done|].
    split; [by rewrite length_insert|].
    intros j g Hj. destruct (decide (i = j)) as [<-|Hne].
    + rewrite lookup_insert_eq in Hj. injection Hj as <-.
      apply list_lookup_insert_eq. rewrite Hlen. apply (Hlt i).
      by rewrite lookup_insert_eq.
    + rewrite lookup_insert_ne in Hj by done.
      rewrite list_lookup_insert_ne; [by apply Hrow|].
      intros ->. apply Hne. apply (Hinj i j g).
      * by rewrite lookup_insert_eq.
      * by rewrite lookup_insert_ne.
Qed.

Lemma value_inv {A} (s : StatusOr A) st a st' :
  value s st = Returned (a, st') -> s = OkValue a /\ st' = st.
Proof. destruct s; cbn; [|done]. unfold ret. by intros [= -> ->]. Qed.

Lemma deref_inv {A} (p : option A) st a st' :
  deref p st = Returned (a, st') -> p = Some a /\ st' = st.
Proof. destruct p; cbn; [|done]. unfold ret. by intros [= -> ->]. Qed.

Lemma the_client_inv st c st' :
  the_client st = Returned (c, st') -> client_ st = Some c /\ st' = st.
Proof. unfold the_client. destruct (client_ st); [|done]. by intros [= -> ->]. Qed.

Lemma XLA_CHECK_inv c msg st u st' :
  XLA_CHECK c msg st = Returned (u, st') -> c = true /\ st' = st.
Proof. destruct c; cbn; [|done]. unfold ret. by intros [= _ ->]. Qed.

(** The executable of a computation [Compile] returns for a single
    instance comes from the compiler, called on the program of the
    instance and the options built for it. *)
Lemma Compile_single_inv instance st comps st' :
  Compile [instance] st = Returned (comps, st') ->
  exists c options comp,
    client_ st = Some c /\
    build_compile_options instance st = Returned (options, st) /\
    comps = [comp] /\
    compiler_Compile c (instance_computation instance) options
      = OkValue (executable comp).
Proof.
  unfold Compile. cbn [for_each_push]. intros H.
  apply bind_inv in H as (comp & st1 & Hci & H).
  cbn in H. injection H as <- <-.
  unfold compile_instance in Hci.
  apply bind_inv in Hci as (options & st2 & Hopt & Hci).
  assert (st2 = st) as ->.
  { unfold build_compile_options in Hopt.
    apply bind_inv in Hopt as (c & st3 & Hc & Hopt).
    apply the_client_inv in Hc as [_ ->].
    apply bind_inv in Hopt as (st4 & st5 & Hget & Hopt).
    injection Hget as <- <-.
    destruct (is_sharded instance); by injection Hopt as _ <-. }
  apply bind_inv in Hci as (c & st3 & Hc & Hci).
  apply the_client_inv in Hc as [Hc ->].
  apply bind_inv in Hci as (exe & st4 & Hexe & Hci).
  apply value_inv in Hexe as [Hexe ->].
  apply bind_inv in Hci as ([] & st5 & _ & Hci).
  apply bind_inv in Hci as (mods & st6 & _ & Hci).
  apply bind_inv in Hci as (hm & st7 & _ & Hci).
  apply bind_inv in Hci as ([] & st8 & _ & Hci).
  injection Hci as <- _.
  exists c, options, (MakeIfrtComputation hm (instance_devices instance) exe).
  done.
Qed.

(** C6. A sharded compile instance on a client with N devices (with
    distinct driver ids) is compiled with partition count N, replica count
    1 and a device assignment of one row and N columns whose entry at
    column g is the driver id of the device with global ordinal g; these
    are the options [Compile] hands to the compiler. *)
Theorem C6_sharded_compile_options c m b st0 st instance :
  NoDup (device_id <$> devices c) ->
  IfrtComputationClient_new c m b = Returned (tt, st0) ->
  client_ st = client_ st0 ->
  global_ordinals_ st = global_ordinals_ st0 ->
  is_sharded instance = true ->
  exists options da row,
    build_compile_options instance st = Returned (options, st) /\
    (forall comps st',
       Compile [instance] st = Returned (comps, st') ->
       exists comp, comps = [comp] /\
         compiler_Compile c (instance_computation instance) options
           = OkValue (executable comp)) /\
    num_partitions options = device_count c /\
    num_replicas options = 1%nat /\
    device_assignment options = Some da /\
    replica_count da = 1%nat /\
    computation_count da = device_count c /\
    da_rows da = [row] /\
    length row = device_count c /\
    forall g : nat, (g < device_count c)%nat ->
      exists d, d ∈ devices c /\
        global_ordinals_ st !! device_id d = Some g /\
        DeviceAssignment_get da 0 g = Some (device_id d).
Proof.
  intros Hnd Hnew Hc Hord Hsh.
  apply constructor_spec in Hnew as [Hc0 Hord0].
  rewrite Hc0 in Hc. rewrite Hord0 in Hord.
  pose proof (sort_by_id_Permutation (devices c)) as Hperm.
  assert (Hnd' : NoDup (device_id <$> sort_by_id (devices c))) by by rewrite Hperm.
  assert (Hlen : length (sort_by_id (devices c)) = device_count c)
    by (unfold device_count; by rewrite Hperm).
  assert (Hlook : forall i g, global_ordinals_ st !! i = Some g <->
                    (device_id <$> sort_by_id (devices c)) !! g = Some i).
  { intros i g. rewrite Hord. by apply ordinals_from_empty. }
  destruct (sharded_assignment_spec (device_count c) (global_ordinals_ st))
    as (Hr & Hcc & row & Hrows & Hrlen & Hrow).
  { intros i g Hg. apply Hlook in Hg. apply lookup_lt_Some in Hg.
    by rewrite length_fmap, Hlen in Hg. }
  { intros i j g Hi Hj. apply Hlook in Hi, Hj. congruence. }
  assert (Hopt : build_compile_options instance st =
    Returned (MakeCompileOptions true
        [instance_allow_spmd_sharding_propagation_to_output instance]
        (device_count c) 1 (instance_parameter_is_tupled_arguments instance)
        (Some (map_fold (fun device_id global_ordinal da =>
                           DeviceAssignment_set da 0 global_ordinal device_id)
                        (DeviceAssignment_new 1 (device_count c))
                        (global_ordinals_ st))), st)).
  { unfold build_compile_options, bind, the_client, get. rewrite Hc, Hsh. done. }
  eexists _, _, row. split; [exact Hopt|].
  split.
  { intros comps st' Hcomp.
    apply Compile_single_inv in Hcomp as (c' & options' & comp & Hc' & Hopt' & -> & Hexe).
    rewrite Hc in Hc'. injection Hc' as <-.
    rewrite Hopt in Hopt'. injection Hopt' as <-.
    by exists comp. }
  cbn [num_partitions num_replicas device_assignment].
  do 7 (split; [done|]).
  intros g Hg.
  destruct (lookup_lt_is_Some_2 (device_id <$> sort_by_id (devices c)) g)
    as [i Hi]; [by rewrite length_fmap, Hlen|].
  pose proof Hi as Hi'. apply list_lookup_fmap_Some in Hi' as (d & -> & Hd).
  exists d. split.
  { rewrite <- Hperm. by eapply list_elem_of_lookup_2. }
  apply Hlook in Hi. split; [done|].
  unfold DeviceAssignment_get. rewrite Hrows. cbn. by apply Hrow.
Qed.

(** The sample client has two devices with ids 7 and 3: a sharded instance
    gets the assignment row [3; 7]. *)
Lemma C6_witness :
  let instance :=
    MakeCompileInstance (replicate_computation (Sample.f32 [2]) REPLICATED)
                        "TPU:0" ["TPU:0"] None false true false in
  exists options da row,
    build_compile_options instance (Sample.started Sample.a_client)
      = Returned (options, Sample.started Sample.a_client) /\
    num_partitions options = 2%nat /\
    num_replicas options = 1%nat /\
    device_assignment options = Some da /\
    da_rows da = [row] /\
    row = [3; 7].
Proof.
  intros instance.
  destruct (C6_sharded_compile_options Sample.a_client Sample.no_metrics
              Sample.a_base (Sample.started Sample.a_client)
              (Sample.started Sample.a_client) instance)
    as (options & da & row & Hopt & _ & Hp & Hr & Hda & _ & _ & Hrows & _ & _).
  - compute_done.
  - reflexivity.
  - reflexivity.
  - reflexivity.
  - reflexivity.
  - exists options, da, row.
    vm_compute in Hopt. injection Hopt as <-.
    injection Hda as <-. injection Hrows as <-.
    repeat split; reflexivity.
Defined.

(** ** Teardown *)

(** In the order [a; b], [b] does not come before [a]. *)
Lemma torn_down_before_two a b :
  a <> b -> ~ torn_down_before b a [a; b].
Proof.
  intros Hab (i & j & Hi & Hj & Hlt).
  destruct i as [|[|i]]; destruct j as [|[|j]]; simplify_eq/=; lia.
Qed.

(** C1, as amended.  When the client object is destroyed while it holds
    both a device client and a coordinator, the device-client handle is
    released first and the coordinator second; no teardown order of the
    destructor has the coordinator before the device client, and both
    members are null afterwards. *)
Theorem C1_client_released_before_coordinator st c k :
  client_ st = Some c ->
  coordinator_ st = Some k ->
  fst (IfrtComputationClient_delete st) = [TheDeviceClient; TheCoordinator] /\
  torn_down_before TheDeviceClient TheCoordinator
    (fst (IfrtComputationClient_delete st)) /\
  ~ torn_down_before TheCoordinator TheDeviceClient
      (fst (IfrtComputationClient_delete st)) /\
  client_ (snd (IfrtComputationClient_delete st)) = None /\
  coordinator_ (snd (IfrtComputationClient_delete st)) = None.
Proof.
  intros Hc Hk.
  assert (Horder : fst (IfrtComputationClient_delete st)
                   = [TheDeviceClient; TheCoordinator]).
  { unfold IfrtComputationClient_delete, reset_client_, reset_coordinator_.
    cbn. by rewrite Hc, Hk. }
  rewrite Horder. split; [done|]. split.
  { exists 0%nat, 1%nat. repeat split; [done..|lia]. }
  split; [by apply torn_down_before_two|].
  done.
Qed.

(** The sample client with an initialized coordinator, at shutdown. *)
Lemma C1_witness :
  let st := set_coordinator_ (Some (XlaCoordinator_new 0 1 "localhost" "8547"))
                             (Sample.started Sample.a_client) in
  fst (IfrtComputationClient_delete st) = [TheDeviceClient; TheCoordinator].
Proof.
  intros st.
  exact (proj1 (C1_client_released_before_coordinator st Sample.a_client
                  (XlaCoordinator_new 0 1 "localhost" "8547")
                  eq_refl eq_refl)).
Defined.

(** C1, as stated, fails: at the shutdown of the sample client with an
    initialized coordinator, the coordinator is not torn down before the
    device client. *)
Lemma C1_counterexample :
  let st := set_coordinator_ (Some (XlaCoordinator_new 0 1 "localhost" "8547"))
                             (Sample.started Sample.a_client) in
  is_null (client_ st) = false /\
  is_null (coordinator_ st) = false /\
  ~ torn_down_before TheCoordinator TheDeviceClient
      (fst (IfrtComputationClient_delete st)).
Proof.
  intros st. split; [reflexivity|]. split; [reflexivity|].
  change (fst (IfrtComputationClient_delete st))
    with [TheDeviceClient; TheCoordinator].
  by apply torn_down_before_two.
Qed.

(** ** The distributed coordinator *)

Lemma InitializeCoordinator_initialized st rank size addr prt :
  is_null (coordinator_ st) = false ->
  InitializeCoordinator rank size addr prt st
    = Fatal "Can only initialize the XlaCoordinator once.".
Proof.
  intros H. unfold InitializeCoordinator, bind, get. by rewrite H.
Qed.

Lemma InitializeCoordinator_inv st rank size addr prt u st' :
  InitializeCoordinator rank size addr prt st = Returned (u, st') ->
  is_null (coordinator_ st) = true /\
  coordinator_ st' = Some (XlaCoordinator_new rank size addr prt).
Proof.
  unfold InitializeCoordinator, bind, get.
  destruct (is_null (coordinator_ st)); cbn; [|done].
  unfold modify. by intros [= _ <-].
Qed.

Lemma run_call_initialized call st u st' :
  is_null (coordinator_ st) = false ->
  run_call call st = Returned (u, st') ->
  is_initialize call = false /\ is_null (coordinator_ st') = false.
Proof.
  intros Hst. destruct call as [rank size addr prt| |]; cbn [run_call].
  - by rewrite InitializeCoordinator_initialized.
  - unfold GetCoordinator, bind, get. rewrite Hst. cbn.
    destruct (coordinator_ st) eqn:Hk; [|done]. cbn. intros [= _ <-].
    by rewrite Hk.
  - unfold CoordinatorInitialized, bind, get, ret. by intros [= _ <-].
Qed.

Lemma initializations_initialized calls st :
  is_null (coordinator_ st) = false -> initializations calls st = 0%nat.
Proof.
  revert st. induction calls as [|call calls IH]; intros st Hst; [done|].
  cbn [initializations].
  destruct (run_call call st) as [[u st']| | |] eqn:Hcall; [|done..].
  apply run_call_initialized in Hcall as [-> Hst']; [|done].
  by rewrite IH.
Qed.

Lemma run_call_uninitialized call st u st' :
  is_null (coordinator_ st) = true ->
  run_call call st = Returned (u, st') ->
  (is_initialize call = true /\ is_null (coordinator_ st') = false) \/
  (is_initialize call = false /\ is_null (coordinator_ st') = true).
Proof.
  intros Hst. destruct call as [rank size addr prt| |]; cbn [run_call].
  - intros H. apply InitializeCoordinator_inv in H as [_ H]. left.
    by rewrite H.
  - unfold GetCoordinator, bind, get. by rewrite Hst.
  - unfold CoordinatorInitialized, bind, get, ret. intros [= _ <-]. by right.
Qed.

(** C8. Whatever calls a process makes on the coordinator members, at
    most one [InitializeCoordinator] returns; a call that returns finds
    the coordinator uninitialized and leaves it initialized; on an
    initialized coordinator every [InitializeCoordinator] fails the check
    "can only initialize once"; and [GetCoordinator] on an uninitialized
    coordinator fails its check. *)
Theorem C8_coordinator_initialized_once :
  (forall calls st, (initializations calls st <= 1)%nat) /\
  (forall st rank size addr prt u st',
     InitializeCoordinator rank size addr prt st = Returned (u, st') ->
     is_null (coordinator_ st) = true /\
     is_null (coordinator_ st') = false /\
     forall rank' size' addr' prt',
       InitializeCoordinator rank' size' addr' prt' st'
         = Fatal "Can only initialize the XlaCoordinator once.") /\
  (forall st,
     is_null (coordinator_ st) = true ->
     GetCoordinator st = Fatal "XlaCoordinator has not been initialized").
Proof.
  split; [|split].
  - intros calls. induction calls as [|call calls IH]; intros st; cbn; [lia|].
    destruct (run_call call st) as [[u st']| | |] eqn:Hcall; [|lia..].
    destruct (is_null (coordinator_ st)) eqn:Hst.
    + apply run_call_uninitialized in Hcall as [[-> Hst']|[-> Hst']]; [| |done].
      * rewrite initializations_initialized by done. lia.
      * specialize (IH st'). lia.
    + apply run_call_initialized in Hcall as [-> Hst']; [|done].
      rewrite initializations_initialized by done. lia.
  - intros st rank size addr prt u st' H.
    apply InitializeCoordinator_inv in H as [Hst Hst'].
    split; [done|]. assert (is_null (coordinator_ st') = false) by by rewrite Hst'.
    split; [done|]. intros. by apply InitializeCoordinator_initialized.
  - intros st Hst. unfold GetCoordinator, bind, get. by rewrite Hst.
Qed.

(** On the sample client: the first initialization returns, the second
    one fails, and [GetCoordinator] fails before the first. *)
Lemma C8_witness :
  let st := Sample.started Sample.a_client in
  (initializations
     [CallGetCoordinator; CallInitializeCoordinator 0 1 "localhost" "8547"] st
   <= 1)%nat /\
  (forall st1,
     InitializeCoordinator 0 1 "localhost" "8547" st = Returned (tt, st1) ->
     InitializeCoordinator 0 1 "localhost" "8547" st1
       = Fatal "Can only initialize the XlaCoordinator once.") /\
  is_returned (InitializeCoordinator 0 1 "localhost" "8547" st) = true /\
  GetCoordinator st = Fatal "XlaCoordinator has not been initialized".
Proof.
  intros st. destruct C8_coordinator_initialized_once as (Honce & Hinit & Hget).
  split; [apply Honce|]. split.
  - intros st1 H. apply (Hinit _ _ _ _ _ _ _ H).
  - split; [reflexivity|]. apply Hget. reflexivity.
Defined.

(** ** Data handles *)

(** C10. For a handle [this] and a source [data] at another address,
    [Assign] returns and replaces only the buffer of [this], by the buffer
    of [data]: the device, shape and sharding of [this] stay, whatever the
    sharding of [data], and every other handle stays as it is.  When
    [data] is [this] itself, nothing changes. *)
Theorem C10_Assign_frame (handles : gmap positive IfrtData) this data self source :
  handles !! this = Some self ->
  handles !! data = Some source ->
  (data <> this ->
   exists handles',
     Assign this data handles = Returned handles' /\
     handles' !! this =
       Some (MakeIfrtData (device self) (shape self) (buffer source) (sharding_ self)) /\
     forall other, other <> this -> handles' !! other = handles !! other) /\
  (data = this -> Assign this data handles = Returned handles).
Proof.
  intros Hthis Hdata. unfold Assign. rewrite Hthis, Hdata. split.
  - intros Hne. rewrite bool_decide_eq_true_2 by done.
    eexists. split; [reflexivity|]. split.
    + by rewrite lookup_insert_eq.
    + intros other Hother. by rewrite lookup_insert_ne.
  - intros ->. by rewrite bool_decide_eq_false_2 by (intros H; by apply H).
Qed.

(** An unsharded handle on "TPU:0" is assigned from a sharded handle on
    "SPMD:0", and from itself. *)
Lemma C10_witness :
  let a1 := MakeArray F32 [2] [Sample.tpu 3] [1; 2] in
  let a2 := MakeArray F32 [4] Sample.two_devices [5; 6; 7; 8] in
  let h := MakeIfrtData "TPU:0" (Sample.f32 [2]) (Some a1) None in
  let d := MakeIfrtData "SPMD:0" (Sample.f32 [4]) (Some a2) (Some (OTHER [2])) in
  let handles : gmap positive IfrtData := {[ 1%positive := h; 2%positive := d ]} in
  (exists handles',
     Assign 1 2 handles = Returned handles' /\
     handles' !! 1%positive
       = Some (MakeIfrtData "TPU:0" (Sample.f32 [2]) (Some a2) None) /\
     handles' !! 2%positive = Some d) /\
  Assign 1 1 handles = Returned handles.
Proof.
  intros a1 a2 h d handles.
  destruct (C10_Assign_frame handles 1 2 h d eq_refl eq_refl) as [Hne _].
  destruct (C10_Assign_frame handles 1 1 h h eq_refl eq_refl) as [_ Heq].
  split.
  - destruct Hne as (handles' & HA & Hthis & Hframe); [done|].
    exists handles'. split; [done|]. split; [done|].
    rewrite Hframe; done.
  - by apply Heq.
Defined.

(** C7. [WrapDataShards] on an empty list of shards returns, without
    touching the client object, a handle with the given device and shape,
    no buffer, and the given sharding, so that [HasSharding] is true. *)
Theorem C7_WrapDataShards_empty dev sh sharding st :
  exists handle,
    WrapDataShards [] dev sh sharding st = Returned (handle, st) /\
    buffer handle = None /\
    HasValue handle = false /\
    HasSharding handle = true /\
    sharding_ handle = Some sharding /\
    device handle = dev /\
    shape handle = sh.
Proof.
  eexists. split; [reflexivity|]. done.
Qed.

(** ** Interface points that are not implemented *)

(** C9. Every call of [ExecuteComputation] and every call of
    [CopyToDevice] ends in the fatal error "not implemented", whatever the
    arguments and the state of the client. *)
Theorem C9_not_implemented :
  (forall comp arguments dev options st,
     ExecuteComputation comp arguments dev options st
       = Fatal "ExecuteComputation not implemented") /\
  (forall data dst st,
     CopyToDevice data dst st = Fatal "CopyToDevice not implemented").
Proof. split; reflexivity. Qed.

(** ** Replication *)

(** C4. For a handle whose buffer spans exactly one device,
    [ReplicateShardedData] returns that buffer and leaves the client
    object and the metrics as they are: no counter changes, so nothing was
    compiled or executed. *)
Theorem C4_ReplicateShardedData_single_device handle buf st :
  buffer handle = Some buf ->
  length (array_devices buf) = 1%nat ->
  ReplicateShardedData handle st = Returned (buf, st) /\
  forall st' a name,
    ReplicateShardedData handle st = Returned (a, st') ->
    buffer handle = Some a /\
    counter name (metrics st') = counter name (metrics st).
Proof.
  intros Hbuf Hone.
  assert (H : ReplicateShardedData handle st = Returned (buf, st)).
  { unfold ReplicateShardedData, bind. rewrite Hbuf. cbn.
    by rewrite bool_decide_eq_true_2. }
  split; [done|]. intros st' a name. rewrite H. by intros [= <- <-].
Qed.

(** A buffer on the single device with id 3: the compile counters read the
    same after the call. *)
Lemma C4_witness :
  let buf := MakeArray F32 [2] [Sample.tpu 3] [1; 2] in
  let handle := MakeIfrtData "TPU:0" (Sample.f32 [2]) (Some buf) None in
  let st := Sample.started Sample.a_client in
  ReplicateShardedData handle st = Returned (buf, st) /\
  forall st' a,
    ReplicateShardedData handle st = Returned (a, st') ->
    counter "StableHloCompile" (metrics st') = counter "StableHloCompile" (metrics st) /\
    counter "CreateCompileHandles" (metrics st')
      = counter "CreateCompileHandles" (metrics st).
Proof.
  intros buf handle st.
  destruct (C4_ReplicateShardedData_single_device handle buf st eq_refl eq_refl)
    as [Hret Hcount].
  split; [exact Hret|]. intros st' a H.
  split; [exact (proj2 (Hcount st' a _ H))|exact (proj2 (Hcount st' a _ H))].
Defined.

(** ** Execution *)

(** The loop of [ExecuteReplicated] that wraps the results. *)
Lemma tag_outputs_inv (l : list (option Array * OpSharding)) handles st st' :
  for_each_push l (fun ro =>
    lift (IfrtData_from_buffer "SPMD:0" (fst ro) (Some (snd ro)))) st
    = Returned (handles, st') ->
  st' = st /\
  length handles = length l /\
  forall (i : nat) handle, handles !! i = Some handle ->
    exists a s,
      l !! i = Some (Some a, s) /\
      handle = MakeIfrtData "SPMD:0" (MakeShape (array_dtype a) (array_shape a))
                            (Some a) (Some s).
Proof.
  revert handles st'. induction l as [|[r s] l IH]; intros handles st' H.
  - cbn in H. injection H as <- <-. split; [done|]. split; [done|].
    intros i h Hi. by rewrite lookup_nil in Hi.
  - cbn [for_each_push] in H.
    apply bind_inv in H as (h0 & st1 & Hh0 & H).
    apply bind_inv in H as (hs & st2 & Hhs & H).
    injection H as <- <-.
    destruct r as [a|]; cbn in Hh0; [|done]. injection Hh0 as <- <-.
    apply IH in Hhs as (-> & Hlen & Hall).
    split; [done|]. split; [cbn; by rewrite Hlen|].
    intros [|i] h Hi; cbn in Hi.
    + injection Hi as <-. by exists a, s.
    + by apply Hall.
Qed.

(** C5. When [ExecuteReplicated] returns, the executable ran, it reported
    one sharding per output, and the handles are the outputs in order,
    each on the device "SPMD:0" and with the sharding reported for it.
    The call is fatal when the executable reports no output shardings, and
    when it reports a number of shardings other than the number of
    outputs. *)
Theorem C5_ExecuteReplicated_outputs comp arguments devs options st :
  let exe := executable comp in
  let ran := Execute exe (buffer <$> arguments)
               (MakeExecuteOptions (explode_tuple options) true None) in
  (forall handles st',
     ExecuteReplicated comp arguments devs options st = Returned (handles, st') ->
     exists result shardings,
       ran = OkValue result /\
       GetOutputShardings exe = Some shardings /\
       length shardings = length (outputs result) /\
       length handles = length (outputs result) /\
       forall (i : nat) handle, handles !! i = Some handle ->
         device handle = "SPMD:0" /\
         outputs result !! i = Some (buffer handle) /\
         shardings !! i = sharding_ handle /\
         HasSharding handle = true) /\
  (GetOutputShardings exe = None ->
   is_fatal (ExecuteReplicated comp arguments devs options st) = true) /\
  (forall result shardings,
     ran = OkValue result ->
     GetOutputShardings exe = Some shardings ->
     length shardings <> length (outputs result) ->
     is_fatal (ExecuteReplicated comp arguments devs options st) = true).
Proof.
  intros exe ran. split; [|split].
  - intros handles st' H. unfold ExecuteReplicated in H.
    apply bind_inv in H as (result & st1 & Hran & H).
    apply value_inv in Hran as [Hran ->].
    apply bind_inv in H as ([] & st1 & Hhas & H).
    apply XLA_CHECK_inv in Hhas as [_ ->].
    apply bind_inv in H as (shardings & st1 & Hsh & H).
    apply deref_inv in Hsh as [Hsh ->].
    apply bind_inv in H as ([] & st1 & Hcount & H).
    apply XLA_CHECK_inv in Hcount as [Hcount ->].
    apply bool_decide_eq_true_1 in Hcount.
    apply tag_outputs_inv in H as (_ & Hlen & Hall).
    rewrite length_zip_with, <- Hcount, Nat.min_id in Hlen.
    exists result, shardings. do 3 (split; [done|]).
    split; [congruence|].
    intros i handle Hi. apply Hall in Hi as (a & s & Hi & ->).
    apply lookup_zip_with_Some in Hi as (r & s' & [= <- <-] & Hr & Hs).
    done.
  - intros Hnone. unfold ExecuteReplicated, bind.
    fold exe. fold ran. destruct ran as [result|msg]; cbn; [|done].
    by rewrite Hnone.
  - intros result shardings Hran Hsome Hne. unfold ExecuteReplicated, bind.
    fold exe. fold ran. rewrite Hran, Hsome. cbn.
    unfold XLA_CHECK_EQ. by rewrite bool_decide_eq_false_2.
Qed.

(** Three executables of the sample runtime: one reports a sharding for
    its output, one reports none, one reports two. *)
Lemma C5_witness :
  let prog := replicate_computation (Sample.f32 [2]) (OTHER [2]) in
  let arg := MakeIfrtData "SPMD:0" (Sample.f32 [2])
               (Some (MakeArray F32 [2] Sample.two_devices [5; 6])) (Some (OTHER [2])) in
  let st := Sample.started Sample.a_client in
  let options := MakeExecuteReplicatedOptions true in
  let run exe := ExecuteReplicated (MakeIfrtComputation prog ["TPU:0"] exe) [arg]
                   ["TPU:1"; "TPU:0"] options st in
  (exists handle,
     run (Sample.an_executable prog) = Returned ([handle], st) /\
     device handle = "SPMD:0" /\
     sharding_ handle = Some REPLICATED) /\
  is_fatal (run (Sample.a_silent_executable prog)) = true /\
  is_fatal (run (Sample.a_miscounting_executable prog)) = true.
Proof.
  intros prog arg st options run.
  split; [|split].
  - destruct (C5_ExecuteReplicated_outputs
                (MakeIfrtComputation prog ["TPU:0"] (Sample.an_executable prog))
                [arg] ["TPU:1"; "TPU:0"] options st) as (Hret & _ & _).
    pose (handle := MakeIfrtData "SPMD:0" (Sample.f32 [2])
                      (Some (MakeArray F32 [2] Sample.two_devices [5; 6]))
                      (Some REPLICATED)).
    assert (Hrun : run (Sample.an_executable prog) = Returned ([handle], st))
      by reflexivity.
    exists handle. split; [exact Hrun|].
    destruct (Hret _ _ Hrun) as (result & shardings & _ & Hsh & _ & _ & Hall).
    destruct (Hall 0%nat handle eq_refl) as (Hdev & _ & Hs & _).
    split; [exact Hdev|]. reflexivity.
  - destruct (C5_ExecuteReplicated_outputs
                (MakeIfrtComputation prog ["TPU:0"] (Sample.a_silent_executable prog))
                [arg] ["TPU:1"; "TPU:0"] options st) as (_ & Hnone & _).
    apply Hnone. reflexivity.
  - destruct (C5_ExecuteReplicated_outputs
                (MakeIfrtComputation prog ["TPU:0"]
                   (Sample.a_miscounting_executable prog))
                [arg] ["TPU:1"; "TPU:0"] options st) as (_ & _ & Hcount).
    eapply Hcount; [reflexivity|reflexivity|]. cbn. lia.
Defined.

(** ** Transfers to the host: where a status is handed back *)

(** Everything [TransferFromServer] calls before the copy to the host ends
    by returning, by a failed fatal check or without defined behaviour,
    never by handing a status back. *)

Create HintDb np discriminated.

Lemma np_ret {A} (a : A) : no_propagation (ret a).
Proof. by intros st. Qed.

Lemma np_fatal {A} msg : no_propagation (@fatal A msg).
Proof. by intros st. Qed.

Lemma np_undefined {A} : no_propagation (@undefined A).
Proof. by intros st. Qed.

Lemma np_get : no_propagation get.
Proof. by intros st. Qed.

Lemma np_modify f : no_propagation (modify f).
Proof. by intros st. Qed.

Lemma np_bind {A B} (m : M A) (k : A -> M B) :
  no_propagation m -> (forall a, no_propagation (k a)) -> no_propagation (bind m k).
Proof.
  intros Hm Hk st. unfold bind. specialize (Hm st).
  destruct (m st) as [[a st']| | |]; try done. apply Hk.
Qed.

Lemma np_for_each_push {A B} (l : list A) (body : A -> M B) :
  (forall x, no_propagation (body x)) -> no_propagation (for_each_push l body).
Proof.
  intros Hbody. induction l as [|x l IH]; cbn [for_each_push].
  - apply np_ret.
  - apply np_bind; [done|]. intros y. apply np_bind; [done|]. intros ys. apply np_ret.
Qed.

Lemma np_for_each_acc {A S} (l : list A) (acc : S) (body : S -> A -> M S) :
  (forall s x, no_propagation (body s x)) -> no_propagation (for_each_acc l acc body).
Proof.
  intros Hbody. revert acc. induction l as [|x l IH]; intros acc; cbn [for_each_acc].
  - apply np_ret.
  - apply np_bind; [done|]. intros acc'. apply IH.
Qed.

Lemma np_the_client : no_propagation the_client.
Proof. intros st. unfold the_client. by destruct (client_ st). Qed.

Lemma np_XLA_CHECK c msg : no_propagation (XLA_CHECK c msg).
Proof. intros st. by destruct c. Qed.

Lemma np_value {A} (s : StatusOr A) : no_propagation (value s).
Proof. intros st. by destruct s. Qed.

Lemma np_deref {A} (p : option A) : no_propagation (deref p).
Proof. intros st. by destruct p. Qed.

Lemma np_unchecked {A} (s : StatusOr A) : no_propagation (unchecked s).
Proof. intros st. by destruct s. Qed.

Lemma np_from_buffer dev buf sharding :
  no_propagation (lift (IfrtData_from_buffer dev buf sharding)).
Proof. intros st. by destruct buf. Qed.

#[local] Hint Resolve np_ret np_fatal np_undefined np_get np_modify np_the_client
  np_XLA_CHECK np_value np_deref np_unchecked np_from_buffer : np.

(** One step of a proof of [no_propagation]: a bind, a loop, or a case
    distinction of the code. *)
Ltac np_step :=
  match goal with
  | |- no_propagation (bind _ _) => apply np_bind
  | |- no_propagation (for_each_push _ _) => apply np_for_each_push
  | |- no_propagation (for_each_acc _ _ _) => apply np_for_each_acc
  | |- no_propagation (if ?b then _ else _) => destruct b
  | |- no_propagation (match ?x with _ => _ end) => destruct x
  | |- forall _, _ => intro
  end.

Ltac np := repeat np_step; eauto with np.

Lemma np_report f : no_propagation (report f).
Proof. unfold report. np. Qed.

Lemma np_PjRtDeviceToString d : no_propagation (PjRtDeviceToString d).
Proof. unfold PjRtDeviceToString. np. Qed.

#[local] Hint Resolve np_report np_PjRtDeviceToString : np.

Lemma np_GetLocalDevices : no_propagation GetLocalDevices.
Proof. unfold GetLocalDevices, PjRtDevicesToString. np. Qed.

Lemma np_GetDefaultDevice : no_propagation GetDefaultDevice.
Proof. unfold GetDefaultDevice. np. Qed.

Lemma np_GetSharding d : no_propagation (GetSharding d).
Proof. unfold GetSharding. np. Qed.

Lemma np_Compile instances : no_propagation (Compile instances).
Proof.
  unfold Compile, compile_instance, build_compile_options, ConsumeValue. np.
Qed.

Lemma np_ExecuteReplicated comp arguments devs options :
  no_propagation (ExecuteReplicated comp arguments devs options).
Proof. unfold ExecuteReplicated, XLA_CHECK_EQ. np. Qed.

#[local] Hint Resolve np_GetLocalDevices np_GetDefaultDevice np_GetSharding
  np_Compile np_ExecuteReplicated : np.

Lemma np_ReplicateShardedData handle : no_propagation (ReplicateShardedData handle).
Proof. unfold ReplicateShardedData, XLA_CHECK_EQ. np. Qed.

#[local] Hint Resolve np_ReplicateShardedData : np.

(** The loop of [TransferFromServer] hands a status back only at a handle
    whose copy to the host failed. *)
Lemma read_back_Propagated acc handle st s :
  read_back acc handle st = Propagated s ->
  exists a st2 c msg,
    ReplicateShardedData handle st = Returned (a, st2) /\
    client_ st2 = Some c /\
    CopyToHostBuffer c a
      (byte_strides_of (ByteSizeOfPrimitiveType (element_type (shape handle)))
                       (dimensions (shape handle))) = NotOk msg /\
    s = ErrorStatus msg.
Proof.
  destruct acc as [literals total_size]. unfold read_back.
  pose proof (np_ReplicateShardedData handle st) as Hnp.
  unfold bind at 1.
  destruct (ReplicateShardedData handle st) as [[a st2]| | |]; try done.
  erewrite bind_Returned by reflexivity.
  unfold bind at 1, the_client.
  destruct (client_ st2) as [c|] eqn:Hc; [|done].
  unfold bind, checked, bind, DeviceShapeToHostShape.
  destruct (CopyToHostBuffer c a _) as [data|msg] eqn:Hcopy; cbn; [done|].
  intros [= <-]. by exists a, st2, c, msg.
Qed.

Lemma read_loop_Propagated handles acc0 st s :
  for_each_acc handles acc0 read_back st = Propagated s ->
  exists before handle after acc st1 a st2 c msg,
    handles = before ++ handle :: after /\
    for_each_acc before acc0 read_back st = Returned (acc, st1) /\
    ReplicateShardedData handle st1 = Returned (a, st2) /\
    client_ st2 = Some c /\
    CopyToHostBuffer c a
      (byte_strides_of (ByteSizeOfPrimitiveType (element_type (shape handle)))
                       (dimensions (shape handle))) = NotOk msg /\
    s = ErrorStatus msg.
Proof.
  revert acc0 st. induction handles as [|h handles IH]; intros acc0 st; [done|].
  cbn [for_each_acc]. unfold bind at 1.
  destruct (read_back acc0 h st) as [[acc' st']|s0| |] eqn:Hh; try done.
  - intros H. apply IH in H
      as (before & handle & after & acc & st1 & a & st2 & c & msg
          & -> & Hbefore & Hrep & Hc & Hcopy & ->).
    exists (h :: before), handle, after, acc, st1, a, st2, c, msg.
    split; [done|]. split; [|done].
    cbn [for_each_acc]. by rewrite (bind_Returned _ _ _ _ _ Hh).
  - intros [= <-].
    apply read_back_Propagated in Hh as (a & st2 & c & msg & Hrep & Hc & Hcopy & ->).
    by exists [], h, handles, acc0, st, a, st2, c, msg.
Qed.

(** C2.  Whenever [TransferFromServer] comes to a handle whose copy to the
    host does not complete successfully, the call fails by handing the
    error status of the copy back to its caller: it does not return
    literals, and it does not end in a fatal check failure.  Conversely, a
    status that [TransferFromServer] hands back is always the status of
    the failed copy of one of the handles, reached after the handles
    before it were read back. *)
Theorem C2_TransferFromServer_copy_failure_propagates handles st :
  (forall before handle after acc st1 a st2 c msg,
     handles = before ++ handle :: after ->
     for_each_acc before ([], 0) read_back st = Returned (acc, st1) ->
     ReplicateShardedData handle st1 = Returned (a, st2) ->
     client_ st2 = Some c ->
     CopyToHostBuffer c a
       (byte_strides_of (ByteSizeOfPrimitiveType (element_type (shape handle)))
                        (dimensions (shape handle))) = NotOk msg ->
     TransferFromServer handles st = Propagated (ErrorStatus msg) /\
     is_returned (TransferFromServer handles st) = false /\
     is_fatal (TransferFromServer handles st) = false) /\
  (forall s,
     TransferFromServer handles st = Propagated s ->
     exists before handle after acc st1 a st2 c msg,
       handles = before ++ handle :: after /\
       for_each_acc before ([], 0) read_back st = Returned (acc, st1) /\
       ReplicateShardedData handle st1 = Returned (a, st2) /\
       client_ st2 = Some c /\
       CopyToHostBuffer c a
         (byte_strides_of (ByteSizeOfPrimitiveType (element_type (shape handle)))
                          (dimensions (shape handle))) = NotOk msg /\
       s = ErrorStatus msg).
Proof.
  split.
  - intros before handle after acc st1 a st2 c msg -> Hbefore Hrep Hc Hcopy.
    assert (H : TransferFromServer (before ++ handle :: after) st
                = Propagated (ErrorStatus msg)).
    { unfold TransferFromServer. unfold bind at 1.
      rewrite for_each_acc_app. rewrite (bind_Returned _ _ _ _ _ Hbefore).
      cbn [for_each_acc]. unfold bind at 1.
      destruct acc as [literals total_size]. unfold read_back.
      rewrite (bind_Returned _ _ _ _ _ Hrep).
      erewrite bind_Returned by reflexivity.
      erewrite bind_Returned by (unfold the_client; rewrite Hc; reflexivity).
      unfold bind at 1, checked, bind, DeviceShapeToHostShape.
      rewrite Hcopy. reflexivity. }
    rewrite H. done.
  - intros s H. unfold TransferFromServer in H. unfold bind at 1 in H.
    destruct (for_each_acc handles ([], 0) read_back st)
      as [[[literals total_size] st']|s0| |] eqn:Hloop; try done.
    injection H as <-. by apply read_loop_Propagated in Hloop.
Qed.

(** On the sample client, the copy of an array that starts with a negative
    element fails: the read-back of a handle on such an array hands the
    status of the copy back, also after a handle that was read back. *)
Lemma C2_witness :
  let good := MakeIfrtData "TPU:0" (Sample.f32 [2])
                (Some (MakeArray F32 [2] [Sample.tpu 3] [1; 2])) None in
  let bad := MakeIfrtData "TPU:1" (Sample.f32 [2])
               (Some (MakeArray F32 [2] [Sample.tpu 7] [-5; 6])) None in
  TransferFromServer [good; bad; good] (Sample.started Sample.a_client)
    = Propagated (ErrorStatus "copy to host failed").
Proof.
  intros good bad.
  exact (proj1 (proj1 (C2_TransferFromServer_copy_failure_propagates
                         [good; bad; good] (Sample.started Sample.a_client))
                  [good] bad [good] _ _ _ _ Sample.a_client "copy to host failed"
                  eq_refl eq_refl eq_refl eq_refl eq_refl)).
Defined.

(** ** The sample client at work *)

(** One shard for the two devices of the sample client: the call ends
    inside the assembly, with the status of the assembler. *)
Example TransferShardsToServer_strict_assembler :
  TransferShardsToServer [MakeTensorSource "TPU:0" (Sample.f32 [1]) [5]]
    "SPMD:0" (Sample.f32 [2]) (OTHER [2]) (Sample.started Sample.a_strict_client)
  = Fatal "Number of output shards must match the number of single-shard arrays".
Proof. vm_compute. reflexivity. Qed.

(** Two shards for the two devices are transferred and assembled. *)
Example TransferShardsToServer_two_shards :
  exists handle st',
    TransferShardsToServer
      [MakeTensorSource "TPU:0" (Sample.f32 [1]) [5];
       MakeTensorSource "TPU:1" (Sample.f32 [1]) [6]]
      "SPMD:0" (Sample.f32 [2]) (OTHER [2]) (Sample.started Sample.a_strict_client)
      = Returned (handle, st') /\
    buffer handle = Some (MakeArray F32 [2] Sample.two_devices [5; 6]) /\
    counter "CreateDataHandles" (metrics st') = 2.
Proof.
  eexists _, _. split; [vm_compute; reflexivity|]. split; vm_compute; reflexivity.
Qed.

(** A buffer on two devices takes the other path of
    [ReplicateShardedData]: one compilation is counted. *)
Example ReplicateShardedData_two_devices_compiles :
  let buf := MakeArray F32 [2] Sample.two_devices [5; 6] in
  let handle := MakeIfrtData "SPMD:0" (Sample.f32 [2]) (Some buf) (Some (OTHER [2])) in
  exists a st',
    ReplicateShardedData handle (Sample.started Sample.a_client) = Returned (a, st') /\
    a = MakeArray F32 [2] [Sample.tpu 7] [5; 6] /\
    counter "StableHloCompile" (metrics (Sample.started Sample.a_client)) = 0 /\
    counter "StableHloCompile" (metrics st') = 1.
Proof.
  intros buf handle.
  eexists _, _. split; [vm_compute; reflexivity|]. repeat split; vm_compute; reflexivity.
Qed.

(** The ordinals of the sample client follow the driver ids, not the
    order of enumeration. *)
Example sample_registry :
  let st := Sample.started Sample.a_client in
  global_ordinals_ st !! 3 = Some 0%nat /\
  global_ordinals_ st !! 7 = Some 1%nat /\
  string_to_device_ st !! "TPU:0" = Some (Sample.tpu 3) /\
  operation_manager_ st = ["TPU:1"; "TPU:0"; "SPMD:0"].
Proof. repeat split; vm_compute; reflexivity. Qed.

(** * Further properties of the code *)

(** ** The registry the constructor builds *)

Lemma insert_by_id_sorted d l :
  StronglySorted (fun a b => device_id a <= device_id b) l ->
  StronglySorted (fun a b => device_id a <= device_id b) (insert_by_id d l).
Proof.
  induction 1 as [|x l Hl IH Hx]; cbn [insert_by_id].
  - repeat constructor.
  - case_bool_decide as Hlt.
    + constructor; [by constructor|]. constructor; [lia|].
      eapply Forall_impl; [exact Hx|]. cbn. intros; lia.
    + constructor; [done|].
      rewrite insert_by_id_Permutation. constructor; [lia|done].
Qed.

Lemma sort_by_id_sorted l :
  StronglySorted (fun a b => device_id a <= device_id b) (sort_by_id l).
Proof.
  unfold sort_by_id. induction l as [|x l IH]; cbn [foldr]; [constructor|].
  by apply insert_by_id_sorted.
Qed.

Lemma filter_below_none (i : Z) (ids : list Z) :
  Forall (fun j => i <= j) ids -> filter (fun j => j < i) ids = [].
Proof.
  induction 1 as [|j ids Hj _ IH]; [done|].
  rewrite filter_cons_False by lia. done.
Qed.

(** In a list of distinct ids in increasing order, the position of an id
    is the number of ids below it. *)
Lemma sorted_position_rank (ids : list Z) (g : nat) i :
  StronglySorted Z.le ids -> NoDup ids ->
  ids !! g = Some i -> rank i ids = g.
Proof.
  unfold rank. intros Hs. revert g. induction Hs as [|x ids Hs IH Hx]; intros g Hnd Hg.
  - by rewrite lookup_nil in Hg.
  - apply NoDup_cons in Hnd as [Hnotin Hnd].
    destruct g as [|g]; cbn in Hg.
    + injection Hg as ->. rewrite filter_cons_False by lia.
      by rewrite filter_below_none.
    + assert (x < i).
      { assert (i ∈ ids) by by eapply list_elem_of_lookup_2.
        rewrite Forall_forall in Hx. specialize (Hx i).
        assert (x <> i) by (intros ->; done). pose proof (Hx ltac:(done)). lia. }
      rewrite filter_cons_True by done. cbn. f_equal. by apply IH.
Qed.

Lemma rank_Permutation i (ids1 ids2 : list Z) :
  ids1 ≡ₚ ids2 -> rank i ids1 = rank i ids2.
Proof. unfold rank. by intros ->. Qed.

Lemma sorted_ids c :
  StronglySorted Z.le (device_id <$> sort_by_id (devices c)).
Proof.
  pose proof (sort_by_id_sorted (devices c)) as H.
  induction H as [|x l Hl IH Hx]; cbn; constructor; [done|].
  rewrite Forall_fmap. eapply Forall_impl; [exact Hx|]. done.
Qed.

(** The ordinal of an id is its rank among the ids of the client. *)
Lemma global_ordinals_rank c m b st (i : Z) (g : nat) :
  NoDup (device_id <$> devices c) ->
  IfrtComputationClient_new c m b = Returned (tt, st) ->
  global_ordinals_ st !! i = Some g <->
  i ∈ (device_id <$> devices c) /\ g = rank i (device_id <$> devices c).
Proof.
  intros Hnd Hnew. apply constructor_spec in Hnew as [_ Hord].
  pose proof (sort_by_id_Permutation (devices c)) as Hperm.
  assert (Hperm' : device_id <$> sort_by_id (devices c) ≡ₚ device_id <$> devices c)
    by by rewrite Hperm.
  assert (Hnd' : NoDup (device_id <$> sort_by_id (devices c))) by by rewrite Hperm'.
  rewrite Hord, ordinals_from_empty by done.
  rewrite <- (rank_Permutation i _ _ Hperm').
  assert (Hin : i ∈ device_id <$> devices c <->
                i ∈ device_id <$> sort_by_id (devices c)) by by rewrite Hperm'.
  rewrite Hin. split.
  - intros Hg. split; [by eapply list_elem_of_lookup_2|].
    symmetry. apply sorted_position_rank; [apply sorted_ids|done..].
  - intros [Hi ->]. apply list_elem_of_lookup in Hi as [k Hk].
    by rewrite (sorted_position_rank _ _ _ (sorted_ids c) Hnd' Hk).
Qed.

(** X1. After construction over devices with distinct driver ids, the
    global ordinal of a driver id is the number of devices with a smaller
    id; ids that were not enumerated have no ordinal, and the ordinals are
    the numbers below the device count. *)
Theorem X1_ordinal_is_rank c m b st :
  NoDup (device_id <$> devices c) ->
  IfrtComputationClient_new c m b = Returned (tt, st) ->
  (forall (i : Z) (g : nat),
     global_ordinals_ st !! i = Some g <->
     i ∈ (device_id <$> devices c) /\ g = rank i (device_id <$> devices c)) /\
  size (global_ordinals_ st) = device_count c /\
  (forall (i : Z) (g : nat),
     global_ordinals_ st !! i = Some g -> (g < device_count c)%nat).
Proof.
  intros Hnd Hnew. split; [intros; by eapply global_ordinals_rank|].
  pose proof Hnew as Hspec. apply constructor_spec in Hspec as [_ Hord].
  pose proof (sort_by_id_Permutation (devices c)) as Hperm.
  assert (Hnd' : NoDup (device_id <$> sort_by_id (devices c))) by by rewrite Hperm.
  split.
  - rewrite Hord.
    destruct (ordinals_from_spec (sort_by_id (devices c)) ∅ Hnd') as [Hsize _];
      [by intros; apply lookup_empty|].
    rewrite Hsize, map_size_empty. unfold device_count. by rewrite Hperm.
  - intros i g Hg. rewrite Hord in Hg. apply ordinals_from_empty in Hg; [|done].
    apply lookup_lt_Some in Hg. rewrite length_fmap in Hg.
    unfold device_count. by rewrite <- Hperm.
Qed.

Lemma X1_witness :
  let st := Sample.started Sample.a_client in
  global_ordinals_ st !! 7 = Some 1%nat /\
  global_ordinals_ st !! 3 = Some 0%nat /\
  size (global_ordinals_ st) = 2%nat.
Proof.
  intros st.
  destruct (X1_ordinal_is_rank Sample.a_client Sample.no_metrics Sample.a_base st)
    as (Hrank & Hsize & _); [compute_done|reflexivity|].
  split; [|split; [|exact Hsize]].
  - apply Hrank. split; [compute_done|reflexivity].
  - apply Hrank. split; [compute_done|reflexivity].
Defined.

(** X2. The ordinals do not depend on the order in which the driver
    enumerates the devices: two clients whose device lists are
    permutations of each other get the same map of global ordinals. *)
Theorem X2_ordinals_stable c1 c2 m1 m2 b1 b2 st1 st2 :
  NoDup (device_id <$> devices c1) ->
  devices c1 ≡ₚ devices c2 ->
  IfrtComputationClient_new c1 m1 b1 = Returned (tt, st1) ->
  IfrtComputationClient_new c2 m2 b2 = Returned (tt, st2) ->
  global_ordinals_ st1 = global_ordinals_ st2.
Proof.
  intros Hnd Hperm H1 H2.
  assert (Hids : device_id <$> devices c1 ≡ₚ device_id <$> devices c2)
    by by rewrite Hperm.
  assert (Hnd2 : NoDup (device_id <$> devices c2)) by by rewrite <- Hids.
  apply map_eq. intros i. apply option_eq. intros g.
  rewrite (global_ordinals_rank c1 m1 b1 st1 i g Hnd H1).
  rewrite (global_ordinals_rank c2 m2 b2 st2 i g Hnd2 H2).
  rewrite (rank_Permutation i _ _ Hids).
  assert (Hin : i ∈ device_id <$> devices c1 <-> i ∈ device_id <$> devices c2)
    by by rewrite Hids.
  by rewrite Hin.
Qed.

Lemma X2_witness :
  let reversed :=
    MakeIfrtClient [Sample.tpu 3; Sample.tpu 7] [Sample.tpu 3; Sample.tpu 7] 0
      Sample.make_array Sample.assemble Sample.disassemble Sample.replicated_shard
      Sample.copy_to_host (fun prog _ => OkValue (Sample.an_executable prog)) in
  global_ordinals_ (Sample.started Sample.a_client)
    = global_ordinals_ (Sample.started reversed).
Proof.
  intros reversed.
  apply (X2_ordinals_stable Sample.a_client reversed Sample.no_metrics
           Sample.no_metrics Sample.a_base Sample.a_base).
  - compute_done.
  - apply Permutation_swap.
  - reflexivity.
  - reflexivity.
Defined.

(** The strings of a list of devices under the ordinals [m], if every
    device has one. *)
Lemma PjRtDeviceToString_pure d st :
  PjRtDeviceToString d st =
  match global_ordinals_ st !! device_id d with
  | Some ordinal => Returned (device_string d ordinal, st)
  | None => Fatal "unordered_map::at"
  end.
Proof.
  unfold PjRtDeviceToString, bind, get. by destruct (global_ordinals_ st !! device_id d).
Qed.

Lemma PjRtDevicesToString_pure ds st :
  PjRtDevicesToString ds st =
  match mapM (fun d => device_string d <$> global_ordinals_ st !! device_id d) ds with
  | Some l => Returned (l, st)
  | None => Fatal "unordered_map::at"
  end.
Proof.
  unfold PjRtDevicesToString. induction ds as [|d ds IH]; [done|].
  cbn [for_each_push mapM]. unfold bind at 1. rewrite PjRtDeviceToString_pure.
  destruct (global_ordinals_ st !! device_id d) as [o|]; cbn; [|done].
  unfold bind. rewrite IH.
  by destruct (mapM _ ds).
Qed.

Lemma GetLocalDevices_frame st1 st2 l :
  client_ st2 = client_ st1 ->
  global_ordinals_ st2 = global_ordinals_ st1 ->
  GetLocalDevices st1 = Returned (l, st1) ->
  GetLocalDevices st2 = Returned (l, st2).
Proof.
  unfold GetLocalDevices, bind, the_client. intros -> Hord.
  destruct (client_ st1) as [c|]; [|done].
  rewrite !PjRtDevicesToString_pure, Hord.
  destruct (mapM _ _); [|done]. by intros [= ->].
Qed.

Lemma register_device_full d st :
  register_device d st =
  Returned (tt,
    set_string_to_device_
      (emplace (device_string d (size (global_ordinals_ st))) d (string_to_device_ st))
      (set_global_ordinals_
         (<[device_id d := size (global_ordinals_ st)]> (global_ordinals_ st)) st)).
Proof.
  unfold register_device, bind, get, modify, PjRtDeviceToString, ret, fatal.
  cbn. by rewrite lookup_insert_eq.
Qed.

Lemma register_all_full l st :
  for_each l register_device st =
  Returned (tt,
    set_string_to_device_
      (snd (registry_from l (global_ordinals_ st, string_to_device_ st)))
      (set_global_ordinals_
         (fst (registry_from l (global_ordinals_ st, string_to_device_ st))) st)).
Proof.
  revert st. induction l as [|d l IH]; intros st; cbn [for_each].
  - by destruct st.
  - rewrite (bind_Returned _ _ _ _ _ (register_device_full d st)).
    rewrite IH. by destruct st.
Qed.

Lemma registry_from_ordinals l m t :
  fst (registry_from l (m, t)) = ordinals_from l m.
Proof.
  revert m t. induction l as [|d l IH]; intros m t; [done|].
  cbn. apply IH.
Qed.

Lemma device_string_inj d1 d2 (k1 k2 : nat) :
  device_platform_name d1 = device_platform_name d2 ->
  device_string d1 k1 = device_string d2 k2 -> k1 = k2.
Proof.
  unfold device_string. intros ->. intros H.
  apply (inj (String.app _)) in H. apply (inj (String.app _)) in H.
  by apply (inj pretty) in H.
Qed.

(** The string table after the loop: with distinct ids and one platform
    name, the loop adds one entry per device, under the string of its
    position. *)
Lemma registry_from_strings l (m : gmap Z nat) (t : gmap string PjRtDevice) p :
  NoDup (device_id <$> l) ->
  (forall d, d ∈ l -> m !! device_id d = None) ->
  (forall d, d ∈ l -> device_platform_name d = p) ->
  (forall (k : nat) d, device_platform_name d = p -> (size m <= k)%nat ->
     t !! device_string d k = None) ->
  forall s d,
    snd (registry_from l (m, t)) !! s = Some d <->
    t !! s = Some d \/
    exists k : nat, l !! k = Some d /\ s = device_string d (size m + k).
Proof.
  revert m t. induction l as [|d0 l IH]; intros m t Hnd Hfresh Hp Ht s d.
  - cbn. split; [by left|]. intros [H|(k & Hk & _)]; [done|].
    by rewrite lookup_nil in Hk.
  - rewrite fmap_cons in Hnd. apply NoDup_cons in Hnd as [Hd0 Hnd].
    assert (Hm0 : m !! device_id d0 = None) by (apply Hfresh; left).
    assert (Hp0 : device_platform_name d0 = p) by (apply Hp; left).
    assert (Ht0 : t !! device_string d0 (size m) = None) by by apply Ht.
    cbn [registry_from foldl fst snd].
    change (foldl _ ?a l) with (registry_from l a).
    unfold emplace. rewrite Ht0.
    rewrite IH; cycle 1.
    { done. }
    { intros d' Hd'. rewrite lookup_insert_ne; [apply Hfresh; by right|].
      intros Heq. apply Hd0. rewrite Heq. apply list_elem_of_fmap. by exists d'. }
    { intros d' Hd'. apply Hp. by right. }
    { intros k d' Hd' Hk. rewrite map_size_insert_None in Hk by done.
      rewrite lookup_insert_ne; [apply Ht; [done|lia]|].
      intros Heq. apply device_string_inj in Heq; [lia|congruence]. }
    rewrite map_size_insert_None by done. split.
    + intros [H|(k & Hk & ->)].
      * destruct (decide (device_string d0 (size m) = s)) as [<-|Hne].
        -- rewrite lookup_insert_eq in H. injection H as <-.
           right. exists 0%nat. split; [done|]. f_equal. lia.
        -- rewrite lookup_insert_ne in H by done. by left.
      * right. exists (S k). split; [done|]. f_equal. lia.
    + intros [H|(k & Hk & ->)].
      * left. rewrite lookup_insert_ne; [done|]. congruence.
      * destruct k as [|k]; cbn in Hk.
        -- injection Hk as <-. left. rewrite Nat.add_0_r. by rewrite lookup_insert_eq.
        -- right. exists k. split; [done|]. f_equal. lia.
Qed.

(** The tables of a client after construction. *)
Lemma constructor_tables c m b st :
  IfrtComputationClient_new c m b = Returned (tt, st) ->
  string_to_device_ st = snd (registry_from (sort_by_id (devices c)) (∅, ∅)) /\
  coordinator_ st = None /\
  metrics st = m /\
  exists tracked,
    operation_manager_ st = tracked ++ [spmd_device_str] /\
    GetLocalDevices st = Returned (tracked, st).
Proof.
  unfold IfrtComputationClient_new. intros H.
  apply bind_inv in H as ([] & st1 & Hreg & H).
  rewrite register_all_full in Hreg. injection Hreg as <-.
  apply bind_inv in H as (tracked & st2 & Hloc & H).
  pose proof (GetLocalDevices_state _ _ _ Hloc) as ->.
  unfold modify in H. injection H as <-.
  match type of Hloc with GetLocalDevices ?x = _ => set (st1 := x) in * end.
  do 3 (split; [reflexivity|]). exists tracked. split; [reflexivity|].
  by apply (GetLocalDevices_frame st1).
Qed.

(** After construction over distinct ids and one platform name, the string
    table holds, for each position in the order of the ids, the device at
    that position under its string. *)
Lemma string_to_device_spec c m b st p s d :
  NoDup (device_id <$> devices c) ->
  (forall d, d ∈ devices c -> device_platform_name d = p) ->
  IfrtComputationClient_new c m b = Returned (tt, st) ->
  string_to_device_ st !! s = Some d <->
  exists g : nat,
    d ∈ devices c /\ global_ordinals_ st !! device_id d = Some g /\
    s = device_string d g.
Proof.
  intros Hnd Hp Hnew.
  pose proof (constructor_tables _ _ _ _ Hnew) as (Hstr & _).
  pose proof (constructor_spec _ _ _ _ Hnew) as [_ Hord].
  pose proof (sort_by_id_Permutation (devices c)) as Hperm.
  assert (Hnd' : NoDup (device_id <$> sort_by_id (devices c))) by by rewrite Hperm.
  rewrite Hstr, Hord.
  rewrite (registry_from_strings _ ∅ ∅ p Hnd'); cycle 1.
  { intros; apply lookup_empty. }
  { intros d' Hd'. apply Hp. by rewrite <- Hperm. }
  { intros; apply lookup_empty. }
  rewrite map_size_empty. split.
  - intros [H|(k & Hk & ->)]; [by rewrite lookup_empty in H|].
    exists k. split; [rewrite <- Hperm; by eapply list_elem_of_lookup_2|].
    split; [|done]. apply ordinals_from_empty; [done|].
    by rewrite list_lookup_fmap, Hk.
  - intros (g & Hd & Hg & ->). right. exists g. split; [|done].
    apply ordinals_from_empty in Hg; [|done].
    rewrite list_lookup_fmap in Hg.
    destruct (sort_by_id (devices c) !! g) as [d'|] eqn:Hd'; [|done].
    injection Hg as Hid. f_equal.
    rewrite <- Hperm in Hd. apply list_elem_of_lookup in Hd as [k Hk].
    assert (k = g) as ->; [|congruence].
    eapply NoDup_lookup; [exact Hnd'| |].
    + by rewrite list_lookup_fmap, Hk.
    + by rewrite list_lookup_fmap, Hd', <- Hid.
Qed.

(** X3. After construction over devices with distinct ids and one
    platform name, every device of the client has a string, and looking
    that string up gives the device back. *)
Theorem X3_device_string_round_trip c m b st p d :
  NoDup (device_id <$> devices c) ->
  (forall d, d ∈ devices c -> device_platform_name d = p) ->
  IfrtComputationClient_new c m b = Returned (tt, st) ->
  d ∈ devices c ->
  exists s,
    PjRtDeviceToString d st = Returned (s, st) /\
    StringToPjRtDevice s st = Returned (d, st).
Proof.
  intros Hnd Hp Hnew Hd.
  set (g := rank (device_id d) (device_id <$> devices c)).
  assert (Hg : global_ordinals_ st !! device_id d = Some g).
  { apply (global_ordinals_rank c m b st _ _ Hnd Hnew).
    split; [|done]. apply list_elem_of_fmap. by exists d. }
  exists (device_string d g). rewrite PjRtDeviceToString_pure, Hg. split; [done|].
  assert (Hs : string_to_device_ st !! device_string d g = Some d).
  { apply (string_to_device_spec c m b st p); [done..|]. by exists g. }
  unfold StringToPjRtDevice, bind, get. by rewrite Hs.
Qed.

Lemma X3_witness :
  exists s,
    PjRtDeviceToString (Sample.tpu 7) (Sample.started Sample.a_client)
      = Returned (s, Sample.started Sample.a_client) /\
    StringToPjRtDevice s (Sample.started Sample.a_client)
      = Returned (Sample.tpu 7, Sample.started Sample.a_client).
Proof.
  apply (X3_device_string_round_trip Sample.a_client Sample.no_metrics
           Sample.a_base _ "tpu").
  - compute_done.
  - intros d Hd. apply list_elem_of_In in Hd. cbn in Hd.
    destruct Hd as [<-|[<-|[]]]; reflexivity.
  - reflexivity.
  - apply list_elem_of_In. left. reflexivity.
Defined.

(** X4. After construction over devices with distinct ids and one
    platform name, a string that [StringToPjRtDevice] resolves is the
    string of the device it returns, a device of the client; a string that
    is the string of no device of the client fails the check "Unknown
    device". *)
Theorem X4_StringToPjRtDevice_registered c m b st p s :
  NoDup (device_id <$> devices c) ->
  (forall d, d ∈ devices c -> device_platform_name d = p) ->
  IfrtComputationClient_new c m b = Returned (tt, st) ->
  (forall d st',
     StringToPjRtDevice s st = Returned (d, st') ->
     st' = st /\ d ∈ devices c /\ PjRtDeviceToString d st = Returned (s, st)) /\
  ((forall d, d ∈ devices c -> PjRtDeviceToString d st <> Returned (s, st)) ->
   StringToPjRtDevice s st = Fatal ("Unknown device " +:+ s)).
Proof.
  intros Hnd Hp Hnew.
  assert (Hknown : forall d, string_to_device_ st !! s = Some d ->
            d ∈ devices c /\ PjRtDeviceToString d st = Returned (s, st)).
  { intros d Hd.
    apply (string_to_device_spec c m b st p s d Hnd Hp Hnew) in Hd
      as (g & Hin & Hg & ->).
    split; [done|]. by rewrite PjRtDeviceToString_pure, Hg. }
  unfold StringToPjRtDevice, bind, get.
  destruct (string_to_device_ st !! s) as [d|] eqn:Hs; cbn.
  - split.
    + intros d' st' [= <- <-]. split; [done|]. by apply Hknown.
    + intros Hno. destruct (Hknown d eq_refl) as [Hin Hstr]. by destruct (Hno d Hin).
  - split; [done|]. done.
Qed.

Lemma X4_witness :
  StringToPjRtDevice "SPMD:0" (Sample.started Sample.a_client)
    = Fatal "Unknown device SPMD:0".
Proof.
  destruct (X4_StringToPjRtDevice_registered Sample.a_client Sample.no_metrics
              Sample.a_base (Sample.started Sample.a_client) "tpu" "SPMD:0")
    as [_ Hunknown].
  - compute_done.
  - intros d Hd. apply list_elem_of_In in Hd. cbn in Hd.
    destruct Hd as [<-|[<-|[]]]; reflexivity.
  - reflexivity.
  - apply Hunknown. intros d Hd. apply list_elem_of_In in Hd. cbn in Hd.
    destruct Hd as [<-|[<-|[]]]; vm_compute; discriminate.
Defined.

(** ** The accessors of the local devices *)

Lemma GetLocalDevices_length st l st' c :
  client_ st = Some c ->
  GetLocalDevices st = Returned (l, st') ->
  length l = addressable_device_count c.
Proof.
  unfold GetLocalDevices, bind, the_client. intros ->.
  rewrite PjRtDevicesToString_pure.
  destruct (mapM _ _) as [l'|] eqn:Hl; [|done]. intros [= <- _].
  symmetry. by eapply length_mapM.
Qed.

(** X5. Whenever [GetLocalDevices] returns, it leaves the client as it is,
    [GetNumDevices] returns the length of its result, and
    [GetDefaultDevice] returns its first element; without a local device
    [GetDefaultDevice] has no defined result. *)
Theorem X5_local_device_accessors st l st' :
  GetLocalDevices st = Returned (l, st') ->
  st' = st /\
  GetNumDevices st = Returned (length l, st) /\
  GetDefaultDevice st =
    match l with
    | s :: _ => Returned (s, st)
    | [] => Undefined
    end.
Proof.
  intros H. pose proof (GetLocalDevices_state _ _ _ H) as ->. split; [done|].
  unfold GetLocalDevices, GetNumDevices, GetDefaultDevice, bind, the_client in *.
  destruct (client_ st) as [c|]; [|done].
  rewrite PjRtDevicesToString_pure in H.
  destruct (mapM _ _) as [l'|] eqn:Hl; [|done]. injection H as ->.
  split.
  - unfold ret, addressable_device_count. f_equal. f_equal.
    by eapply length_mapM.
  - destruct (addressable_devices c) as [|d ds]; cbn in Hl.
    + by injection Hl as <-.
    + rewrite PjRtDeviceToString_pure.
      destruct (global_ordinals_ st !! device_id d) as [o|]; cbn in Hl; [|done].
      destruct (mapM _ ds); cbn in Hl; [|done]. by injection Hl as <-.
Qed.

Lemma X5_witness :
  GetNumDevices (Sample.started Sample.a_client)
    = Returned (2%nat, Sample.started Sample.a_client) /\
  GetDefaultDevice (Sample.started Sample.a_client)
    = Returned ("TPU:1", Sample.started Sample.a_client).
Proof.
  destruct (X5_local_device_accessors (Sample.started Sample.a_client)
              ["TPU:1"; "TPU:0"] (Sample.started Sample.a_client) eq_refl)
    as (_ & Hnum & Hdefault).
  split; [exact Hnum|exact Hdefault].
Defined.

(** X6. After construction, the operation manager tracks the strings of
    the local devices, in order, followed by "SPMD:0"; a wait on no named
    device waits on exactly the local devices, all of them tracked. *)
Theorem X6_tracked_devices c m b st :
  IfrtComputationClient_new c m b = Returned (tt, st) ->
  exists local,
    GetLocalDevices st = Returned (local, st) /\
    operation_manager_ st = local ++ ["SPMD:0"] /\
    length local = addressable_device_count c /\
    WaitDeviceOps [] st = Returned (local, st) /\
    forall s, s ∈ local -> s ∈ operation_manager_ st.
Proof.
  intros Hnew.
  pose proof (constructor_spec _ _ _ _ Hnew) as [Hc _].
  apply constructor_tables in Hnew as (_ & _ & _ & local & Hop & Hloc).
  exists local. split; [done|]. split; [done|]. split.
  - by eapply GetLocalDevices_length.
  - split; [done|]. intros s Hs. rewrite Hop. apply elem_of_app. by left.
Qed.

Lemma X6_witness :
  operation_manager_ (Sample.started Sample.a_client) = ["TPU:1"; "TPU:0"; "SPMD:0"] /\
  WaitDeviceOps [] (Sample.started Sample.a_client)
    = Returned (["TPU:1"; "TPU:0"], Sample.started Sample.a_client).
Proof.
  destruct (X6_tracked_devices Sample.a_client Sample.no_metrics Sample.a_base
              (Sample.started Sample.a_client) eq_refl)
    as (local & Hloc & Hop & _ & Hwait & _).
  assert (local = ["TPU:1"; "TPU:0"]) as ->.
  { vm_compute in Hloc. by injection Hloc as <-. }
  split; [exact Hop|exact Hwait].
Defined.

(** ** The number of processes *)

Lemma foldl_max_spec (ds : list PjRtDevice) (z : Z) :
  let r := foldl (fun m d => Z.max m (process_index d)) z ds in
  z <= r /\
  (forall d, d ∈ ds -> process_index d <= r) /\
  (r = z \/ exists d, d ∈ ds /\ process_index d = r).
Proof.
  revert z. induction ds as [|d ds IH]; intros z; cbn.
  - split; [lia|]. split; [by intros d Hd; apply elem_of_nil in Hd|by left].
  - destruct (IH (Z.max z (process_index d))) as (Hle & Hall & Hex).
    split; [lia|]. split.
    + intros d' Hd'. apply elem_of_cons in Hd' as [->|Hd']; [lia|by apply Hall].
    + destruct Hex as [Hr|(d' & Hd' & Hr)].
      * destruct (Z.max_spec z (process_index d)) as [[_ Hm]|[_ Hm]].
        -- right. exists d. split; [by left|congruence].
        -- left. congruence.
      * right. exists d'. split; [by right|done].
Qed.

Lemma wrap_int_in_range z : INT_MIN <= z <= INT_MAX -> wrap_int z = z.
Proof.
  unfold wrap_int, INT_MIN, INT_MAX. intros H. rewrite Z.mod_small; lia.
Qed.

(** At the largest [int] the sum is reduced to the smallest one. *)
Lemma GetNumProcesses_at_INT_MAX st c :
  client_ st = Some c ->
  foldl (fun m d => Z.max m (process_index d)) (client_process_index c) (devices c)
    = INT_MAX ->
  GetNumProcesses st = Returned (INT_MIN, st).
Proof.
  intros Hc Hmax. unfold GetNumProcesses, bind, the_client. rewrite Hc. cbn.
  rewrite Hmax. reflexivity.
Qed.

(** X7. With the process indices of the client and of its devices in the
    range of [int] and below its largest value, [GetNumProcesses] returns
    one more than the largest of them: every such index is below the
    result, and the result minus one is one of them. *)
Theorem X7_GetNumProcesses st c :
  client_ st = Some c ->
  INT_MIN <= client_process_index c < INT_MAX ->
  (forall d, d ∈ devices c -> INT_MIN <= process_index d < INT_MAX) ->
  exists n,
    GetNumProcesses st = Returned (n, st) /\
    client_process_index c < n /\
    (forall d, d ∈ devices c -> process_index d < n) /\
    (n - 1 = client_process_index c \/
     exists d, d ∈ devices c /\ process_index d = n - 1).
Proof.
  intros Hc Hself Hdevs. unfold GetNumProcesses, bind, the_client. rewrite Hc. cbn.
  eexists. split; [reflexivity|].
  destruct (foldl_max_spec (devices c) (client_process_index c)) as (Hle & Hall & Hex).
  cbn zeta in Hle, Hall, Hex.
  set (r := foldl (fun m d => Z.max m (process_index d))
                  (client_process_index c) (devices c)) in *.
  assert (Hr : INT_MIN <= r < INT_MAX).
  { destruct Hex as [->|(d & Hd & <-)]; [done|by apply Hdevs]. }
  rewrite wrap_int_in_range by lia.
  split; [lia|]. split.
  - intros d Hd. specialize (Hall d Hd). lia.
  - destruct Hex as [Hr'|(d & Hd & Hr')]; [left; lia|].
    right. exists d. split; [done|lia].
Qed.

Lemma X7_witness :
  GetNumProcesses (Sample.started Sample.a_client)
    = Returned (1, Sample.started Sample.a_client).
Proof.
  destruct (X7_GetNumProcesses (Sample.started Sample.a_client) Sample.a_client eq_refl)
    as (n & Hn & _).
  - vm_compute. by split.
  - intros d Hd.
    assert (Hp : process_index d = 0).
    { cbn in Hd. apply elem_of_cons in Hd as [->|Hd]; [done|].
      apply elem_of_cons in Hd as [->|Hd]; [done|]. by apply elem_of_nil in Hd. }
    rewrite Hp. vm_compute. by split.
  - rewrite Hn. vm_compute in Hn. by injection Hn as <-.
Defined.

(** ** Shards of a handle *)

(** A loop whose body leaves the client as it is. *)
Lemma for_each_push_inv {A B} (l : list A) (body : A -> M B) st ys st' :
  (forall x s y s', body x s = Returned (y, s') -> s' = s) ->
  for_each_push l body st = Returned (ys, st') ->
  st' = st /\ Forall2 (fun x y => body x st = Returned (y, st)) l ys.
Proof.
  intros Hbody. revert ys st'. induction l as [|x l IH]; intros ys st' H.
  - cbn in H. injection H as <- <-. by split.
  - cbn [for_each_push] in H.
    apply bind_inv in H as (y & st1 & Hy & H).
    pose proof (Hbody _ _ _ _ Hy) as ->.
    apply bind_inv in H as (ys' & st2 & Hys & H).
    apply IH in Hys as [-> Hall]. injection H as <- <-.
    split; [done|]. by constructor.
Qed.

Lemma lift_from_buffer_inv dev buf sharding st h st' :
  lift (IfrtData_from_buffer dev buf sharding) st = Returned (h, st') ->
  st' = st /\
  exists a, buf = Some a /\
    h = MakeIfrtData dev (MakeShape (array_dtype a) (array_shape a)) (Some a) sharding.
Proof.
  destruct buf as [a|]; cbn; [|done]. intros [= <- <-]. split; [done|]. by exists a.
Qed.

(** X8. When [GetDataShards] returns, the client is as before.  An
    unsharded handle is its own single shard.  The shards of a sharded
    handle are unsharded handles that hold a buffer, one per array of the
    disassembly and in its order, each on the string of the first device
    of its array.  In both cases a returned shard is again its own single
    shard. *)
Theorem X8_GetDataShards_flat data st shards st' :
  GetDataShards data st = Returned (shards, st') ->
  st' = st /\
  (HasSharding data = false -> shards = [data]) /\
  (HasSharding data = true ->
   exists c buf arrays,
     client_ st = Some c /\ buffer data = Some buf /\
     DisassembleIntoSingleDeviceArrays c buf = OkValue arrays /\
     Forall2 (fun array shard =>
                buffer shard = Some array /\
                sharding_ shard = None /\
                shape shard = MakeShape (array_dtype array) (array_shape array) /\
                exists d0, head (array_devices array) = Some d0 /\
                  PjRtDeviceToString d0 st = Returned (device shard, st))
             arrays shards) /\
  (forall shard, shard ∈ shards -> GetDataShards shard st = Returned ([shard], st)).
Proof.
  unfold GetDataShards. destruct (HasSharding data) eqn:Hsh.
  - intros H.
    apply bind_inv in H as (c & st1 & Hc & H). apply the_client_inv in Hc as [Hc ->].
    apply bind_inv in H as (buf & st1 & Hbuf & H). apply deref_inv in Hbuf as [Hbuf ->].
    apply bind_inv in H as (arrays & st1 & Harr & H). apply value_inv in Harr as [Harr ->].
    apply for_each_push_inv in H as [-> Hall]; cycle 1.
    { intros array s y s' Hy.
      apply bind_inv in Hy as (d0 & s1 & Hd0 & Hy). apply deref_inv in Hd0 as [_ ->].
      apply bind_inv in Hy as (dev & s1 & Hdev & Hy).
      apply PjRtDeviceToString_state in Hdev as ->.
      cbn in Hy. by injection Hy as _ <-. }
    assert (Hshards : Forall2 (fun array shard =>
                buffer shard = Some array /\
                sharding_ shard = None /\
                shape shard = MakeShape (array_dtype array) (array_shape array) /\
                exists d0, head (array_devices array) = Some d0 /\
                  PjRtDeviceToString d0 st = Returned (device shard, st))
             arrays shards).
    { eapply Forall2_impl; [exact Hall|]. cbn. intros array shard Hy.
      apply bind_inv in Hy as (d0 & s1 & Hd0 & Hy). apply deref_inv in Hd0 as [Hd0 ->].
      apply bind_inv in Hy as (dev & s1 & Hdev & Hy).
      pose proof (PjRtDeviceToString_state _ _ _ _ Hdev) as ->.
      cbn in Hy. injection Hy as <-.
      cbn. do 3 (split; [done|]). by exists d0. }
    split; [done|]. split; [done|]. split.
    + intros _. by exists c, buf, arrays.
    + intros shard Hin. apply list_elem_of_lookup in Hin as [i Hi].
      destruct (Forall2_lookup_r _ _ _ _ _ Hshards Hi) as (array & _ & _ & Hnone & _).
      unfold HasSharding. by rewrite Hnone.
  - intros [= <- <-]. split; [done|]. split; [done|]. split; [done|].
    intros shard Hin. apply list_elem_of_singleton in Hin as ->. by rewrite Hsh.
Qed.

Lemma X8_witness :
  let data := MakeIfrtData "SPMD:0" (Sample.f32 [2])
                (Some (MakeArray F32 [2] Sample.two_devices [5; 6])) (Some (OTHER [2])) in
  let st := Sample.started Sample.a_client in
  exists shard1 shard0,
    GetDataShards data st = Returned ([shard1; shard0], st) /\
    device shard1 = "TPU:1" /\ device shard0 = "TPU:0" /\
    GetDataShards shard1 st = Returned ([shard1], st).
Proof.
  intros data st.
  pose (shard1 := MakeIfrtData "TPU:1" (Sample.f32 [2])
                    (Some (MakeArray F32 [2] [Sample.tpu 7] [5; 6])) None).
  pose (shard0 := MakeIfrtData "TPU:0" (Sample.f32 [2])
                    (Some (MakeArray F32 [2] [Sample.tpu 3] [5; 6])) None).
  assert (H : GetDataShards data st = Returned ([shard1; shard0], st)) by reflexivity.
  exists shard1, shard0. split; [exact H|]. split; [reflexivity|]. split; [reflexivity|].
  destruct (X8_GetDataShards_flat data st _ _ H) as (_ & _ & _ & Hflat).
  apply Hflat. apply list_elem_of_In. left. reflexivity.
Defined.

(** ** Wrapping shards *)

Lemma collect_shards_pure shards st :
  collect_shards shards st =
  match mapM (fun s => array_shape <$> buffer s) shards with
  | Some shard_shapes => Returned ((buffer <$> shards, shard_shapes), st)
  | None => Undefined
  end.
Proof.
  unfold collect_shards.
  assert (H : forall st, for_each_push shards (fun ifrt_shard =>
                let* buf := deref (buffer ifrt_shard) in ret (array_shape buf)) st =
              match mapM (fun s => array_shape <$> buffer s) shards with
              | Some shard_shapes => Returned (shard_shapes, st)
              | None => Undefined
              end).
  { induction shards as [|s shards IH]; intros st0; [done|].
    cbn [for_each_push mapM]. unfold bind at 1.
    destruct (buffer s) as [a|]; cbn; [|done].
    unfold bind. rewrite IH. by destruct (mapM _ shards). }
  unfold bind. rewrite H. by destruct (mapM _ shards).
Qed.

(** X9. When [WrapDataShards] returns, the client is as before and the
    handle has the device, shape and sharding it was given.  Either the
    list of shards was empty and the handle holds no buffer, or every shard
    holds a buffer, there is one shard per addressable device, and the
    buffer of the handle is what the assembler returned for the buffers of
    the shards, in order, over all addressable devices. *)
Theorem X9_WrapDataShards_returns shards dev sh sharding st handle st' :
  WrapDataShards shards dev sh sharding st = Returned (handle, st') ->
  st' = st /\
  device handle = dev /\ shape handle = sh /\ sharding_ handle = Some sharding /\
  (shards = [] /\ buffer handle = None \/
   exists c shard_shapes sharded_array,
     shards <> [] /\
     client_ st = Some c /\
     length shards = length (addressable_devices c) /\
     mapM (fun s => array_shape <$> buffer s) shards = Some shard_shapes /\
     AssembleArrayFromSingleDeviceArrays c (dimensions sh)
       (ConcreteSharding_Create (addressable_devices c) (dimensions sh) shard_shapes)
       (buffer <$> shards) = OkValue sharded_array /\
     buffer handle = Some sharded_array).
Proof.
  unfold WrapDataShards. case_bool_decide as Hlen.
  - intros [= <- <-]. do 4 (split; [done|]). left.
    split; [by destruct shards|done].
  - intros H. apply bind_inv in H as ([arrays shard_shapes] & st1 & Hcol & H).
    rewrite collect_shards_pure in Hcol.
    destruct (mapM _ shards) as [shapes|] eqn:Hshapes; [|done].
    injection Hcol as <- <- <-.
    apply bind_inv in H as (c & st1 & Hc & H). apply the_client_inv in Hc as [Hc ->].
    apply bind_inv in H as ([] & st1 & Hcheck & H).
    apply XLA_CHECK_inv in Hcheck as [Hcheck ->].
    apply bool_decide_eq_true_1 in Hcheck.
    apply bind_inv in H as (arr & st1 & Harr & H). apply value_inv in Harr as [Harr ->].
    injection H as <- <-. do 4 (split; [done|]). right.
    exists c, shapes, arr. split; [by intros ->|]. split; [done|].
    split; [by rewrite (length_mapM _ _ _ Hshapes)|]. done.
Qed.

Lemma X9_witness :
  let shard1 := MakeIfrtData "TPU:1" (Sample.f32 [1])
                  (Some (MakeArray F32 [1] [Sample.tpu 7] [5])) None in
  let shard0 := MakeIfrtData "TPU:0" (Sample.f32 [1])
                  (Some (MakeArray F32 [1] [Sample.tpu 3] [6])) None in
  let st := Sample.started Sample.a_strict_client in
  exists handle,
    WrapDataShards [shard1; shard0] "SPMD:0" (Sample.f32 [2]) (OTHER [2]) st
      = Returned (handle, st) /\
    device handle = "SPMD:0" /\
    sharding_ handle = Some (OTHER [2]).
Proof.
  intros shard1 shard0 st.
  pose (handle := MakeIfrtData "SPMD:0" (Sample.f32 [2])
                    (Some (MakeArray F32 [2] Sample.two_devices [5; 6]))
                    (Some (OTHER [2]))).
  assert (H : WrapDataShards [shard1; shard0] "SPMD:0" (Sample.f32 [2]) (OTHER [2]) st
              = Returned (handle, st)) by reflexivity.
  exists handle. split; [exact H|].
  destruct (X9_WrapDataShards_returns _ _ _ _ _ _ _ H) as (_ & Hdev & _ & Hsharding & _).
  split; [exact Hdev|exact Hsharding].
Defined.

(** X10. [WrapDataShards] on a non-empty list of shards fails without a
    result in two ways the caller controls: a shard without a buffer is
    dereferenced (no defined behaviour), and a number of shards that
    differs from the number of addressable devices fails the check of the
    shard count. *)
Theorem X10_WrapDataShards_failures shards dev sh sharding st :
  shards <> [] ->
  (Exists (fun s => buffer s = None) shards ->
   WrapDataShards shards dev sh sharding st = Undefined) /\
  (forall c,
     Forall (fun s => HasValue s = true) shards ->
     client_ st = Some c ->
     length shards <> length (addressable_devices c) ->
     WrapDataShards shards dev sh sharding st
       = Fatal "Check failed: shard_shapes.size() == devices_list.size()").
Proof.
  intros Hne. unfold WrapDataShards.
  rewrite bool_decide_eq_false_2 by (by destruct shards).
  split.
  - intros Hex. unfold bind at 1. rewrite collect_shards_pure.
    assert (mapM (fun s => array_shape <$> buffer s) shards = None) as ->; [|done].
    apply mapM_None. eapply Exists_impl; [exact Hex|]. cbn. by intros s ->.
  - intros c Hall Hc Hlen. unfold bind at 1. rewrite collect_shards_pure.
    destruct (mapM (fun s => array_shape <$> buffer s) shards) as [shapes|] eqn:Hshapes.
    + unfold bind, the_client. rewrite Hc. cbn. unfold XLA_CHECK_EQ.
      rewrite bool_decide_eq_false_2; [done|].
      by rewrite <- (length_mapM _ _ _ Hshapes).
    + apply mapM_None in Hshapes. apply Exists_exists in Hshapes as (s & Hs & Hnone).
      rewrite Forall_forall in Hall. specialize (Hall s Hs).
      unfold HasValue in Hall. by destruct (buffer s).
Qed.

Lemma X10_witness :
  let shard1 := MakeIfrtData "TPU:1" (Sample.f32 [1])
                  (Some (MakeArray F32 [1] [Sample.tpu 7] [5])) None in
  let placeholder := IfrtData_placeholder "TPU:0" (Sample.f32 [1]) in
  let st := Sample.started Sample.a_client in
  WrapDataShards [shard1; placeholder] "SPMD:0" (Sample.f32 [2]) (OTHER [2]) st
    = Undefined /\
  WrapDataShards [shard1] "SPMD:0" (Sample.f32 [2]) (OTHER [2]) st
    = Fatal "Check failed: shard_shapes.size() == devices_list.size()".
Proof.
  intros shard1 placeholder st. split.
  - apply (X10_WrapDataShards_failures [shard1; placeholder]); [done|].
    apply Exists_cons_tl, Exists_cons_hd. reflexivity.
  - apply (proj2 (X10_WrapDataShards_failures [shard1] "SPMD:0" (Sample.f32 [2])
                    (OTHER [2]) st ltac:(done)) Sample.a_client).
    + by repeat constructor.
    + reflexivity.
    + cbn. lia.
Defined.

(** ** Transfers to the devices *)

Lemma metrics_only_refl st : metrics_only st st.
Proof. unfold metrics_only. by destruct st. Qed.

Lemma metrics_only_trans st1 st2 st3 :
  metrics_only st1 st2 -> metrics_only st2 st3 -> metrics_only st1 st3.
Proof. unfold metrics_only. intros -> ->. done. Qed.

Lemma metrics_only_report f st u st' :
  report f st = Returned (u, st') -> metrics_only st st'.
Proof. unfold report, modify, metrics_only. by intros [= _ <-]. Qed.

Lemma metrics_only_client st st' :
  metrics_only st st' ->
  client_ st' = client_ st /\ global_ordinals_ st' = global_ordinals_ st /\
  string_to_device_ st' = string_to_device_ st /\
  coordinator_ st' = coordinator_ st /\ base st' = base st.
Proof. unfold metrics_only. by intros ->. Qed.

Lemma counter_AddValue name name' v m :
  counter name (AddValue name' v m) =
  counter name m + (if decide (name' = name) then v else 0).
Proof.
  unfold counter, AddValue. cbn. case_decide as Hn.
  - subst. by rewrite lookup_insert_eq.
  - rewrite lookup_insert_ne by done. lia.
Qed.

Lemma counter_AddSample name name' v m :
  counter name (AddSample name' v m) = counter name m.
Proof. done. Qed.

Lemma TransferToServer_unfold tensors :
  TransferToServer tensors =
  (let* (datas, total_size) := for_each_acc tensors ([], 0) transfer_one in
   let* _ := report (AddSample "OutboundData" total_size) in
   let* _ := report (AddValue "CreateDataHandles" (Z.of_nat (length datas))) in
   ret datas).
Proof. reflexivity. Qed.

Lemma transfer_one_Some datas total tensor st data :
  transferred st tensor = Some data ->
  transfer_one (datas, total) tensor st
    = Returned ((datas ++ [data], wrap_int64 (total + ByteSizeOf (ts_shape tensor))), st).
Proof.
  unfold transferred, transfer_one, StringToPjRtDevice, bind, get, the_client.
  destruct (string_to_device_ st !! ts_device tensor) as [d|]; [|done]. cbn.
  destruct (client_ st) as [c|]; [|done].
  destruct (MakeArrayFromHostBuffer c tensor d); [|done]. by intros [= <-].
Qed.

Lemma transfer_one_None datas total tensor st :
  transferred st tensor = None ->
  is_returned (transfer_one (datas, total) tensor st) = false.
Proof.
  unfold transferred, transfer_one, StringToPjRtDevice, bind, get, the_client.
  destruct (string_to_device_ st !! ts_device tensor) as [d|]; [|done]. cbn.
  destruct (client_ st) as [c|]; [|done].
  by destruct (MakeArrayFromHostBuffer c tensor d).
Qed.

Lemma transfer_loop_Some tensors datas0 total0 st new :
  mapM (transferred st) tensors = Some new ->
  for_each_acc tensors (datas0, total0) transfer_one st
    = Returned ((datas0 ++ new, total_size_from total0 (ts_shape <$> tensors)), st).
Proof.
  revert datas0 total0 new. induction tensors as [|t tensors IH]; intros datas0 total0 new.
  - intros [= <-]. cbn. by rewrite app_nil_r.
  - cbn [mapM]. destruct (transferred st t) as [data|] eqn:Ht; [|done]. cbn.
    destruct (mapM (transferred st) tensors) as [rest|] eqn:Hrest; [|done].
    intros [= <-]. cbn [for_each_acc].
    rewrite (bind_Returned _ _ _ _ _ (transfer_one_Some datas0 total0 t st data Ht)).
    rewrite (IH _ _ rest eq_refl). rewrite <- app_assoc. reflexivity.
Qed.

(** Byte sizes that are not negative and whose sum fits are summed
    exactly. *)
Lemma total_size_from_exact shapes acc :
  Forall (fun sh => 0 <= ByteSizeOf sh) shapes ->
  0 <= acc ->
  acc + total_bytes shapes <= INT64_MAX ->
  total_size_from acc shapes = acc + total_bytes shapes.
Proof.
  intros Hall. revert acc. induction Hall as [|sh shapes Hsh Hall IH]; intros acc Hacc Hsum.
  - cbn. lia.
  - cbn [total_size_from foldl total_bytes foldr] in *. fold (total_bytes shapes) in *.
    assert (Hrest : 0 <= total_bytes shapes).
    { clear -Hall. induction Hall as [|x l Hx Hl IHl]; cbn; [lia|].
      fold (total_bytes l). lia. }
    assert (Hw : wrap_int64 (acc + ByteSizeOf sh) = acc + ByteSizeOf sh).
    { unfold wrap_int64, INT64_MIN, INT64_MAX in *. rewrite Z.mod_small; lia. }
    rewrite Hw. fold (total_size_from (acc + ByteSizeOf sh) shapes).
    rewrite IH; lia.
Qed.

Lemma bind_not_returned {A B} (m : M A) (k : A -> M B) st :
  is_returned (m st) = false -> is_returned (bind m k st) = false.
Proof. unfold bind. by destruct (m st) as [[]| | |]. Qed.

Lemma transfer_loop_None tensors datas0 total0 st :
  mapM (transferred st) tensors = None ->
  is_returned (for_each_acc tensors (datas0, total0) transfer_one st) = false.
Proof.
  revert datas0 total0. induction tensors as [|t tensors IH]; intros datas0 total0; [done|].
  cbn [mapM for_each_acc]. destruct (transferred st t) as [data|] eqn:Ht.
  - destruct (mapM (transferred st) tensors) eqn:Hrest; [done|]. intros _.
    rewrite (bind_Returned _ _ _ _ _ (transfer_one_Some datas0 total0 t st data Ht)).
    by apply IH.
  - intros _. apply bind_not_returned. by apply transfer_one_None.
Qed.

(** [TransferToServer], in full: the handles are those of [transferred],
    and the two metrics are reported at the end. *)
Lemma TransferToServer_inv tensors st datas st' :
  TransferToServer tensors st = Returned (datas, st') ->
  mapM (transferred st) tensors = Some datas /\
  st' = set_metrics
          (AddValue "CreateDataHandles" (Z.of_nat (length tensors))
             (AddSample "OutboundData" (total_size_from 0 (ts_shape <$> tensors))
                (metrics st))) st.
Proof.
  rewrite TransferToServer_unfold. intros H.
  destruct (mapM (transferred st) tensors) as [new|] eqn:Hnew.
  - rewrite (bind_Returned _ _ _ _ _ (transfer_loop_Some tensors [] 0 st new Hnew)) in H.
    cbn in H. injection H as <- <-. split; [done|].
    rewrite (length_mapM _ _ _ Hnew). by destruct st.
  - pose proof (bind_not_returned _
        (fun acc : list IfrtData * Z =>
           let '(datas, total_size) := acc in
           let* _ := report (AddSample "OutboundData" total_size) in
           let* _ := report (AddValue "CreateDataHandles" (Z.of_nat (length datas))) in
           ret datas)
        st (transfer_loop_None tensors [] 0 st Hnew)) as Hno.
    by rewrite H in Hno.
Qed.

Lemma TransferToServer_Some tensors st datas :
  mapM (transferred st) tensors = Some datas ->
  TransferToServer tensors st =
  Returned (datas,
    set_metrics
      (AddValue "CreateDataHandles" (Z.of_nat (length tensors))
         (AddSample "OutboundData" (total_size_from 0 (ts_shape <$> tensors))
            (metrics st))) st).
Proof.
  intros Hm. rewrite TransferToServer_unfold.
  rewrite (bind_Returned _ _ _ _ _ (transfer_loop_Some tensors [] 0 st datas Hm)).
  cbn. rewrite (length_mapM _ _ _ Hm). by destruct st.
Qed.

(** X11. When [TransferToServer] returns, there is one handle per tensor,
    in the order of the tensors: an unsharded handle with the device
    string and the shape of the tensor, holding the buffer the runtime
    made for it on the registered device of that string.  The client
    changes in its metrics only; the count of handles grows by the number
    of tensors and no other counter moves; and when the byte sizes of the
    tensors are not negative and their sum is within [int64_t], that sum
    is the last sample of the outbound metric.  If the device of some
    tensor is not registered, the call returns nothing. *)
Theorem X11_TransferToServer tensors st :
  (forall datas st',
     TransferToServer tensors st = Returned (datas, st') ->
     Forall2 (fun t d =>
                exists c pjrt_device buf,
                  client_ st = Some c /\
                  string_to_device_ st !! ts_device t = Some pjrt_device /\
                  MakeArrayFromHostBuffer c t pjrt_device = OkValue buf /\
                  d = MakeIfrtData (ts_device t) (ts_shape t) (Some buf) None)
             tensors datas /\
     metrics_only st st' /\
     (forall name,
        counter name (metrics st') =
        counter name (metrics st) +
        (if decide (name = "CreateDataHandles")
         then Z.of_nat (length tensors) else 0)) /\
     (Forall (fun t => 0 <= ByteSizeOf (ts_shape t)) tensors ->
      total_bytes (ts_shape <$> tensors) <= INT64_MAX ->
      exists earlier,
        samples (metrics st') !! "OutboundData"
          = Some (earlier ++ [total_bytes (ts_shape <$> tensors)]))) /\
  (Exists (fun t => string_to_device_ st !! ts_device t = None) tensors ->
   is_returned (TransferToServer tensors st) = false).
Proof.
  assert (Hinv : forall datas st',
     TransferToServer tensors st = Returned (datas, st') ->
     Forall2 (fun t d =>
                exists c pjrt_device buf,
                  client_ st = Some c /\
                  string_to_device_ st !! ts_device t = Some pjrt_device /\
                  MakeArrayFromHostBuffer c t pjrt_device = OkValue buf /\
                  d = MakeIfrtData (ts_device t) (ts_shape t) (Some buf) None)
             tensors datas).
  { intros datas st' H. apply TransferToServer_inv in H as [Hm ->].
    apply mapM_Some_1 in Hm. eapply Forall2_impl; [exact Hm|]. cbn.
    intros t d Ht. unfold transferred in Ht.
    destruct (string_to_device_ st !! ts_device t) as [dev|]; [|done].
    destruct (client_ st) as [c|]; [|done].
    destruct (MakeArrayFromHostBuffer c t dev) as [buf|] eqn:Hbuf; [|done].
    injection Ht as <-. by exists c, dev, buf. }
  split.
  - intros datas st' H. split; [by eapply Hinv|].
    apply TransferToServer_inv in H as [_ ->]. split; [done|]. split.
    + intros name. cbn [metrics set_metrics].
      rewrite counter_AddValue, counter_AddSample.
      repeat case_decide; congruence.
    + intros Hpos Hfit. rewrite total_size_from_exact; [|by rewrite Forall_fmap|lia|lia].
      rewrite Z.add_0_l.
      exists (default [] (samples (metrics st) !! "OutboundData")).
      cbn. by rewrite lookup_insert_eq.
  - intros Hex.
    destruct (TransferToServer tensors st) as [[datas st']| | |] eqn:H; [|done..].
    pose proof (Hinv datas st' eq_refl) as Hall.
    apply Exists_exists in Hex as (t & Ht & Hnone).
    apply list_elem_of_lookup in Ht as [i Hi].
    destruct (Forall2_lookup_l _ _ _ _ _ Hall Hi) as (d & _ & c & dev & buf & _ & Hsome & _).
    congruence.
Qed.

Lemma X11_witness :
  let t0 := MakeTensorSource "TPU:0" (Sample.f32 [2]) [1; 2] in
  let t1 := MakeTensorSource "TPU:1" (Sample.f32 [3]) [3; 4; 5] in
  let lost := MakeTensorSource "TPU:9" (Sample.f32 [1]) [0] in
  let st := Sample.started Sample.a_client in
  (exists datas st',
     TransferToServer [t0; t1] st = Returned (datas, st') /\
     device <$> datas = ["TPU:0"; "TPU:1"] /\
     counter "CreateDataHandles" (metrics st') = 2 /\
     exists earlier, samples (metrics st') !! "OutboundData" = Some (earlier ++ [20])) /\
  is_returned (TransferToServer [t0; lost] st) = false.
Proof.
  intros t0 t1 lost st.
  destruct (X11_TransferToServer [t0; t1] st) as [Hret _].
  destruct (X11_TransferToServer [t0; lost] st) as [_ Hlost].
  split.
  - assert (Hsome : is_returned (TransferToServer [t0; t1] st) = true)
      by (vm_compute; reflexivity).
    destruct (TransferToServer [t0; t1] st) as [[datas st']| | |];
      try discriminate.
    exists datas, st'. split; [reflexivity|].
    destruct (Hret datas st' eq_refl) as (Hall & _ & Hcount & Hsample).
    split; [|split].
    + apply Forall2_cons_inv_l in Hall
        as (d0 & ds & (c0 & dev0 & buf0 & _ & _ & _ & ->) & Hall & ->).
      apply Forall2_cons_inv_l in Hall
        as (d1 & ds' & (c1 & dev1 & buf1 & _ & _ & _ & ->) & Hall & ->).
      apply Forall2_nil_inv_l in Hall as ->. reflexivity.
    + rewrite Hcount. vm_compute. reflexivity.
    + apply Hsample.
      * repeat constructor; vm_compute; discriminate.
      * vm_compute. discriminate.
  - apply Hlost. apply Exists_cons_tl, Exists_cons_hd. vm_compute. reflexivity.
Defined.

(** X12. For a non-empty list of host shards, one per addressable device,
    [TransferShardsToServer] is [TransferToServer] followed by
    [WrapDataShards] on the handles it returned: same result, same final
    state of the client, and the same failure when the assembler
    refuses. *)
Theorem X12_TransferShardsToServer_composes
    tensor_shards dev sh sharding st datas st1 c :
  TransferToServer tensor_shards st = Returned (datas, st1) ->
  client_ st = Some c ->
  tensor_shards <> [] ->
  length tensor_shards = length (addressable_devices c) ->
  TransferShardsToServer tensor_shards dev sh sharding st
    = WrapDataShards datas dev sh sharding st1.
Proof.
  intros Htransfer Hc Hne Hlen.
  unfold TransferShardsToServer. rewrite (bind_Returned _ _ _ _ _ Htransfer).
  apply TransferToServer_inv in Htransfer as [Hdatas ->].
  pose proof (length_mapM _ _ _ Hdatas) as Hlen'.
  unfold WrapDataShards. rewrite bool_decide_eq_false_2; cycle 1.
  { rewrite <- Hlen'. destruct tensor_shards; [done|]. cbn. lia. }
  match goal with |- _ ?s = _ => set (st1 := s) end.
  assert (Hc1 : client_ st1 = Some c) by done. clearbody st1.
  unfold bind. rewrite !collect_shards_pure.
  destruct (mapM (fun s => array_shape <$> buffer s) datas) as [shapes|] eqn:Hshapes;
    [|done].
  unfold the_client. rewrite Hc1. unfold XLA_CHECK_EQ.
  rewrite bool_decide_eq_true_2; [done|].
  rewrite <- (length_mapM _ _ _ Hshapes). congruence.
Qed.

Lemma X12_witness :
  let t1 := MakeTensorSource "TPU:1" (Sample.f32 [1]) [5] in
  let t0 := MakeTensorSource "TPU:0" (Sample.f32 [1]) [6] in
  let st := Sample.started Sample.a_strict_client in
  exists datas st1,
    TransferToServer [t1; t0] st = Returned (datas, st1) /\
    TransferShardsToServer [t1; t0] "SPMD:0" (Sample.f32 [2]) (OTHER [2]) st
      = WrapDataShards datas "SPMD:0" (Sample.f32 [2]) (OTHER [2]) st1.
Proof.
  intros t1 t0 st.
  assert (Hsome : is_returned (TransferToServer [t1; t0] st) = true)
    by (vm_compute; reflexivity).
  destruct (TransferToServer [t1; t0] st) as [[datas st1]| | |] eqn:H;
    try discriminate.
  exists datas, st1. split; [reflexivity|].
  apply (X12_TransferShardsToServer_composes [t1; t0] "SPMD:0" (Sample.f32 [2])
           (OTHER [2]) st datas st1 Sample.a_strict_client H);
    [reflexivity|done|reflexivity].
Defined.

(** ** Transfers of shards: the number of shards *)

Lemma bind_is_fatal {A B} (m : M A) (k : A -> M B) st :
  is_fatal (m st) = true -> is_fatal (bind m k st) = true.
Proof. unfold bind. by destruct (m st) as [[]| | |]. Qed.

(** With a client at hand, a tensor that is not transferred ends the call
    in a fatal failure: its device is unknown, or the runtime refused to
    make the array. *)
Lemma transfer_one_fatal datas total tensor st c :
  client_ st = Some c ->
  transferred st tensor = None ->
  is_fatal (transfer_one (datas, total) tensor st) = true.
Proof.
  intros Hc. unfold transferred, transfer_one, StringToPjRtDevice, bind, get, the_client.
  rewrite Hc.
  destruct (string_to_device_ st !! ts_device tensor) as [d|]; [|done]. cbn.
  rewrite Hc. by destruct (MakeArrayFromHostBuffer c tensor d).
Qed.

Lemma transfer_loop_fatal tensors datas0 total0 st c :
  client_ st = Some c ->
  mapM (transferred st) tensors = None ->
  is_fatal (for_each_acc tensors (datas0, total0) transfer_one st) = true.
Proof.
  intros Hc.
  revert datas0 total0. induction tensors as [|t tensors IH]; intros datas0 total0; [done|].
  cbn [mapM for_each_acc]. destruct (transferred st t) as [data|] eqn:Ht.
  - destruct (mapM (transferred st) tensors) eqn:Hrest; [done|]. intros _.
    rewrite (bind_Returned _ _ _ _ _ (transfer_one_Some datas0 total0 t st data Ht)).
    by apply IH.
  - intros _. apply bind_is_fatal. by eapply transfer_one_fatal.
Qed.

Lemma TransferToServer_fatal tensors st c :
  client_ st = Some c ->
  mapM (transferred st) tensors = None ->
  is_fatal (TransferToServer tensors st) = true.
Proof.
  intros Hc Hm. rewrite TransferToServer_unfold.
  apply bind_is_fatal. by eapply transfer_loop_fatal.
Qed.

(** Every handle [TransferToServer] makes holds a buffer. *)
Lemma transferred_buffers st tensors (datas : list IfrtData) :
  mapM (transferred st) tensors = Some datas ->
  exists arrays : list Array, buffer <$> datas = Some <$> arrays.
Proof.
  intros Hm. apply mapM_Some_1 in Hm.
  induction Hm as [|t d tensors datas Ht _ (arrays & IH)]; [by exists []|].
  unfold transferred in Ht.
  destruct (string_to_device_ st !! ts_device t) as [dev|]; [|done].
  destruct (client_ st) as [c|]; [|done].
  destruct (MakeArrayFromHostBuffer c t dev) as [buf|]; [|done].
  injection Ht as <-. exists (buf :: arrays). cbn. by rewrite IH.
Qed.

Lemma shard_shapes_of_buffers (datas : list IfrtData) (arrays : list Array) :
  buffer <$> datas = Some <$> arrays ->
  mapM (fun s => array_shape <$> buffer s) datas = Some (array_shape <$> arrays).
Proof.
  revert arrays. induction datas as [|d datas IH]; intros [|a arrays] H; try done.
  cbn in H. injection H as Hd H. cbn. rewrite Hd. cbn. by rewrite (IH _ H).
Qed.

(** [TransferShardsToServer], when the shards were transferred: the
    buffers of the handles and their shapes go to the assembler, together
    with all addressable devices, and [.value()] is taken of the result. *)
Lemma TransferShardsToServer_assembles tensor_shards dev sh sharding st c
    datas st1 arrays :
  client_ st = Some c ->
  TransferToServer tensor_shards st = Returned (datas, st1) ->
  buffer <$> datas = Some <$> arrays ->
  TransferShardsToServer tensor_shards dev sh sharding st =
  match AssembleArrayFromSingleDeviceArrays c (dimensions sh)
          (ConcreteSharding_Create (addressable_devices c) (dimensions sh)
                                   (array_shape <$> arrays))
          (Some <$> arrays) with
  | OkValue sharded_array =>
      Returned (MakeIfrtData dev sh (Some sharded_array) (Some sharding), st1)
  | NotOk msg => Fatal msg
  end.
Proof.
  intros Hc Htransfer Hbuf.
  unfold TransferShardsToServer. rewrite (bind_Returned _ _ _ _ _ Htransfer).
  apply TransferToServer_inv in Htransfer as [_ ->].
  match goal with |- _ ?s = _ => set (st1 := s) end.
  assert (Hc1 : client_ st1 = Some c) by done. clearbody st1.
  unfold bind. rewrite collect_shards_pure, (shard_shapes_of_buffers _ _ Hbuf).
  unfold the_client. rewrite Hc1, Hbuf.
  by destruct (AssembleArrayFromSingleDeviceArrays c _ _ _).
Qed.

(** C3.  [TransferShardsToServer] makes no check of its own of the number
    of shards: it hands the per-shard buffers and all addressable devices
    to the assembler of the runtime and takes [.value()] of what the
    assembler answers.  On a runtime whose assembler rejects a number of
    arrays other than the number of devices of the sharding, a number of
    shards other than the number of addressable devices therefore makes
    the call fail fatally.  When the call returns, the numbers agree, each
    shard was transferred by [TransferToServer], and the handle holds the
    array assembled from the per-shard buffers, under the given shape and
    sharding; and the call does return that handle whenever
    [TransferToServer] returns and the assembler accepts the buffers. *)
Theorem C3_TransferShardsToServer_checks_count
    tensor_shards dev sh sharding st c :
  client_ st = Some c ->
  assembler_checks_count c ->
  (length tensor_shards <> length (addressable_devices c) ->
   is_fatal (TransferShardsToServer tensor_shards dev sh sharding st) = true) /\
  (forall handle st',
     TransferShardsToServer tensor_shards dev sh sharding st = Returned (handle, st') ->
     length tensor_shards = length (addressable_devices c) /\
     exists datas arrays sharded_array,
       TransferToServer tensor_shards st = Returned (datas, st') /\
       buffer <$> datas = Some <$> arrays /\
       AssembleArrayFromSingleDeviceArrays c (dimensions sh)
         (ConcreteSharding_Create (addressable_devices c) (dimensions sh)
                                  (array_shape <$> arrays))
         (Some <$> arrays) = OkValue sharded_array /\
       handle = MakeIfrtData dev sh (Some sharded_array) (Some sharding)) /\
  (forall datas st1 arrays sharded_array,
     TransferToServer tensor_shards st = Returned (datas, st1) ->
     buffer <$> datas = Some <$> arrays ->
     AssembleArrayFromSingleDeviceArrays c (dimensions sh)
       (ConcreteSharding_Create (addressable_devices c) (dimensions sh)
                                (array_shape <$> arrays))
       (Some <$> arrays) = OkValue sharded_array ->
     TransferShardsToServer tensor_shards dev sh sharding st
       = Returned (MakeIfrtData dev sh (Some sharded_array) (Some sharding), st1)).
Proof.
  intros Hc Hstrict.
  assert (Hcases :
    is_fatal (TransferToServer tensor_shards st) = true \/
    exists datas st1 arrays,
      TransferToServer tensor_shards st = Returned (datas, st1) /\
      buffer <$> datas = Some <$> arrays /\
      length arrays = length tensor_shards).
  { destruct (mapM (transferred st) tensor_shards) as [datas|] eqn:Hm.
    - right. destruct (transferred_buffers _ _ _ Hm) as [arrays Hbuf].
      eexists datas, _, arrays. split; [by apply TransferToServer_Some|]. split; [done|].
      pose proof (length_mapM _ _ _ Hm) as Hl.
      pose proof (f_equal length Hbuf) as Hl'. rewrite !length_fmap in Hl'. congruence.
    - left. by eapply TransferToServer_fatal. }
  assert (Hmismatch :
    length tensor_shards <> length (addressable_devices c) ->
    is_fatal (TransferShardsToServer tensor_shards dev sh sharding st) = true).
  { intros Hne. destruct Hcases as [Hfatal|(datas & st1 & arrays & Ht & Hbuf & Hlen)].
    - unfold TransferShardsToServer. by apply bind_is_fatal.
    - rewrite (TransferShardsToServer_assembles _ dev sh sharding _ _ _ _ _ Hc Ht Hbuf).
      destruct (Hstrict (dimensions sh)
                  (ConcreteSharding_Create (addressable_devices c) (dimensions sh)
                                           (array_shape <$> arrays))
                  (Some <$> arrays)) as [msg Hmsg].
      { rewrite length_fmap. cbn. congruence. }
      by rewrite Hmsg. }
  split; [exact Hmismatch|]. split.
  - intros handle st' H.
    destruct (decide (length tensor_shards = length (addressable_devices c)))
      as [Hlen|Hne]; cycle 1.
    { apply Hmismatch in Hne. by rewrite H in Hne. }
    split; [done|].
    destruct Hcases as [Hfatal|(datas & st1 & arrays & Ht & Hbuf & _)].
    { unfold TransferShardsToServer in H.
      pose proof (bind_is_fatal _
        (fun data_shards =>
           let* (arrays, shard_shapes) := collect_shards data_shards in
           let* c := the_client in
           let* sharded_array :=
             value (AssembleArrayFromSingleDeviceArrays c (dimensions sh)
                      (ConcreteSharding_Create (addressable_devices c) (dimensions sh)
                                               shard_shapes) arrays) in
           ret (IfrtData_with_shape dev sh (Some sharded_array) (Some sharding)))
        st Hfatal) as Hf.
      by rewrite H in Hf. }
    rewrite (TransferShardsToServer_assembles _ dev sh sharding _ _ _ _ _ Hc Ht Hbuf) in H.
    destruct (AssembleArrayFromSingleDeviceArrays c _ _ _) as [sharded_array|msg] eqn:Ha;
      [|done].
    injection H as <- <-. by exists datas, arrays, sharded_array.
  - intros datas st1 arrays sharded_array Ht Hbuf Ha.
    rewrite (TransferShardsToServer_assembles _ dev sh sharding _ _ _ _ _ Hc Ht Hbuf).
    by rewrite Ha.
Qed.

(** On the sample client with the strict assembler and two addressable
    devices: one shard is fatal, two shards are assembled. *)
Lemma C3_witness :
  let t0 := MakeTensorSource "TPU:0" (Sample.f32 [1]) [5] in
  let t1 := MakeTensorSource "TPU:1" (Sample.f32 [1]) [6] in
  let st := Sample.started Sample.a_strict_client in
  is_fatal (TransferShardsToServer [t0] "SPMD:0" (Sample.f32 [2]) (OTHER [2]) st) = true /\
  exists handle st',
    TransferShardsToServer [t0; t1] "SPMD:0" (Sample.f32 [2]) (OTHER [2]) st
      = Returned (handle, st') /\
    buffer handle = Some (MakeArray F32 [2] Sample.two_devices [5; 6]).
Proof.
  intros t0 t1 st.
  assert (Hstrict : assembler_checks_count Sample.a_strict_client).
  { intros shape sharding arrays Hne. cbn. unfold Sample.strict_assemble.
    rewrite bool_decide_eq_false_2 by congruence. by eexists. }
  split.
  - apply (C3_TransferShardsToServer_checks_count [t0] "SPMD:0" (Sample.f32 [2])
             (OTHER [2]) st Sample.a_strict_client eq_refl Hstrict).
    vm_compute. discriminate.
  - destruct (C3_TransferShardsToServer_checks_count [t0; t1] "SPMD:0" (Sample.f32 [2])
                (OTHER [2]) st Sample.a_strict_client eq_refl Hstrict)
      as (_ & _ & Hreturns).
    assert (Hsome : is_returned (TransferToServer [t0; t1] st) = true)
      by (vm_compute; reflexivity).
    destruct (TransferToServer [t0; t1] st) as [[datas st1]| | |] eqn:Ht;
      try discriminate.
    eexists _, st1. split.
    + apply (Hreturns datas st1
               [MakeArray F32 [1] [Sample.tpu 3] [5]; MakeArray F32 [1] [Sample.tpu 7] [6]]
               (MakeArray F32 [2] Sample.two_devices [5; 6]) eq_refl).
      * vm_compute in Ht. by injection Ht as <- _.
      * vm_compute. reflexivity.
    + reflexivity.
Defined.

(** ** Compilation *)

(** The positions of the ids in the constructor's order are the
    ordinals. *)
Lemma global_ordinals_positions c m b st :
  NoDup (device_id <$> devices c) ->
  IfrtComputationClient_new c m b = Returned (tt, st) ->
  length (sort_by_id (devices c)) = device_count c /\
  sort_by_id (devices c) ≡ₚ devices c /\
  forall (i : Z) (g : nat),
    global_ordinals_ st !! i = Some g <->
    (device_id <$> sort_by_id (devices c)) !! g = Some i.
Proof.
  intros Hnd Hnew. apply constructor_spec in Hnew as [_ Hord].
  pose proof (sort_by_id_Permutation (devices c)) as Hperm.
  split; [unfold device_count; by rewrite Hperm|]. split; [done|].
  intros i g. rewrite Hord. apply ordinals_from_empty. by rewrite Hperm.
Qed.

(** The column the unsharded branch of [Compile] fills. *)
Lemma unsharded_assignment_spec (n : nat) (m : gmap Z nat) :
  (forall i g, m !! i = Some g -> (g < n)%nat) ->
  (forall i j g, m !! i = Some g -> m !! j = Some g -> i = j) ->
  let da := map_fold (fun device_id global_ordinal da =>
                        DeviceAssignment_set da global_ordinal 0 device_id)
                     (DeviceAssignment_new n 1) m in
  replica_count da = n /\ computation_count da = 1%nat /\
  length (da_rows da) = n /\
  (forall g : nat, (g < n)%nat -> exists v, da_rows da !! g = Some [v]) /\
  forall i g, m !! i = Some g -> da_rows da !! g = Some [i].
Proof.
  intros Hlt Hinj da. subst da. revert Hlt Hinj.
  apply (map_fold_weak_ind (fun da m =>
    (forall i g, m !! i = Some g -> (g < n)%nat) ->
    (forall i j g, m !! i = Some g -> m !! j = Some g -> i = j) ->
    replica_count da = n /\ computation_count da = 1%nat /\
    length (da_rows da) = n /\
    (forall g : nat, (g < n)%nat -> exists v, da_rows da !! g = Some [v]) /\
    forall i g, m !! i = Some g -> da_rows da !! g = Some [i])).
  - intros _ _. cbn. do 2 (split; [done|]). split; [apply length_replicate|]. split.
    + intros g Hg. exists (-1). by apply lookup_replicate_2.
    + intros i g H. by rewrite lookup_empty in H.
  - intros i x m' da Hi IH Hlt Hinj.
    destruct IH as (Hr & Hc & Hlen & Hrows & Hrow).
    { intros j g Hj. apply (Hlt j). rewrite lookup_insert_ne; [done|]. congruence. }
    { intros j1 j2 g H1 H2. apply (Hinj j1 j2 g); rewrite lookup_insert_ne; congruence. }
    assert (Hx : (x < n)%nat) by (apply (Hlt i); by rewrite lookup_insert_eq).
    cbn. do 2 (split; [done|]). split; [by rewrite length_alter|].
    assert (Hatx : alter (fun row => <[0%nat := i]> row) x (da_rows da) !! x = Some [i]).
    { rewrite list_lookup_alter_eq. destruct (Hrows x Hx) as [v ->]. done. }
    split.
    + intros g Hg. destruct (decide (x = g)) as [<-|Hne]; [by exists i|].
      rewrite list_lookup_alter_ne by done. by apply Hrows.
    + intros j g Hj. destruct (decide (i = j)) as [<-|Hne].
      * rewrite lookup_insert_eq in Hj. by injection Hj as <-.
      * rewrite lookup_insert_ne in Hj by done.
        rewrite list_lookup_alter_ne; [by apply Hrow|].
        intros ->. apply Hne. apply (Hinj i j g).
        -- by rewrite lookup_insert_eq.
        -- by rewrite lookup_insert_ne.
Qed.

(** X13. An instance that is not sharded is compiled, on a client with N
    devices of distinct driver ids, with one partition, N replicas, the
    tupling flag of the instance, and a device assignment of N rows and
    one column whose row g holds the driver id of the device with global
    ordinal g. *)
Theorem X13_unsharded_compile_options c m b st0 st instance :
  NoDup (device_id <$> devices c) ->
  IfrtComputationClient_new c m b = Returned (tt, st0) ->
  client_ st = client_ st0 ->
  global_ordinals_ st = global_ordinals_ st0 ->
  is_sharded instance = false ->
  exists options da,
    build_compile_options instance st = Returned (options, st) /\
    num_partitions options = 1%nat /\
    num_replicas options = device_count c /\
    parameter_is_tupled_arguments options
      = instance_parameter_is_tupled_arguments instance /\
    device_assignment options = Some da /\
    replica_count da = device_count c /\
    computation_count da = 1%nat /\
    length (da_rows da) = device_count c /\
    forall g : nat, (g < device_count c)%nat ->
      exists d, d ∈ devices c /\
        global_ordinals_ st !! device_id d = Some g /\
        da_rows da !! g = Some [device_id d] /\
        DeviceAssignment_get da g 0 = Some (device_id d).
Proof.
  intros Hnd Hnew Hc Hord Hsh.
  destruct (global_ordinals_positions c m b st0 Hnd Hnew) as (Hlen & Hperm & Hlook).
  apply constructor_spec in Hnew as [Hc0 _].
  rewrite Hc0 in Hc. rewrite <- Hord in Hlook.
  assert (Hnd' : NoDup (device_id <$> sort_by_id (devices c))) by by rewrite Hperm.
  destruct (unsharded_assignment_spec (device_count c) (global_ordinals_ st))
    as (Hr & Hcc & Hrlen & _ & Hrow).
  { intros i g Hg. apply Hlook in Hg. apply lookup_lt_Some in Hg.
    by rewrite length_fmap, Hlen in Hg. }
  { intros i j g Hi Hj. apply Hlook in Hi, Hj. congruence. }
  eexists _, _. split.
  { unfold build_compile_options, bind, the_client, get. rewrite Hc, Hsh. reflexivity. }
  cbn [num_partitions num_replicas device_assignment parameter_is_tupled_arguments].
  do 7 (split; [done|]).
  intros g Hg.
  destruct (lookup_lt_is_Some_2 (device_id <$> sort_by_id (devices c)) g)
    as [i Hi]; [by rewrite length_fmap, Hlen|].
  pose proof Hi as Hi'. apply list_lookup_fmap_Some in Hi' as (d & -> & Hd).
  exists d. split.
  { rewrite <- Hperm. by eapply list_elem_of_lookup_2. }
  apply Hlook in Hi. split; [done|].
  pose proof (Hrow _ _ Hi) as Hg'. split; [done|].
  unfold DeviceAssignment_get. by rewrite Hg'.
Qed.

Lemma X13_witness :
  let instance :=
    MakeCompileInstance (replicate_computation (Sample.f32 [2]) REPLICATED)
                        "TPU:0" ["TPU:0"] None true false false in
  exists options da,
    build_compile_options instance (Sample.started Sample.a_client)
      = Returned (options, Sample.started Sample.a_client) /\
    num_partitions options = 1%nat /\
    num_replicas options = 2%nat /\
    parameter_is_tupled_arguments options = true /\
    device_assignment options = Some da /\
    da_rows da = [[3]; [7]].
Proof.
  intros instance.
  destruct (X13_unsharded_compile_options Sample.a_client Sample.no_metrics
              Sample.a_base (Sample.started Sample.a_client)
              (Sample.started Sample.a_client) instance)
    as (options & da & Hopt & Hp & Hr & Ht & Hda & _).
  - compute_done.
  - reflexivity.
  - reflexivity.
  - reflexivity.
  - reflexivity.
  - exists options, da. split; [exact Hopt|]. split; [exact Hp|]. split; [exact Hr|].
    split; [exact Ht|]. split; [exact Hda|].
    vm_compute in Hopt. injection Hopt as <-. by injection Hda as <-.
Defined.

Lemma build_compile_options_state instance st options st' :
  build_compile_options instance st = Returned (options, st') -> st' = st.
Proof.
  unfold build_compile_options. intros H.
  apply bind_inv in H as (c & st1 & Hc & H). apply the_client_inv in Hc as [_ ->].
  apply bind_inv in H as (st2 & st3 & Hget & H). injection Hget as <- <-.
  destruct (is_sharded instance); by injection H as _ <-.
Qed.

Lemma build_compile_options_frame instance st1 st2 options :
  client_ st2 = client_ st1 ->
  global_ordinals_ st2 = global_ordinals_ st1 ->
  build_compile_options instance st1 = Returned (options, st1) ->
  build_compile_options instance st2 = Returned (options, st2).
Proof.
  unfold build_compile_options, bind, the_client, get. intros Hc Hg. rewrite Hc.
  destruct (client_ st1); [|done]. rewrite Hg.
  destruct (is_sharded instance); by intros [= <-].
Qed.

(** One iteration of the loop of [Compile]. *)
Lemma compile_instance_inv instance st comp st' :
  compile_instance instance st = Returned (comp, st') ->
  st' = set_metrics (AddValue "CreateCompileHandles" 1
                       (AddValue "StableHloCompile" 1 (metrics st))) st /\
  computation_devices comp = instance_devices instance /\
  exists c options hlo_modules,
    client_ st = Some c /\
    build_compile_options instance st = Returned (options, st) /\
    compiler_Compile c (instance_computation instance) options
      = OkValue (executable comp) /\
    GetHloModules (executable comp) = OkValue hlo_modules /\
    head hlo_modules = Some (computation comp).
Proof.
  unfold compile_instance. intros H.
  apply bind_inv in H as (options & st1 & Hopt & H).
  pose proof (build_compile_options_state _ _ _ _ Hopt) as ->.
  apply bind_inv in H as (c & st1 & Hc & H). apply the_client_inv in Hc as [Hc ->].
  apply bind_inv in H as (exe & st1 & Hexe & H). apply value_inv in Hexe as [Hexe ->].
  apply bind_inv in H as ([] & st1 & Hrep1 & H).
  unfold report, modify in Hrep1. injection Hrep1 as <-.
  apply bind_inv in H as (mods & st2 & Hmods & H). apply value_inv in Hmods as [Hmods ->].
  apply bind_inv in H as (hm & st2 & Hhm & H). apply deref_inv in Hhm as [Hhm ->].
  apply bind_inv in H as ([] & st2 & Hrep2 & H).
  unfold report, modify in Hrep2. injection Hrep2 as <-.
  injection H as <- <-. split; [by destruct st|]. split; [done|].
  by exists c, options, mods.
Qed.

Lemma Compile_inv instances st comps st' :
  Compile instances st = Returned (comps, st') ->
  metrics_only st st' /\
  (forall name,
     counter name (metrics st') =
     counter name (metrics st) +
     (if decide (name = "StableHloCompile" \/ name = "CreateCompileHandles")
      then Z.of_nat (length instances) else 0)) /\
  Forall2 (fun instance comp =>
             computation_devices comp = instance_devices instance /\
             exists c options hlo_modules,
               client_ st = Some c /\
               build_compile_options instance st = Returned (options, st) /\
               compiler_Compile c (instance_computation instance) options
                 = OkValue (executable comp) /\
               GetHloModules (executable comp) = OkValue hlo_modules /\
               head hlo_modules = Some (computation comp))
          instances comps.
Proof.
  unfold Compile. revert st comps st'.
  induction instances as [|instance instances IH]; intros st comps st' H.
  - cbn in H. injection H as <- <-. split; [apply metrics_only_refl|].
    split; [|constructor]. intros name. case_decide; cbn; lia.
  - cbn [for_each_push] in H.
    apply bind_inv in H as (comp & st1 & Hcomp & H).
    apply bind_inv in H as (comps' & st2 & Hcomps & H). injection H as <- <-.
    apply compile_instance_inv in Hcomp
      as (Hst1 & Hdev & c & options & mods & Hc & Hopt & Hexe & Hmods & Hhead).
    apply IH in Hcomps as (Hmo & Hcount & Hall).
    assert (Hmo1 : metrics_only st st1) by by rewrite Hst1.
    split; [by eapply metrics_only_trans|]. split.
    + intros name. rewrite Hcount, Hst1. cbn [metrics set_metrics].
      rewrite !counter_AddValue. cbn [length].
      repeat case_decide; try lia; exfalso; intuition congruence.
    + constructor.
      * split; [done|]. by exists c, options, mods.
      * eapply Forall2_impl; [exact Hall|]. cbn.
        intros inst comp' (Hdev' & c' & options' & mods' & Hc' & Hopt' & Hrest).
        split; [done|]. exists c', options', mods'.
        destruct (metrics_only_client _ _ Hmo1) as (Hcl & Hgo & _).
        split; [congruence|]. split; [|done].
        by apply (build_compile_options_frame inst st1 st).
Qed.

(** X14. When [Compile] returns, there is one computation per instance,
    in the order of the instances; each carries the devices of its
    instance, the executable the compiler returned for the program of the
    instance under the options built for it, and the first module that
    executable reports.  The client changes in its metrics only: the two
    compile counters grow by the number of instances, and no other counter
    moves. *)
Theorem X14_Compile_returns instances st comps st' :
  Compile instances st = Returned (comps, st') ->
  metrics_only st st' /\
  length comps = length instances /\
  (forall name,
     counter name (metrics st') =
     counter name (metrics st) +
     (if decide (name = "StableHloCompile" \/ name = "CreateCompileHandles")
      then Z.of_nat (length instances) else 0)) /\
  Forall2 (fun instance comp =>
             computation_devices comp = instance_devices instance /\
             exists c options hlo_modules,
               client_ st = Some c /\
               build_compile_options instance st = Returned (options, st) /\
               compiler_Compile c (instance_computation instance) options
                 = OkValue (executable comp) /\
               GetHloModules (executable comp) = OkValue hlo_modules /\
               head hlo_modules = Some (computation comp))
          instances comps.
Proof.
  intros H. apply Compile_inv in H as (Hmo & Hcount & Hall).
  split; [done|]. split; [symmetry; by eapply Forall2_length|]. done.
Qed.

Lemma X14_witness :
  let sharded :=
    MakeCompileInstance (replicate_computation (Sample.f32 [2]) (OTHER [2]))
                        "TPU:0" ["TPU:0"; "TPU:1"] None false true false in
  let plain :=
    MakeCompileInstance (replicate_computation (Sample.f32 [4]) REPLICATED)
                        "TPU:1" ["TPU:1"] None false false false in
  let st := Sample.started Sample.a_client in
  exists comps st',
    Compile [sharded; plain] st = Returned (comps, st') /\
    computation_devices <$> comps = [["TPU:0"; "TPU:1"]; ["TPU:1"]] /\
    counter "StableHloCompile" (metrics st') = 2 /\
    counter "CreateDataHandles" (metrics st') = 0.
Proof.
  intros sharded plain st.
  assert (Hsome : is_returned (Compile [sharded; plain] st) = true)
    by (vm_compute; reflexivity).
  destruct (Compile [sharded; plain] st) as [[comps st']| | |] eqn:H;
    try discriminate.
  exists comps, st'. split; [reflexivity|].
  destruct (X14_Compile_returns _ _ _ _ H) as (_ & _ & Hcount & Hall).
  split.
  - apply Forall2_cons_inv_l in Hall as (c0 & cs & (Hd0 & _) & Hall & ->).
    apply Forall2_cons_inv_l in Hall as (c1 & cs' & (Hd1 & _) & Hall & ->).
    apply Forall2_nil_inv_l in Hall as ->. cbn. by rewrite Hd0, Hd1.
  - split; rewrite Hcount; reflexivity.
Defined.

(** ** Execution and replication *)

Lemma ExecuteReplicated_inv comp arguments devs options st handles st' :
  ExecuteReplicated comp arguments devs options st = Returned (handles, st') ->
  st' = st /\
  exists result shardings,
    Execute (executable comp) (buffer <$> arguments)
      (MakeExecuteOptions (explode_tuple options) true None) = OkValue result /\
    GetOutputShardings (executable comp) = Some shardings /\
    length shardings = length (outputs result) /\
    Forall2 (fun ro handle =>
               exists a,
                 fst ro = Some a /\
                 handle = MakeIfrtData "SPMD:0"
                            (MakeShape (array_dtype a) (array_shape a))
                            (Some a) (Some (snd ro)))
            (zip (outputs result) shardings) handles.
Proof.
  unfold ExecuteReplicated. intros H.
  apply bind_inv in H as (result & st1 & Hran & H). apply value_inv in Hran as [Hran ->].
  apply bind_inv in H as ([] & st1 & Hhas & H). apply XLA_CHECK_inv in Hhas as [_ ->].
  apply bind_inv in H as (shardings & st1 & Hsh & H). apply deref_inv in Hsh as [Hsh ->].
  apply bind_inv in H as ([] & st1 & Hcount & H).
  apply XLA_CHECK_inv in Hcount as [Hcount ->].
  apply bool_decide_eq_true_1 in Hcount.
  apply for_each_push_inv in H as [-> Hall]; cycle 1.
  { intros ro s y s' Hy. by apply lift_from_buffer_inv in Hy as [-> _]. }
  split; [done|]. exists result, shardings. do 3 (split; [done|]).
  eapply Forall2_impl; [exact Hall|]. cbn. intros ro handle Hy.
  apply lift_from_buffer_inv in Hy as [_ (a & Ha & ->)]. by exists a.
Qed.

(** The loop of [ExecuteReplicated] over outputs none of which is null. *)
Lemma tag_outputs_Some (arrays : list Array) (shardings : list OpSharding) st :
  for_each_push (zip (Some <$> arrays) shardings) (fun ro =>
    lift (IfrtData_from_buffer "SPMD:0" (fst ro) (Some (snd ro)))) st
  = Returned (zip_with (fun a s =>
                MakeIfrtData "SPMD:0" (MakeShape (array_dtype a) (array_shape a))
                             (Some a) (Some s)) arrays shardings, st).
Proof.
  revert shardings. induction arrays as [|a arrays IH]; intros [|s shardings]; try done.
  cbn [fmap list_fmap zip zip_with for_each_push].
  erewrite bind_Returned by reflexivity.
  erewrite bind_Returned by apply IH. reflexivity.
Qed.

(** X15. When [ExecuteReplicated] returns, the client has changed in its
    metrics at most and no counter has moved, and every handle holds a
    buffer whose element type and dimensions are the shape of the handle.
    It does return, with one handle per output in the order of the
    outputs, when the execution succeeds, the executable reports one
    sharding per output and no output is null.  When the execution itself
    fails, as it does on a mismatch of shapes under strict shape checking,
    the call is fatal. *)
Theorem X15_ExecuteReplicated_frame comp arguments devs options st :
  let ran := Execute (executable comp) (buffer <$> arguments)
               (MakeExecuteOptions (explode_tuple options) true None) in
  (forall handles st',
     ExecuteReplicated comp arguments devs options st = Returned (handles, st') ->
     metrics_only st st' /\
     (forall name, counter name (metrics st') = counter name (metrics st)) /\
     Forall (fun handle =>
               exists a, buffer handle = Some a /\
                 shape handle = MakeShape (array_dtype a) (array_shape a))
            handles) /\
  (forall result shardings arrays,
     ran = OkValue result ->
     GetOutputShardings (executable comp) = Some shardings ->
     length shardings = length arrays ->
     outputs result = Some <$> arrays ->
     exists st',
       ExecuteReplicated comp arguments devs options st
       = Returned (zip_with (fun a s =>
                     MakeIfrtData "SPMD:0" (MakeShape (array_dtype a) (array_shape a))
                                  (Some a) (Some s)) arrays shardings, st')) /\
  (forall msg,
     ran = NotOk msg ->
     is_fatal (ExecuteReplicated comp arguments devs options st) = true).
Proof.
  intros ran. split; [|split].
  - intros handles st' H.
    apply ExecuteReplicated_inv in H as (-> & result & shardings & _ & _ & _ & Hall).
    split; [apply metrics_only_refl|]. split; [done|].
    apply Forall_forall. intros handle Hin.
    apply list_elem_of_lookup in Hin as [i Hi].
    destruct (Forall2_lookup_r _ _ _ _ _ Hall Hi) as (ro & _ & a & _ & ->).
    by exists a.
  - intros result shardings arrays Hran Hsh Hlen Hout. exists st.
    unfold ExecuteReplicated. fold ran. rewrite Hran.
    erewrite bind_Returned by reflexivity. rewrite Hsh.
    erewrite bind_Returned by reflexivity.
    erewrite bind_Returned by reflexivity.
    rewrite Hout, length_fmap. unfold XLA_CHECK_EQ.
    rewrite bool_decide_eq_true_2 by done.
    erewrite bind_Returned by reflexivity.
    apply tag_outputs_Some.
  - intros msg Hran. unfold ExecuteReplicated. fold ran. rewrite Hran. reflexivity.
Qed.

Lemma X15_witness :
  let prog := replicate_computation (Sample.f32 [2]) (OTHER [2]) in
  let arg := MakeIfrtData "SPMD:0" (Sample.f32 [2])
               (Some (MakeArray F32 [2] Sample.two_devices [5; 6])) (Some (OTHER [2])) in
  let comp := MakeIfrtComputation prog ["TPU:0"] (Sample.an_executable prog) in
  let st := Sample.started Sample.a_client in
  exists handles st',
    ExecuteReplicated comp [arg] ["TPU:0"; "TPU:1"] (MakeExecuteReplicatedOptions true) st
      = Returned (handles, st') /\
    length handles = 1%nat /\
    counter "CreateCompileHandles" (metrics st')
      = counter "CreateCompileHandles" (metrics st).
Proof.
  intros prog arg comp st.
  destruct (X15_ExecuteReplicated_frame comp [arg] ["TPU:0"; "TPU:1"]
              (MakeExecuteReplicatedOptions true) st) as (Hret & Hsome & _).
  destruct (Hsome (MakeExecuteResult OkStatus
                     [Some (MakeArray F32 [2] Sample.two_devices [5; 6])])
              [REPLICATED] [MakeArray F32 [2] Sample.two_devices [5; 6]]
              eq_refl eq_refl eq_refl eq_refl) as [st' H].
  eexists _, st'. split; [exact H|]. split; [reflexivity|].
  destruct (Hret _ _ H) as (_ & Hcount & _). apply Hcount.
Defined.

Lemma GetDefaultDevice_pure st :
  GetDefaultDevice st =
  match client_ st with
  | Some c =>
      match addressable_devices c with
      | d :: _ =>
          match global_ordinals_ st !! device_id d with
          | Some ordinal => Returned (device_string d ordinal, st)
          | None => Fatal "unordered_map::at"
          end
      | [] => Undefined
      end
  | None => Undefined
  end.
Proof.
  unfold GetDefaultDevice, bind, the_client. destruct (client_ st) as [c|]; [|done].
  destruct (addressable_devices c) as [|d ds]; [done|]. apply PjRtDeviceToString_pure.
Qed.

Lemma GetDefaultDevice_frame st1 st2 dev st1' :
  client_ st2 = client_ st1 ->
  global_ordinals_ st2 = global_ordinals_ st1 ->
  GetDefaultDevice st1 = Returned (dev, st1') ->
  st1' = st1 /\ GetDefaultDevice st2 = Returned (dev, st2).
Proof.
  rewrite !GetDefaultDevice_pure. intros -> ->.
  destruct (client_ st1) as [c|]; [|done].
  destruct (addressable_devices c) as [|d ds]; [done|].
  destruct (global_ordinals_ st1 !! device_id d); [|done]. by intros [= <- <-].
Qed.

Lemma GetSharding_inv handle st sharding st' :
  GetSharding handle st = Returned (sharding, st') ->
  sharding_ handle = Some sharding /\ st' = st.
Proof.
  unfold GetSharding, HasSharding, bind.
  destruct (sharding_ handle); cbn; [|done]. by intros [= <- <-].
Qed.

(** The path of [ReplicateShardedData] for a buffer on several devices:
    what has happened when it returns. *)
Lemma ReplicateShardedData_slow_inv handle buf st a st' :
  buffer handle = Some buf ->
  length (array_devices buf) <> 1%nat ->
  ReplicateShardedData handle st = Returned (a, st') ->
  exists c sharding dev options exe result buf0,
    client_ st = Some c /\
    sharding_ handle = Some sharding /\
    length (array_devices buf) = addressable_device_count c /\
    st' = set_metrics
            (AddValue "CreateCompileHandles" 1
               (AddValue "StableHloCompile" 1
                  (AddValue "ReplicateShardedData" 1 (metrics st)))) st /\
    GetDefaultDevice st = Returned (dev, st) /\
    build_compile_options
      (MakeCompileInstance (replicate_computation (shape handle) sharding) dev
         (GetCompilationDevices (base st) dev []) (Some (shape handle))
         false true false) st
      = Returned (options, st) /\
    compiler_Compile c (replicate_computation (shape handle) sharding) options
      = OkValue exe /\
    Execute exe [Some buf]
      (MakeExecuteOptions (default_explode_tuple (base st)) true None)
      = OkValue result /\
    head (outputs result) = Some (Some buf0) /\
    FullyReplicatedShard c buf0 = OkValue a.
Proof.
  intros Hbuf Hmany. unfold ReplicateShardedData. intros H.
  apply bind_inv in H as (buf' & st0 & Hderef & H).
  apply deref_inv in Hderef as [Hderef ->].
  rewrite Hbuf in Hderef. injection Hderef as <-.
  rewrite bool_decide_eq_false_2 in H by done.
  apply bind_inv in H as ([] & st1 & Hrep & H).
  unfold report, modify in Hrep. injection Hrep as <-.
  set (st1 := set_metrics (AddValue "ReplicateShardedData" 1 (metrics st)) st) in *.
  apply bind_inv in H as (sharding & st0 & Hsh & H).
  apply GetSharding_inv in Hsh as [Hsh ->].
  apply bind_inv in H as (dev & st0 & Hdev & H).
  destruct (GetDefaultDevice_frame st1 st dev st0 eq_refl eq_refl Hdev) as [-> Hdev'].
  apply bind_inv in H as (st0 & st0' & Hget & H). injection Hget as <- <-.
  apply bind_inv in H as (comps & st2o & Hcomp & H).
  unfold Compile in Hcomp. cbn [for_each_push] in Hcomp.
  apply bind_inv in Hcomp as (comp & st2 & Hci & Hcomp).
  cbn in Hcomp. injection Hcomp as <- <-.
  apply compile_instance_inv in Hci
    as (Hst2 & _ & c & options & mods & Hc & Hopt & Hexe & _ & _).
  apply bind_inv in H as (local & st0 & Hloc & H).
  pose proof (GetLocalDevices_state _ _ _ Hloc) as ->.
  assert (Hc2 : client_ st2 = Some c) by by rewrite Hst2.
  pose proof (GetLocalDevices_length _ _ _ _ Hc2 Hloc) as Hlen.
  apply bind_inv in H as ([] & st0 & Hcheck & H).
  apply XLA_CHECK_inv in Hcheck as [Hcheck ->].
  apply bool_decide_eq_true_1 in Hcheck.
  apply bind_inv in H as (front & st0 & Hfront & H).
  apply deref_inv in Hfront as [Hfront ->]. cbn in Hfront. injection Hfront as <-.
  apply bind_inv in H as (local' & st0 & Hloc' & H).
  pose proof (GetLocalDevices_state _ _ _ Hloc') as ->.
  apply bind_inv in H as (results & st3 & Hexec & H).
  apply ExecuteReplicated_inv in Hexec
    as (-> & result & shardings & Hran & _ & _ & Hall).
  apply bind_inv in H as (result0 & st0 & Hr0 & H).
  apply deref_inv in Hr0 as [Hr0 ->].
  destruct (Forall2_lookup_r _ _ _ _ _ Hall Hr0) as (ro & Hro & a0 & Ha0 & ->).
  apply bind_inv in H as (buf0 & st0 & Hb0 & H).
  apply deref_inv in Hb0 as [Hb0 ->]. cbn in Hb0. injection Hb0 as <-.
  apply bind_inv in H as (c' & st0 & Hc' & H).
  apply the_client_inv in Hc' as [Hc' ->].
  rewrite Hc2 in Hc'. injection Hc' as <-.
  assert (Hfull : FullyReplicatedShard c a0 = OkValue a /\ st' = st2).
  { destruct (FullyReplicatedShard c a0); cbn in H; [|done]. by injection H as <- <-. }
  destruct Hfull as [Hfull ->].
  exists c, sharding, dev, options, (executable comp), result, a0.
  split; [done|]. split; [done|]. split; [congruence|].
  split; [rewrite Hst2; by destruct st|].
  split; [done|].
  split; [by apply (build_compile_options_frame _ st1 st)|].
  split; [exact Hexe|].
  split; [cbn in Hran; rewrite Hbuf in Hran; exact Hran|]. split; [|done].
  apply lookup_zip_with_Some in Hro as (o & s' & -> & Ho & _).
  cbn in Ha0. subst o. by destruct (outputs result).
Qed.

(** X16. For a handle whose buffer spans a number of devices other than
    one: without sharding metadata [ReplicateShardedData] fails the check
    of [GetSharding]; when it returns, the handle is sharded, its buffer
    spans as many devices as the client has addressable devices, and the
    client has changed in its metrics only, where the replication counter
    and the two compile counters have each grown by one. *)
Theorem X16_ReplicateShardedData_multi_device handle buf st :
  buffer handle = Some buf ->
  length (array_devices buf) <> 1%nat ->
  (sharding_ handle = None ->
   ReplicateShardedData handle st = Fatal "Check HasSharding first") /\
  (forall a st',
     ReplicateShardedData handle st = Returned (a, st') ->
     exists c,
       client_ st = Some c /\
       HasSharding handle = true /\
       length (array_devices buf) = addressable_device_count c /\
       metrics_only st st' /\
       forall name,
         counter name (metrics st') =
         counter name (metrics st) +
         (if decide (name = "ReplicateShardedData" \/ name = "StableHloCompile" \/
                     name = "CreateCompileHandles")
          then 1 else 0)).
Proof.
  intros Hbuf Hmany. split.
  - intros Hnone. unfold ReplicateShardedData, bind. rewrite Hbuf. cbn.
    rewrite bool_decide_eq_false_2 by done. cbn.
    unfold GetSharding, HasSharding, bind. by rewrite Hnone.
  - intros a st' H.
    apply (ReplicateShardedData_slow_inv handle buf st a st' Hbuf Hmany) in H
      as (c & sharding & dev & options & exe & result & buf0
          & Hc & Hsh & Hlen & -> & _).
    exists c. split; [done|]. split; [unfold HasSharding; by rewrite Hsh|].
    split; [done|]. split; [done|].
    intros name. cbn [metrics set_metrics]. rewrite !counter_AddValue.
    repeat case_decide; try lia; exfalso; intuition congruence.
Qed.

Lemma X16_witness :
  let buf := MakeArray F32 [2] Sample.two_devices [5; 6] in
  let st := Sample.started Sample.a_client in
  ReplicateShardedData (MakeIfrtData "SPMD:0" (Sample.f32 [2]) (Some buf) None) st
    = Fatal "Check HasSharding first" /\
  exists a st',
    ReplicateShardedData
      (MakeIfrtData "SPMD:0" (Sample.f32 [2]) (Some buf) (Some (OTHER [2]))) st
      = Returned (a, st') /\
    counter "StableHloCompile" (metrics st') = 1.
Proof.
  intros buf st. split.
  - apply (X16_ReplicateShardedData_multi_device
             (MakeIfrtData "SPMD:0" (Sample.f32 [2]) (Some buf) None) buf st eq_refl);
      [cbn; lia|done].
  - set (handle := MakeIfrtData "SPMD:0" (Sample.f32 [2]) (Some buf) (Some (OTHER [2]))).
    assert (Hsome : is_returned (ReplicateShardedData handle st) = true)
      by (vm_compute; reflexivity).
    destruct (ReplicateShardedData handle st) as [[a st']| | |] eqn:H;
      try discriminate.
    exists a, st'. split; [reflexivity|].
    destruct (X16_ReplicateShardedData_multi_device handle buf st eq_refl
                ltac:(cbn; lia)) as [_ Hret].
    destruct (Hret a st' H) as (c & _ & _ & _ & _ & Hcount).
    rewrite Hcount. reflexivity.
Defined.

(** ** Transfers to the host *)

Lemma checked_inv {A} (s : StatusOr A) st a st' :
  checked s st = Returned (a, st') -> s = OkValue a /\ st' = st.
Proof. destruct s; cbn; [|done]. by intros [= <- <-]. Qed.

Lemma ReplicateShardedData_returns handle st a st' :
  ReplicateShardedData handle st = Returned (a, st') ->
  HasValue handle = true /\ metrics_only st st'.
Proof.
  intros H. destruct (buffer handle) as [buf|] eqn:Hbuf.
  - split; [unfold HasValue; by rewrite Hbuf|].
    destruct (decide (length (array_devices buf) = 1%nat)) as [Hone|Hmany].
    + unfold ReplicateShardedData, bind in H. rewrite Hbuf in H. cbn in H.
      rewrite bool_decide_eq_true_2 in H by done. injection H as _ <-.
      apply metrics_only_refl.
    + destruct (ReplicateShardedData_slow_inv handle buf st a st' Hbuf Hmany H)
        as (c & sharding & dev & options & exe & result & buf0 & _ & _ & _ & -> & _).
      done.
  - unfold ReplicateShardedData, bind in H. by rewrite Hbuf in H.
Qed.

Lemma read_back_inv literals total handle st literals' total' st' :
  read_back (literals, total) handle st = Returned ((literals', total'), st') ->
  HasValue handle = true /\ metrics_only st st' /\
  total' = total + ByteSizeOf (shape handle) /\
  exists data, literals' = literals ++ [MakeLiteral (shape handle) data].
Proof.
  unfold read_back. intros H.
  apply bind_inv in H as (a & st1 & Hrep & H).
  apply ReplicateShardedData_returns in Hrep as [Hval Hmo].
  apply bind_inv in H as (strides & st2 & Hstr & H). apply checked_inv in Hstr as [_ ->].
  apply bind_inv in H as (c & st2 & Hc & H). apply the_client_inv in Hc as [_ ->].
  apply bind_inv in H as (data & st2 & Hdata & H). apply checked_inv in Hdata as [_ ->].
  injection H as <- <- <-. do 3 (split; [done|]). by exists data.
Qed.

Lemma read_loop_inv handles literals0 total0 st literals total st' :
  for_each_acc handles (literals0, total0) read_back st
    = Returned ((literals, total), st') ->
  metrics_only st st' /\
  total = total0 + total_bytes (shape <$> handles) /\
  exists new,
    literals = literals0 ++ new /\
    Forall2 (fun handle literal =>
               literal_shape literal = shape handle /\ HasValue handle = true)
            handles new.
Proof.
  revert literals0 total0 st. induction handles as [|h handles IH];
    intros literals0 total0 st H.
  - cbn in H. injection H as <- <- <-. split; [apply metrics_only_refl|].
    split; [cbn; lia|]. exists []. by rewrite app_nil_r.
  - cbn [for_each_acc] in H.
    apply bind_inv in H as ([literals1 total1] & st1 & Hone & H).
    apply read_back_inv in Hone as (Hval & Hmo & -> & data & ->).
    apply IH in H as (Hmo' & -> & new & -> & Hall).
    split; [by eapply metrics_only_trans|].
    split; [unfold total_bytes; cbn; lia|].
    exists (MakeLiteral (shape h) data :: new). rewrite <- app_assoc. split; [done|].
    by constructor.
Qed.

(** X17. When [TransferFromServer] returns, there is one literal per
    handle, in the order of the handles, with the shape of its handle, and
    every handle held a buffer.  The client has changed in its metrics
    only, and the last sample of the inbound metric is the total byte size
    of the shapes of the handles. *)
Theorem X17_TransferFromServer_returns handles st literals st' :
  TransferFromServer handles st = Returned (literals, st') ->
  Forall2 (fun handle literal =>
             literal_shape literal = shape handle /\ HasValue handle = true)
          handles literals /\
  metrics_only st st' /\
  exists earlier,
    samples (metrics st') !! "InboundData"
      = Some (earlier ++ [total_bytes (shape <$> handles)]).
Proof.
  unfold TransferFromServer. intros H.
  apply bind_inv in H as ([lits total] & st1 & Hloop & H).
  apply read_loop_inv in Hloop as (Hmo & -> & new & -> & Hall).
  apply bind_inv in H as ([] & st2 & Hrep & H).
  pose proof (metrics_only_report _ _ _ _ Hrep) as Hmo2.
  unfold report, modify in Hrep. injection Hrep as <-. injection H as <- <-.
  split; [done|]. split; [by eapply metrics_only_trans|].
  exists (default [] (samples (metrics st1) !! "InboundData")).
  cbn. by rewrite lookup_insert_eq.
Qed.

Lemma X17_witness :
  let h0 := MakeIfrtData "TPU:0" (Sample.f32 [2])
              (Some (MakeArray F32 [2] [Sample.tpu 3] [1; 2])) None in
  let h1 := MakeIfrtData "SPMD:0" (Sample.f32 [2; 2])
              (Some (MakeArray F32 [2; 2] Sample.two_devices [5; 6; 7; 8]))
              (Some (OTHER [2])) in
  let st := Sample.started Sample.a_client in
  exists literals st',
    TransferFromServer [h0; h1] st = Returned (literals, st') /\
    literal_shape <$> literals = [Sample.f32 [2]; Sample.f32 [2; 2]] /\
    samples (metrics st') !! "InboundData" = Some [24].
Proof.
  intros h0 h1 st.
  assert (Hsome : is_returned (TransferFromServer [h0; h1] st) = true)
    by (vm_compute; reflexivity).
  destruct (TransferFromServer [h0; h1] st) as [[literals st']| | |] eqn:H;
    try discriminate.
  exists literals, st'. split; [reflexivity|].
  destruct (X17_TransferFromServer_returns _ _ _ _ H) as (Hall & _ & _).
  split.
  - apply Forall2_cons_inv_l in Hall as (l0 & ls & (Hs0 & _) & Hall & ->).
    apply Forall2_cons_inv_l in Hall as (l1 & ls' & (Hs1 & _) & Hall & ->).
    apply Forall2_nil_inv_l in Hall as ->. cbn. by rewrite Hs0, Hs1.
  - vm_compute in H. injection H as _ <-. reflexivity.
Defined.

(** A handle on one device, whose copy to the host gives [data], is read
    back as [data]. *)
Lemma read_back_single literals total handle st c a data :
  client_ st = Some c ->
  buffer handle = Some a ->
  length (array_devices a) = 1%nat ->
  CopyToHostBuffer c a
    (byte_strides_of (ByteSizeOfPrimitiveType (element_type (shape handle)))
                     (dimensions (shape handle))) = OkValue data ->
  read_back (literals, total) handle st =
  Returned ((literals ++ [MakeLiteral (shape handle) data],
             total + ByteSizeOf (shape handle)), st).
Proof.
  intros Hc Hbuf Hone Hcopy. unfold read_back.
  erewrite bind_Returned; cycle 1.
  { unfold ReplicateShardedData, bind. rewrite Hbuf. cbn.
    by rewrite bool_decide_eq_true_2. }
  erewrite bind_Returned by reflexivity.
  erewrite bind_Returned by (unfold the_client; rewrite Hc; reflexivity).
  unfold DeviceShapeToHostShape. rewrite Hcopy. reflexivity.
Qed.

Lemma read_loop_single c st tensors datas literals0 total0 :
  client_ st = Some c ->
  Forall2 (fun t d =>
             shape d = ts_shape t /\
             exists a, buffer d = Some a /\ length (array_devices a) = 1%nat /\
               CopyToHostBuffer c a
                 (byte_strides_of (ByteSizeOfPrimitiveType (element_type (shape d)))
                                  (dimensions (shape d)))
                 = OkValue (ts_data t))
          tensors datas ->
  for_each_acc datas (literals0, total0) read_back st =
  Returned ((literals0 ++ ((fun t => MakeLiteral (ts_shape t) (ts_data t)) <$> tensors),
             total0 + total_bytes (shape <$> datas)), st).
Proof.
  intros Hc Hrel. revert literals0 total0.
  induction Hrel as [|t d tensors datas (Hshape & a & Hbuf & Hone & Hcopy) _ IH];
    intros literals0 total0.
  - cbn. by rewrite app_nil_r, Z.add_0_r.
  - cbn [for_each_acc].
    rewrite (bind_Returned _ _ _ _ _
               (read_back_single literals0 total0 d st c a (ts_data t)
                  Hc Hbuf Hone Hcopy)).
    rewrite IH. rewrite <- app_assoc, Hshape. cbn. do 3 f_equal.
    unfold total_bytes. rewrite Hshape. lia.
Qed.

(** X18. Round trip.  Take tensors whose device strings are registered,
    on a runtime that puts each of them on a single device and copies
    each back as it was given.  Then [TransferToServer] followed by
    [TransferFromServer] on the handles it returned gives, for each tensor
    in order, a literal with the shape and the data of the tensor; nothing
    is compiled on the way, and of all counters only the count of data
    handles changes. *)
Theorem X18_transfer_round_trip tensors st c :
  client_ st = Some c ->
  Forall (fun t =>
            exists pjrt_device a,
              string_to_device_ st !! ts_device t = Some pjrt_device /\
              MakeArrayFromHostBuffer c t pjrt_device = OkValue a /\
              length (array_devices a) = 1%nat /\
              CopyToHostBuffer c a
                (byte_strides_of (ByteSizeOfPrimitiveType (element_type (ts_shape t)))
                                 (dimensions (ts_shape t)))
                = OkValue (ts_data t))
         tensors ->
  exists datas st1 st2,
    TransferToServer tensors st = Returned (datas, st1) /\
    TransferFromServer datas st1
      = Returned ((fun t => MakeLiteral (ts_shape t) (ts_data t)) <$> tensors, st2) /\
    forall name,
      counter name (metrics st2) =
      counter name (metrics st) +
      (if decide (name = "CreateDataHandles") then Z.of_nat (length tensors) else 0).
Proof.
  intros Hc Hall.
  assert (Hdatas : exists datas,
    mapM (transferred st) tensors = Some datas /\
    Forall2 (fun t d =>
               shape d = ts_shape t /\
               exists a, buffer d = Some a /\ length (array_devices a) = 1%nat /\
                 CopyToHostBuffer c a
                   (byte_strides_of (ByteSizeOfPrimitiveType (element_type (shape d)))
                                    (dimensions (shape d)))
                   = OkValue (ts_data t))
            tensors datas).
  { induction Hall as [|t tensors (dev & a & Hdev & Ha & Hone & Hcopy) _ IH].
    - by exists [].
    - destruct IH as (datas & Hm & Hrel).
      exists (MakeIfrtData (ts_device t) (ts_shape t) (Some a) None :: datas). split.
      + assert (Ht : transferred st t
                     = Some (MakeIfrtData (ts_device t) (ts_shape t) (Some a) None))
          by (unfold transferred; by rewrite Hdev, Hc, Ha).
        cbn [mapM]. rewrite Ht. cbn. by rewrite Hm.
      + constructor; [|done]. split; [done|]. by exists a. }
  destruct Hdatas as (datas & Hm & Hrel).
  pose proof (TransferToServer_Some tensors st datas Hm) as Htransfer.
  set (st1 := set_metrics _ st) in Htransfer.
  assert (Hc1 : client_ st1 = Some c) by done.
  pose proof (read_loop_single c st1 tensors datas [] 0 Hc1 Hrel) as Hloop.
  eexists datas, st1, _. split; [exact Htransfer|]. split.
  - unfold TransferFromServer. rewrite (bind_Returned _ _ _ _ _ Hloop).
    reflexivity.
  - intros name. cbn. rewrite counter_AddSample.
    unfold st1. cbn [metrics set_metrics].
    rewrite counter_AddValue, counter_AddSample.
    repeat case_decide; try lia; congruence.
Qed.

Lemma X18_witness :
  let t0 := MakeTensorSource "TPU:0" (Sample.f32 [2]) [1; 2] in
  let t1 := MakeTensorSource "TPU:1" (Sample.f32 [3]) [3; 4; 5] in
  let st := Sample.started Sample.a_client in
  exists datas st1 st2,
    TransferToServer [t0; t1] st = Returned (datas, st1) /\
    TransferFromServer datas st1
      = Returned ([MakeLiteral (Sample.f32 [2]) [1; 2];
                   MakeLiteral (Sample.f32 [3]) [3; 4; 5]], st2) /\
    counter "StableHloCompile" (metrics st2) = 0.
Proof.
  intros t0 t1 st.
  destruct (X18_transfer_round_trip [t0; t1] st Sample.a_client eq_refl)
    as (datas & st1 & st2 & Hto & Hfrom & Hcount).
  - repeat constructor.
    + exists (Sample.tpu 3). eexists. repeat split; reflexivity.
    + exists (Sample.tpu 7). eexists. repeat split; reflexivity.
  - exists datas, st1, st2. split; [exact Hto|]. split; [exact Hfrom|].
    rewrite Hcount. reflexivity.
Defined.

(** ** The index map of a device list *)

Lemma StrSplit_length s : length (StrSplit s ":") = S (count_colons s).
Proof.
  induction s as [|c s IH]; [done|]. cbn [StrSplit count_colons].
  destruct (Ascii.eqb c ":"); cbn [length]; [by rewrite IH|].
  destruct (StrSplit s ":") as [|piece pieces]; cbn in *; lia.
Qed.

Lemma StrSplit_no_colon s : count_colons s = 0%nat -> StrSplit s ":" = [s].
Proof.
  induction s as [|c s IH]; [done|]. cbn [StrSplit count_colons].
  destruct (Ascii.eqb c ":"); [done|]. intros H. by rewrite IH.
Qed.

Lemma StrSplit_prefix s q :
  count_colons s = 0%nat -> StrSplit (s +:+ ":" +:+ q) ":" = s :: StrSplit q ":".
Proof.
  induction s as [|c s IH]; [done|]. cbn [count_colons]. intros H.
  change (String c s +:+ ":" +:+ q) with (String c (s +:+ ":" +:+ q)).
  cbn [StrSplit]. destruct (Ascii.eqb c ":"); [done|]. by rewrite IH.
Qed.

Lemma ascii_toupper_colon c : Ascii.eqb (ascii_toupper c) ":" = Ascii.eqb c ":".
Proof. by destruct c as [[] [] [] [] [] [] [] []]. Qed.

Lemma count_colons_upper s : count_colons (AsciiStrToUpper s) = count_colons s.
Proof.
  induction s as [|c s IH]; [done|]. cbn [AsciiStrToUpper count_colons].
  by rewrite ascii_toupper_colon, IH.
Qed.

Lemma digit_not_colon c d : digit_of c = Some d -> Ascii.eqb c ":" = false.
Proof. by destruct c as [[] [] [] [] [] [] [] []]. Qed.

Lemma all_digits_no_colon s : all_digits s = true -> count_colons s = 0%nat.
Proof.
  induction s as [|c s IH]; [done|]. cbn [all_digits count_colons].
  destruct (digit_of c) as [d|] eqn:Hd; [|done]. intros H.
  by rewrite (digit_not_colon c d Hd), IH.
Qed.

Lemma pretty_N_char_digit (x : N) :
  (x < 10)%N -> digit_of (pretty_N_char x) = Some (Z.of_N x).
Proof.
  intros H.
  assert (x = 0 \/ x = 1 \/ x = 2 \/ x = 3 \/ x = 4 \/ x = 5 \/ x = 6 \/ x = 7
          \/ x = 8 \/ x = 9)%N as Hx by lia.
  repeat (destruct Hx as [->|Hx]; [reflexivity|]). by subst.
Qed.

Lemma pretty_N_go_digits (x : N) s :
  all_digits s = true -> all_digits (pretty_N_go x s) = true.
Proof.
  revert s. induction (N.lt_wf_0 x) as [x _ IH]. intros s Hs.
  assert (x = 0 \/ 0 < x)%N as [->|Hpos] by lia; [done|].
  rewrite pretty_N_go_step by done. apply IH; [by apply N.div_lt|].
  cbn [all_digits]. rewrite pretty_N_char_digit; [done|]. by apply N.mod_lt.
Qed.

Lemma parse_pretty_N_go (x : N) :
  exists p : Z, forall acc s,
    parse_digits acc (pretty_N_go x s) = parse_digits (acc * p + Z.of_N x) s.
Proof.
  induction (N.lt_wf_0 x) as [x _ IH].
  assert (x = 0 \/ 0 < x)%N as [->|Hpos] by lia.
  - exists 1. intros acc s. rewrite pretty_N_go_0. f_equal. lia.
  - destruct (IH (x `div` 10)%N) as [p Hp]; [by apply N.div_lt|].
    exists (p * 10). intros acc s.
    rewrite pretty_N_go_step, Hp by done. cbn [parse_digits].
    rewrite pretty_N_char_digit by by apply N.mod_lt. f_equal.
    rewrite (N.div_mod x 10) at 3 by done. lia.
Qed.

Lemma pretty_nat_digits (k : nat) :
  all_digits (pretty k) = true /\ parse_digits 0 (pretty k) = Z.of_nat k.
Proof.
  unfold pretty, pretty_nat, pretty, pretty_N. case_decide as Hk.
  - split; [done|]. assert (k = 0%nat) as -> by lia. reflexivity.
  - split; [by apply pretty_N_go_digits|].
    destruct (parse_pretty_N_go (N.of_nat k)) as [p Hp]. rewrite Hp. cbn. lia.
Qed.

(** [stoi] on a string that starts with a digit. *)
Lemma stoi_digit c rest d st :
  digit_of c = Some d ->
  stoi (String c rest) st =
  (let v := parse_digits 0 (String c rest) in
   if (- 2 ^ 31 <=? v) && (v <=? 2 ^ 31 - 1) then ret v
   else fatal "stoi: out_of_range") st.
Proof.
  destruct c as [[] [] [] [] [] [] [] []]; try discriminate; intros _; reflexivity.
Qed.

Lemma stoi_pretty (k : nat) st :
  Z.of_nat k <= 2 ^ 31 - 1 ->
  stoi (pretty k) st = Returned (Z.of_nat k, st).
Proof.
  intros Hk. destruct (pretty_nat_digits k) as [Hdigits Hparse].
  destruct (pretty k) as [|c rest] eqn:Hs.
  - unfold pretty, pretty_nat, pretty, pretty_N in Hs. case_decide; [done|].
    destruct (parse_pretty_N_go (N.of_nat k)) as [p Hp].
    specialize (Hp 0 ""). rewrite Hs in Hp. cbn in Hp. lia.
  - cbn [all_digits] in Hdigits. destruct (digit_of c) as [d|] eqn:Hd; [|done].
    rewrite (stoi_digit c rest d st Hd). cbn zeta. rewrite Hparse.
    rewrite andb_true_intro; [done|]. split; [apply Z.leb_le; lia|by apply Z.leb_le].
Qed.

Lemma index_device_string (m : gmap Z nat) (i k : nat) d st :
  count_colons (device_platform_name d) = 0%nat ->
  Z.of_nat k <= 2 ^ 31 - 1 ->
  index_device m (i, device_string d k) st
    = Returned (<[Z.of_nat k := i]> m, st).
Proof.
  intros Hp Hk. unfold index_device, device_string.
  rewrite StrSplit_prefix by by rewrite count_colons_upper.
  rewrite StrSplit_no_colon
    by (apply all_digits_no_colon; apply pretty_nat_digits).
  unfold bind, XLA_CHECK_EQ. cbn [length].
  rewrite bool_decide_eq_true_2 by done.
  cbn [XLA_CHECK ret deref lookup list_lookup].
  by rewrite stoi_pretty.
Qed.

Lemma index_from_other (j : nat) ks (m : gmap Z nat) (k : nat) :
  k ∉ ks -> index_from j ks m !! Z.of_nat k = m !! Z.of_nat k.
Proof.
  unfold index_from. revert j m. induction ks as [|k0 ks IH]; intros j m Hk; [done|].
  cbn [length seq zip_with foldl fst snd].
  rewrite IH by (intros ?; apply Hk; by right).
  rewrite lookup_insert_ne; [done|]. intros Heq. apply Hk.
  assert (k0 = k) as -> by lia. by left.
Qed.

Lemma index_from_lookup (j : nat) ks (m : gmap Z nat) (i k : nat) :
  NoDup ks -> ks !! i = Some k ->
  index_from j ks m !! Z.of_nat k = Some (j + i)%nat.
Proof.
  unfold index_from. revert j m i. induction ks as [|k0 ks IH]; intros j m i Hnd Hi.
  - by rewrite lookup_nil in Hi.
  - apply NoDup_cons in Hnd as [Hk0 Hnd].
    cbn [length seq zip_with foldl fst snd]. destruct i as [|i]; cbn in Hi.
    + injection Hi as ->.
      change (foldl _ ?m0 (zip (seq (S j) (length ks)) ks))
        with (index_from (S j) ks m0).
      rewrite index_from_other by done. rewrite lookup_insert_eq. f_equal. lia.
    + rewrite (IH (S j) _ i Hnd Hi). f_equal. lia.
Qed.

Lemma build_index_map_strings (j : nat) (dks : list (PjRtDevice * nat))
    (m : gmap Z nat) st :
  Forall (fun dk => count_colons (device_platform_name (fst dk)) = 0%nat /\
                    Z.of_nat (snd dk) <= 2 ^ 31 - 1) dks ->
  for_each_acc (zip (seq j (length dks))
                    ((fun dk => device_string (fst dk) (snd dk)) <$> dks))
               m index_device st
    = Returned (index_from j (snd <$> dks) m, st).
Proof.
  unfold index_from. revert j m.
  induction dks as [|[d k] dks IH]; intros j m Hall; [done|].
  apply Forall_cons in Hall as [[Hp Hk] Hall].
  cbn [length seq fmap list_fmap zip_with for_each_acc foldl fst snd].
  rewrite (bind_Returned _ _ _ _ _ (index_device_string m j k d st Hp Hk)).
  by apply IH.
Qed.

Lemma device_strings_ordinals (m : gmap Z nat) ds strs :
  mapM (fun d => device_string d <$> m !! device_id d) ds = Some strs ->
  exists ks,
    Forall2 (fun d k => m !! device_id d = Some k) ds ks /\
    strs = (fun dk => device_string (fst dk) (snd dk)) <$> zip ds ks.
Proof.
  revert strs. induction ds as [|d ds IH]; intros strs H.
  - injection H as <-. by exists [].
  - cbn [mapM] in H. destruct (m !! device_id d) as [k|] eqn:Hk; [|done]. cbn in H.
    destruct (mapM _ ds) as [strs'|] eqn:Hrest; [|done]. injection H as <-.
    destruct (IH strs' eq_refl) as (ks & Hall & ->).
    exists (k :: ks). split; [by constructor|done].
Qed.

(** X19. [build_index_map] inverts the strings of the registry.  Take
    devices whose platform name has no colon and whose ordinals are
    distinct and fit an [int], and the strings [PjRtDevicesToString] gives
    for them: on these strings [build_index_map] returns a map that sends
    the global ordinal of each device to the position of the device in the
    list. *)
Theorem X19_build_index_map_inverts ds st strs st' :
  PjRtDevicesToString ds st = Returned (strs, st') ->
  (forall d, d ∈ ds -> count_colons (device_platform_name d) = 0%nat) ->
  (forall d (k : nat), d ∈ ds -> global_ordinals_ st !! device_id d = Some k ->
     Z.of_nat k <= 2 ^ 31 - 1) ->
  (forall (i j : nat) d1 d2 (k : nat),
     ds !! i = Some d1 -> ds !! j = Some d2 ->
     global_ordinals_ st !! device_id d1 = Some k ->
     global_ordinals_ st !! device_id d2 = Some k -> i = j) ->
  exists m,
    build_index_map strs st = Returned (m, st) /\
    forall (i : nat) d (k : nat),
      ds !! i = Some d -> global_ordinals_ st !! device_id d = Some k ->
      m !! Z.of_nat k = Some i.
Proof.
  intros Hstrs Hcolon Hint Hinj.
  rewrite PjRtDevicesToString_pure in Hstrs.
  destruct (mapM _ ds) as [strs0|] eqn:Hm; [|done]. injection Hstrs as <- <-.
  apply device_strings_ordinals in Hm as (ks & Hall & ->).
  pose proof (Forall2_length _ _ _ Hall) as Hlen.
  assert (Hks : snd <$> zip ds ks = ks) by (apply snd_zip; lia).
  assert (Hnd : NoDup ks).
  { apply NoDup_alt. intros i j k Hi Hj.
    destruct (Forall2_lookup_r _ _ _ _ _ Hall Hi) as (d1 & Hd1 & Hk1).
    destruct (Forall2_lookup_r _ _ _ _ _ Hall Hj) as (d2 & Hd2 & Hk2).
    by apply (Hinj i j d1 d2 k). }
  eexists. split.
  - unfold build_index_map. rewrite length_fmap.
    rewrite (build_index_map_strings 0 (zip ds ks) ∅ st); [reflexivity|].
    apply Forall_forall. intros [d k] Hin.
    apply list_elem_of_lookup in Hin as [i Hi].
    apply lookup_zip_with_Some in Hi as (d' & k' & [= <- <-] & Hd & Hk).
    pose proof (Forall2_lookup_lr _ _ _ _ _ _ Hall Hd Hk) as Hord.
    assert (d ∈ ds) by by eapply list_elem_of_lookup_2.
    split; [by apply Hcolon|by eapply Hint].
  - intros i d k Hd Hk. rewrite Hks.
    destruct (Forall2_lookup_l _ _ _ _ _ Hall Hd) as (k' & Hk' & Hord).
    assert (k' = k) as -> by congruence.
    by rewrite (index_from_lookup 0 ks ∅ i k Hnd Hk').
Qed.

Lemma X19_witness :
  exists m,
    build_index_map ["TPU:1"; "TPU:0"] (Sample.started Sample.a_client)
      = Returned (m, Sample.started Sample.a_client) /\
    m !! 1 = Some 0%nat /\ m !! 0 = Some 1%nat.
Proof.
  destruct (X19_build_index_map_inverts Sample.two_devices
              (Sample.started Sample.a_client) ["TPU:1"; "TPU:0"]
              (Sample.started Sample.a_client) eq_refl)
    as (m & Hm & Hlook).
  - intros d Hd. apply list_elem_of_In in Hd. cbn in Hd.
    destruct Hd as [<-|[<-|[]]]; reflexivity.
  - intros d k Hd Hk. apply list_elem_of_In in Hd. cbn in Hd.
    destruct Hd as [<-|[<-|[]]]; vm_compute in Hk; injection Hk as <-; lia.
  - intros i j d1 d2 k Hi Hj H1 H2.
    destruct i as [|[|i]]; destruct j as [|[|j]]; try done;
      cbn in Hi, Hj; simplify_eq; vm_compute in H1, H2; congruence.
  - exists m. split; [exact Hm|]. split.
    + apply (Hlook 0%nat (Sample.tpu 7) 1%nat); reflexivity.
    + apply (Hlook 1%nat (Sample.tpu 3) 0%nat); reflexivity.
Defined.

Lemma index_device_malformed (m : gmap Z nat) (i : nat) s st :
  count_colons s <> 1%nat ->
  index_device m (i, s) st = Fatal ("Invalid device specification: " +:+ s).
Proof.
  intros H. unfold index_device, bind, XLA_CHECK_EQ.
  rewrite StrSplit_length. rewrite bool_decide_eq_false_2; [done|]. lia.
Qed.

Lemma index_loop_malformed (j : nat) devs (m : gmap Z nat) st :
  Exists (fun s => count_colons s <> 1%nat) devs ->
  is_returned (for_each_acc (zip (seq j (length devs)) devs) m index_device st) = false.
Proof.
  intros Hex. revert j m st. induction Hex as [s devs Hs|s devs _ IH]; intros j m st.
  - cbn [length seq zip_with for_each_acc]. apply bind_not_returned.
    by rewrite index_device_malformed.
  - cbn [length seq zip_with for_each_acc].
    destruct (index_device m (j, s) st) as [[m' st1]| | |] eqn:Hone.
    + rewrite (bind_Returned _ _ _ _ _ Hone). apply IH.
    + apply bind_not_returned. by rewrite Hone.
    + apply bind_not_returned. by rewrite Hone.
    + apply bind_not_returned. by rewrite Hone.
Qed.

(** X20. [build_index_map] returns no map for a list that holds a string
    with no colon or with more than one; if that string comes first, the
    failure is the check "Invalid device specification" naming it. *)
Theorem X20_build_index_map_malformed devs st :
  (Exists (fun s => count_colons s <> 1%nat) devs ->
   is_returned (build_index_map devs st) = false) /\
  (forall s rest,
     devs = s :: rest -> count_colons s <> 1%nat ->
     build_index_map devs st = Fatal ("Invalid device specification: " +:+ s)).
Proof.
  split.
  - apply index_loop_malformed.
  - intros s rest -> Hs. unfold build_index_map.
    cbn [length seq zip_with for_each_acc]. apply bind_Fatal.
    by apply index_device_malformed.
Qed.

Lemma X20_witness :
  is_returned (build_index_map ["TPU:0"; "TPU1"] (Sample.started Sample.a_client))
    = false /\
  build_index_map ["TPU:0:1"; "TPU:1"] (Sample.started Sample.a_client)
    = Fatal "Invalid device specification: TPU:0:1".
Proof.
  split.
  - apply (proj1 (X20_build_index_map_malformed ["TPU:0"; "TPU1"] _)).
    apply Exists_cons_tl, Exists_cons_hd. cbn. lia.
  - apply (proj2 (X20_build_index_map_malformed ["TPU:0:1"; "TPU:1"] _)
             "TPU:0:1" ["TPU:1"] eq_refl).
    cbn. lia.
Defined.

(** ** The custom sharding node *)

(** X21. The three types of a custom sharding node have three different
    names, so the name tells the type: [TypeToString] is injective, and
    two nodes with the same [XlaNode] string have the same string only if
    they have the same type. *)
Theorem X21_TypeToString_injective :
  (forall t1 t2,
     CustomShardingOp.TypeToString t1 = CustomShardingOp.TypeToString t2 -> t1 = t2) /\
  (forall (base : CustomShardingOp.CustomSharding -> string) n1 n2,
     base n1 = base n2 ->
     CustomShardingOp.ToString base n1 = CustomShardingOp.ToString base n2 ->
     CustomShardingOp.type n1 = CustomShardingOp.type n2).
Proof.
  assert (Hinj : forall t1 t2,
    CustomShardingOp.TypeToString t1 = CustomShardingOp.TypeToString t2 -> t1 = t2).
  { intros [] []; cbn; intros H; try reflexivity; discriminate. }
  split; [exact Hinj|].
  intros base n1 n2 Hbase H. unfold CustomShardingOp.ToString in H.
  rewrite Hbase in H. apply (inj (String.app _)) in H.
  apply (inj (String.app _)) in H. by apply Hinj.
Qed.

Lemma X21_witness :
  CustomShardingOp.TypeToString CustomShardingOp.kSPMDFullToShardShape
    <> CustomShardingOp.TypeToString CustomShardingOp.kSPMDShardToFullShape.
Proof.
  intros H. by apply (proj1 X21_TypeToString_injective) in H.
Defined.

(** [Clone] uses the first operand and nothing else; on an empty list of
    operands [operands.at(0)] throws. *)
Lemma Clone_first_operand op (GetXlaShape : CustomShardingOp.Value -> Shape)
    (MHash : CustomShardingOp.Type_ -> Z) node :
  CustomShardingOp.Clone op GetXlaShape MHash node [] = Fatal "vector::at" /\
  (forall operand0 rest,
     CustomShardingOp.Clone op GetXlaShape MHash node (operand0 :: rest)
       = Returned (CustomShardingOp.CustomSharding_new op GetXlaShape MHash operand0
                     (CustomShardingOp.type node))).
Proof. by split. Qed.

(** ** When the constructor returns *)

Lemma ordinals_from_dom l (m : gmap Z nat) (i : Z) :
  is_Some (ordinals_from l m !! i) <->
  is_Some (m !! i) \/ i ∈ (device_id <$> l).
Proof.
  revert m. induction l as [|d l IH]; intros m.
  - cbn. split; [by left|]. intros [H|H]; [done|]. by apply elem_of_nil in H.
  - cbn [ordinals_from foldl]. change (foldl _ ?m0 l) with (ordinals_from l m0).
    rewrite IH, fmap_cons, elem_of_cons. rewrite lookup_insert_is_Some.
    destruct (decide (device_id d = i)) as [<-|Hne].
    + split; intros _; [right; by left|left; by left].
    + split.
      * intros [[Heq|[_ H]]|H]; [done|by left|right; by right].
      * intros [H|[Heq|H]]; [left; right; by split|congruence|by right].
Qed.

(** X22. The constructor returns a client exactly when every addressable
    device is among the devices the driver enumerates, by id; otherwise
    it ends in the exception of [global_ordinals_.at], raised while the
    strings of the local devices are formed. *)
Theorem X22_constructor_returns c m b :
  (is_returned (IfrtComputationClient_new c m b) = true <->
   forall d, d ∈ addressable_devices c -> device_id d ∈ (device_id <$> devices c)) /\
  (is_returned (IfrtComputationClient_new c m b) = false ->
   IfrtComputationClient_new c m b = Fatal "unordered_map::at").
Proof.
  unfold IfrtComputationClient_new.
  rewrite (bind_Returned _ _ _ _ _ (register_all_full _ _)).
  cbn [global_ordinals_ string_to_device_].
  match goal with |- context [bind GetLocalDevices _ ?s] => set (st1 := s) end.
  assert (Hord : global_ordinals_ st1 = ordinals_from (sort_by_id (devices c)) ∅)
    by apply registry_from_ordinals.
  unfold bind, GetLocalDevices, bind, the_client. cbn [client_ st1 set_string_to_device_
    set_global_ordinals_]. rewrite PjRtDevicesToString_pure, Hord.
  destruct (mapM _ (addressable_devices c)) as [l|] eqn:Hl.
  - split; [|done]. split; [|done]. intros _ d Hd.
    assert (His : is_Some (mapM (fun d =>
               device_string d <$> ordinals_from (sort_by_id (devices c)) ∅
                                     !! device_id d) (addressable_devices c)))
      by (rewrite Hl; by eexists).
    apply mapM_is_Some in His. rewrite Forall_forall in His.
    specialize (His d Hd). cbn in His. apply fmap_is_Some in His.
    apply ordinals_from_dom in His as [His|His].
    + rewrite lookup_empty in His. by destruct His.
    + by rewrite (sort_by_id_Permutation (devices c)) in His.
  - split; [|done]. split; [done|]. intros Hall. exfalso.
    assert (His : is_Some (mapM (fun d =>
               device_string d <$> ordinals_from (sort_by_id (devices c)) ∅
                                     !! device_id d) (addressable_devices c))).
    { apply mapM_is_Some. apply Forall_forall. intros d Hd. cbn.
      apply fmap_is_Some. apply ordinals_from_dom. right.
      rewrite (sort_by_id_Permutation (devices c)). by apply Hall. }
    rewrite Hl in His. by destruct His.
Qed.

Lemma X22_witness :
  let stray :=
    MakeIfrtClient [Sample.tpu 3] [Sample.tpu 3; Sample.tpu 7] 0
      Sample.make_array Sample.assemble Sample.disassemble Sample.replicated_shard
      Sample.copy_to_host (fun prog _ => OkValue (Sample.an_executable prog)) in
  is_returned (IfrtComputationClient_new Sample.a_client Sample.no_metrics Sample.a_base)
    = true /\
  IfrtComputationClient_new stray Sample.no_metrics Sample.a_base
    = Fatal "unordered_map::at".
Proof.
  intros stray. split.
  - apply (proj1 (X22_constructor_returns Sample.a_client Sample.no_metrics
                    Sample.a_base)).
    intros d Hd. apply list_elem_of_In in Hd. cbn in Hd.
    destruct Hd as [<-|[<-|[]]]; compute_done.
  - apply (proj2 (X22_constructor_returns stray Sample.no_metrics Sample.a_base)).
    reflexivity.
Defined.
